(** * Anonymizer v3: the entity detection and rewrite core of
      [backend/server.py], embedded in Rocq.

    Python [str] values are sequences of Unicode code points, so a string is
    a [list N]; Python [int] values are [Z] (or [N] where the code only
    produces non-negative numbers); an exception is a [None] result. *)

From Stdlib Require Import ZArith NArith List Strings.String Strings.Ascii.
From Stdlib Require Import Floats.PrimFloat.
From stdpp Require Import base option list gmap sets sorting strings.

#[local] Set Warnings "-inexact-float,-clear-no-such-hyp".

Open Scope Z_scope.

(** ** Strings *)

Abbreviation pystr := (list N).

(** String literals of the source are written as Rocq strings and decoded
    from UTF-8 into code points. *)
Fixpoint utf8_go (s : string) (need : nat) (acc : N) : pystr :=
  match s with
  | EmptyString => []
  | String a s' =>
      let b := N_of_ascii a in
      match need with
      | O =>
          if (b <? 128)%N then b :: utf8_go s' 0 0%N
          else if (b <? 224)%N then utf8_go s' 1 (b - 192)%N
          else if (b <? 240)%N then utf8_go s' 2 (b - 224)%N
          else utf8_go s' 3 (b - 240)%N
      | S n =>
          let acc' := (acc * 64 + (b - 128))%N in
          match n with
          | O => acc' :: utf8_go s' 0 0%N
          | _ => utf8_go s' n acc'
          end
      end
  end.

Definition lit (s : string) : pystr := utf8_go s 0 0%N.

(** [s[:n]] and [s[n:]] with Python's treatment of negative and
    out-of-range bounds. *)
Definition slice_bound {A} (l : list A) (n : Z) : nat :=
  let len := Z.of_nat (length l) in
  let n' := if n <? 0 then n + len else n in
  Z.to_nat (Z.min (Z.max n' 0) len).

Definition slice_to {A} (l : list A) (n : Z) : list A :=
  take (slice_bound l n) l.

Definition slice_from {A} (l : list A) (n : Z) : list A :=
  drop (slice_bound l n) l.

(** [s[a:b]] *)
Definition slice {A} (l : list A) (a b : Z) : list A :=
  take (slice_bound l b - slice_bound l a) (drop (slice_bound l a) l).

(** ** Data model *)

Module ProcessingMode.
Inductive t := STANDARD | ADVANCED | OLLAMA.
End ProcessingMode.

Module EntityType.
Inductive t :=
  PHONE | EMAIL | SIRET | SSN | ADDRESS | LEGAL | PERSON | ORGANIZATION.
End EntityType.

Module EntitySource.
Inductive t := REGEX | NER | OLLAMA | MANUAL.
End EntitySource.

Record Position := { start : Z; end_ : Z }.

Record Entity := {
  id : pystr;
  text : pystr;
  type : EntityType.t;
  source : EntitySource.t;
  confidence : float;
  replacement : pystr;
  positions : list Position;
  selected : bool
}.

(** ** Character classes

    CPython's Unicode tables are not part of the repository.  For code
    points below 128 the classes are written out; for the others they are
    taken from a [Unicode] instance:
    - [uni_decimal c] is the value [int(c)] of a decimal digit [c] (the
      characters matched by [\d]), [None] when [int(c)] raises;
    - [uni_alnum c] is [c.isalnum()], [uni_space c] is [c.isspace()];
    - [uni_ci_lit p c] and [uni_ci_range lo hi c] say whether [c] matches
      the pattern character [p] (the range [lo-hi]) under [re.IGNORECASE]. *)
Class Unicode := {
  uni_decimal : N -> option N;
  uni_alnum : N -> bool;
  uni_space : N -> bool;
  uni_ci_lit : N -> N -> bool;
  uni_ci_range : N -> N -> N -> bool
}.

Definition in_range (lo hi c : N) : bool := ((lo <=? c) && (c <=? hi))%N.

Definition is_ascii (c : N) : bool := (c <? 128)%N.

(** [int(c)] for a one-character string [c]. *)
Definition py_int_char `{Unicode} (c : N) : option N :=
  if is_ascii c then
    if in_range 48 57 c then Some (c - 48)%N else None
  else uni_decimal c.

Definition is_digit `{Unicode} (c : N) : bool :=
  match py_int_char c with Some _ => true | None => false end.

Definition is_alnum `{Unicode} (c : N) : bool :=
  if is_ascii c then
    in_range 48 57 c || in_range 65 90 c || in_range 97 122 c
  else uni_alnum c.

(** [\w]: alphanumeric or underscore. *)
Definition is_word `{Unicode} (c : N) : bool := is_alnum c || (c =? 95)%N.

(** [\s]. *)
Definition is_space `{Unicode} (c : N) : bool :=
  if is_ascii c then
    in_range 9 13 c || in_range 28 31 c || (c =? 32)%N
  else uni_space c.

Definition ascii_lower (c : N) : N :=
  if in_range 65 90 c then (c + 32)%N else c.

Definition ascii_upper (c : N) : N :=
  if in_range 97 122 c then (c - 32)%N else c.

(** ** Checksum validator: [RegexService.luhn_check] *)

Definition sumN (l : list N) : N := foldr N.add 0%N l.

(** [str(n)] for a non-negative [int]. *)
Fixpoint py_str_aux (fuel : nat) (n : N) (acc : pystr) : pystr :=
  let acc' := (48 + n mod 10)%N :: acc in
  match fuel with
  | O => acc'
  | S fuel' => if (n <? 10)%N then acc' else py_str_aux fuel' (n / 10)%N acc'
  end.

Definition py_str (n : N) : pystr := py_str_aux (N.to_nat n) n [].

(** [digits_of(n)] is [[int(d) for d in str(n)]]; [n] is a string in the
    outer call and an [int] in the loop. *)
Definition digits_of `{Unicode} (s : pystr) : option (list N) :=
  mapM py_int_char s.

Fixpoint every_other {A} (l : list A) : list A :=
  match l with
  | [] => []
  | x :: l' => x :: match l' with [] => [] | _ :: l'' => every_other l'' end
  end.

(** [l[start::-2]]. *)
Definition slice_step_m2 {A} (l : list A) (start : Z) : list A :=
  let len := Z.of_nat (length l) in
  let s0 := if start <? 0 then start + len else start in
  let s := if s0 <? 0 then -1 else if len <=? s0 then len - 1 else s0 in
  every_other (reverse (take (Z.to_nat (s + 1)) l)).

Definition luhn_checksum `{Unicode} (card_num : pystr) : option N :=
  digits ← digits_of card_num;
  let odd_digits := slice_step_m2 digits (-1) in
  let even_digits := slice_step_m2 digits (-2) in
  checksum ← foldl
    (fun acc d => checksum ← acc;
                  ds ← digits_of (py_str (d * 2)%N);
                  Some (checksum + sumN ds)%N)
    (Some (sumN odd_digits)) even_digits;
  Some (checksum mod 10)%N.

Definition luhn_check `{Unicode} (number : pystr) : option bool :=
  c ← luhn_checksum number; Some (c =? 0)%N.

(** The checksum as the specification words it: positions are counted from
    the rightmost digit, starting at 1. *)
Fixpoint digit_sum (fuel : nat) (n : N) : N :=
  match fuel with
  | O => 0%N
  | S fuel' => (n mod 10 + digit_sum fuel' (n / 10))%N
  end.

Definition luhn_term (pos : nat) (d : N) : N :=
  if Nat.odd pos then d
  else if (9 <? 2 * d)%N then digit_sum (S (N.to_nat (2 * d))) (2 * d)%N
       else (2 * d)%N.

Definition luhn_total (digits : list N) : N :=
  sumN (imap (fun i d => luhn_term (S i) d) (reverse digits)).

(** ** Regular expressions

    The patterns of [RegexService.__init__] as syntax trees, and the
    backtracking matcher of Python's [re] for the constructs they use:
    literals, character sets, [\b], sequence, alternation and greedy
    repetition. *)

Inductive cset_item :=
| CLit (c : N)
| CRange (lo hi : N)
| CDigit
| CSpace.

Inductive regex :=
| REmpty
| RChar (c : N)
| RSet (items : list cset_item)
| RBoundary
| RSeq (r1 r2 : regex)
| RAlt (r1 r2 : regex)
| RRepeat (lo : nat) (hi : option nat) (r : regex).

Definition lit_match `{Unicode} (ic : bool) (p c : N) : bool :=
  if ic then
    if is_ascii c then is_ascii p && (ascii_lower c =? ascii_lower p)%N
    else uni_ci_lit p c
  else (c =? p)%N.

Definition range_match `{Unicode} (ic : bool) (lo hi c : N) : bool :=
  if ic then
    if is_ascii c then
      in_range lo hi (ascii_lower c) || in_range lo hi (ascii_upper c)
    else uni_ci_range lo hi c
  else in_range lo hi c.

Definition item_match `{Unicode} (ic : bool) (it : cset_item) (c : N) : bool :=
  match it with
  | CLit p => lit_match ic p c
  | CRange lo hi => range_match ic lo hi c
  | CDigit => is_digit c
  | CSpace => is_space c
  end.

Definition set_match `{Unicode} (ic : bool) (items : list cset_item) (c : N)
  : bool :=
  existsb (fun it => item_match ic it c) items.

Definition word_at `{Unicode} (s : pystr) (i : nat) : bool :=
  match s !! i with Some c => is_word c | None => false end.

(** [\b] at offset [i]. *)
Definition at_boundary `{Unicode} (s : pystr) (i : nat) : bool :=
  xorb (match i with O => false | S j => word_at s j end) (word_at s i).

Section Matcher.
Context `{Unicode} (ic : bool) (s : pystr).

(** [repeat_loop] is the greedy loop of a repetition whose body is matched
    by [body]: one more iteration is tried first, then the continuation.
    Past the minimum count an iteration that consumes nothing ends the
    loop. *)
Fixpoint repeat_loop (body : (nat -> option nat) -> nat -> option nat)
    (lo : nat) (hi : option nat) (k : nat -> option nat)
    (fuel count i : nat) : option nat :=
  let stop := if (lo <=? count)%nat then k i else None in
  match fuel with
  | O => stop
  | S fuel' =>
      if match hi with Some h => (count <? h)%nat | None => true end then
        match body (fun j => if (lo <=? count)%nat && (j =? i)%nat then None
                             else repeat_loop body lo hi k fuel' (S count) j) i
        with
        | Some e => Some e
        | None => stop
        end
      else stop
  end.

(** [rmatch r k i]: match [r] at offset [i], then the continuation [k] at
    the offset reached; the result is the end of the whole match. *)
Fixpoint rmatch (r : regex) (k : nat -> option nat) (i : nat) : option nat :=
  match r with
  | REmpty => k i
  | RChar p =>
      match s !! i with
      | Some c => if lit_match ic p c then k (S i) else None
      | None => None
      end
  | RSet items =>
      match s !! i with
      | Some c => if set_match ic items c then k (S i) else None
      | None => None
      end
  | RBoundary => if at_boundary s i then k i else None
  | RSeq r1 r2 => rmatch r1 (rmatch r2 k) i
  | RAlt r1 r2 =>
      match rmatch r1 k i with
      | Some e => Some e
      | None => rmatch r2 k i
      end
  | RRepeat lo hi r' =>
      repeat_loop (rmatch r') lo hi k (lo + S (length s)) 0 i
  end.

(** [re.finditer]: the leftmost match from each offset on, scanning
    resumes at the end of a match.  None of the patterns below matches the
    empty string; after an empty match the scan moves one character on. *)
Fixpoint finditer_from (r : regex) (fuel pos : nat) : list (nat * nat) :=
  match fuel with
  | O => []
  | S fuel' =>
      if (length s <? pos)%nat then []
      else match rmatch r Some pos with
           | Some e =>
               (pos, e) :: finditer_from r fuel'
                             (if (e =? pos)%nat then S pos else e)
           | None => finditer_from r fuel' (S pos)
           end
  end.

Definition finditer (r : regex) : list (nat * nat) :=
  finditer_from r (S (length s)) 0.

End Matcher.

(** [match.group()]. *)
Definition group (s : pystr) (m : nat * nat) : pystr :=
  take (m.2 - m.1) (drop m.1 s).

Definition chr_ (a : ascii) : N := N_of_ascii a.

Fixpoint rseq (rs : list regex) : regex :=
  match rs with
  | [] => REmpty
  | [r] => r
  | r :: rs' => RSeq r (rseq rs')
  end.

Fixpoint ralt (rs : list regex) : regex :=
  match rs with
  | [] => REmpty
  | [r] => r
  | r :: rs' => RAlt r (ralt rs')
  end.

(** A literal word, character by character. *)
Definition rword (w : string) : regex := rseq (RChar <$> lit w).

Definition rdigit : regex := RSet [CDigit].
Definition rspace : regex := RSet [CSpace].
Definition rtimes (n : nat) (r : regex) : regex := RRepeat n (Some n) r.
Definition ropt (r : regex) : regex := RRepeat 0 (Some 1%nat) r.
Definition rstar (r : regex) : regex := RRepeat 0 None r.
Definition rplus (r : regex) : regex := RRepeat 1 None r.
Definition ratleast (n : nat) (r : regex) : regex := RRepeat n None r.

(** [(?:[.\-\s]?\d{2}){4}] *)
Definition phone_groups : regex :=
  rtimes 4 (RSeq (ropt (RSet [CLit (chr_ "."); CLit (chr_ "-"); CSpace]))
                 (rtimes 2 rdigit)).

(** [\b0[1-9](?:[.\-\s]?\d{2}){4}\b] and
    [\+33[1-9](?:[.\-\s]?\d{2}){4}\b] *)
Definition phone_patterns : list regex :=
  [ rseq [RBoundary; RChar (chr_ "0"); RSet [CRange (chr_ "1") (chr_ "9")];
          phone_groups; RBoundary];
    rseq [RChar (chr_ "+"); RChar (chr_ "3"); RChar (chr_ "3");
          RSet [CRange (chr_ "1") (chr_ "9")]; phone_groups; RBoundary] ].

(** [\b[A-Za-z0-9._%+-]+@[A-Za-z0-9.-]+\.[A-Z|a-z]{2,}\b] *)
Definition email_pattern : regex :=
  rseq [RBoundary;
        rplus (RSet [CRange (chr_ "A") (chr_ "Z"); CRange (chr_ "a") (chr_ "z");
                     CRange (chr_ "0") (chr_ "9"); CLit (chr_ ".");
                     CLit (chr_ "_"); CLit (chr_ "%"); CLit (chr_ "+");
                     CLit (chr_ "-")]);
        RChar (chr_ "@");
        rplus (RSet [CRange (chr_ "A") (chr_ "Z"); CRange (chr_ "a") (chr_ "z");
                     CRange (chr_ "0") (chr_ "9"); CLit (chr_ ".");
                     CLit (chr_ "-")]);
        RChar (chr_ ".");
        ratleast 2 (RSet [CRange (chr_ "A") (chr_ "Z"); CLit (chr_ "|");
                          CRange (chr_ "a") (chr_ "z")]);
        RBoundary].

(** [\b\d{14}\b] *)
Definition siret_pattern : regex :=
  rseq [RBoundary; rtimes 14 rdigit; RBoundary].

(** [\b[12]\d{12}\b] *)
Definition ssn_pattern : regex :=
  rseq [RBoundary; RSet [CLit (chr_ "1"); CLit (chr_ "2")];
        rtimes 12 rdigit; RBoundary].

Definition letters : list cset_item :=
  [CRange (chr_ "A") (chr_ "Z"); CRange (chr_ "a") (chr_ "z")].

(** [\b\d+\s+(?:rue|avenue|boulevard|place|impasse|allée|chemin|route)\s+[A-Za-z\s]+\b]
    and [\b\d{5}\s+[A-Z][a-zA-Z\s-]+\b]; code point 233 is e-acute. *)
Definition address_patterns : list regex :=
  [ rseq [RBoundary; rplus rdigit; rplus rspace;
          ralt [rword "rue"; rword "avenue"; rword "boulevard"; rword "place";
                rword "impasse";
                rseq [rword "all"; RChar 233%N; rword "e"];
                rword "chemin"; rword "route"];
          rplus rspace; rplus (RSet (letters ++ [CSpace])); RBoundary];
    rseq [RBoundary; rtimes 5 rdigit; rplus rspace;
          RSet [CRange (chr_ "A") (chr_ "Z")];
          rplus (RSet [CRange (chr_ "a") (chr_ "z");
                       CRange (chr_ "A") (chr_ "Z"); CSpace; CLit (chr_ "-")]);
          RBoundary] ].

(** [\bRG\s+\d+/\d+\b], [\bdossier\s+n°?\s*\d+[-/]\d+\b] and
    [\barticle\s+\d+(?:-\d+)?\b]; code point 176 is the degree sign. *)
Definition legal_patterns : list regex :=
  [ rseq [RBoundary; rword "RG"; rplus rspace; rplus rdigit; RChar (chr_ "/");
          rplus rdigit; RBoundary];
    rseq [RBoundary; rword "dossier"; rplus rspace; RChar (chr_ "n");
          ropt (RChar 176%N); rstar rspace; rplus rdigit;
          RSet [CLit (chr_ "-"); CLit (chr_ "/")]; rplus rdigit; RBoundary];
    rseq [RBoundary; rword "article"; rplus rspace; rplus rdigit;
          ropt (RSeq (RChar (chr_ "-")) (rplus rdigit)); RBoundary] ].

(** ** Pattern extractor: [RegexService.extract_entities]

    [Entity(...)] draws its [id] from [uuid.uuid4()].  [ids n] is the value
    of the [n]-th draw of the request; every entity built is appended to the
    list at once, so the number of earlier draws is the length of the list. *)

Definition regex_entity (ids : nat -> pystr) (n : nat) (s : pystr)
    (ty : EntityType.t) (repl : pystr) (m : nat * nat) : Entity :=
  {| id := ids n;
     text := group s m;
     type := ty;
     source := EntitySource.REGEX;
     confidence := 1%float;
     replacement := repl;
     positions := [ {| start := Z.of_nat m.1; end_ := Z.of_nat m.2 |} ];
     selected := true |}.

(** [for match in re.finditer(pattern, text, flags): entities.append(...)] *)
Definition scan `{Unicode} (ids : nat -> pystr) (ic : bool) (s : pystr)
    (ty : EntityType.t) (repl : pystr) (entities : list Entity) (r : regex)
  : list Entity :=
  foldl (fun acc m => acc ++ [regex_entity ids (length acc) s ty repl m])
        entities (finditer ic s r).

Definition _generate_phone_replacement : pystr := lit "06 XX XX XX XX".

(** The SIRET loop; [None] when [luhn_check] raises. *)
Definition scan_siret `{Unicode} (ids : nat -> pystr) (s : pystr)
    (entities : list Entity) : option (list Entity) :=
  foldl (fun acc m =>
           acc ← acc;
           ok ← luhn_check (group s m);
           if ok : bool then
             Some (acc ++ [regex_entity ids (length acc) s EntityType.SIRET
                             (lit "[SIRET Anonymisé]") m])
           else Some acc)
        (Some entities) (finditer false s siret_pattern).

Definition extract_entities `{Unicode} (ids : nat -> pystr) (text : pystr)
  : option (list Entity) :=
  let entities := [] in
  let entities :=
    foldl (scan ids false text EntityType.PHONE _generate_phone_replacement)
          entities phone_patterns in
  let entities :=
    scan ids false text EntityType.EMAIL (lit "[email.anonymise@exemple.fr]")
         entities email_pattern in
  entities ← scan_siret ids text entities;
  let entities :=
    scan ids false text EntityType.SSN (lit "[N° Sécurité Sociale Anonymisé]")
         entities ssn_pattern in
  let entities :=
    foldl (scan ids true text EntityType.ADDRESS (lit "[Adresse Anonymisée]"))
          entities address_patterns in
  let entities :=
    foldl (scan ids true text EntityType.LEGAL (lit "[Référence Anonymisée]"))
          entities legal_patterns in
  Some entities.

(** ** NER adapter: [NERService]

    The spaCy pipeline is external: [nlp] is the module-level model, [None]
    when loading failed, and [nlp text] gives [doc.ents] of a call
    [self.nlp(text)] that returns; an exception raised inside the pipeline
    is not modelled.  [round2] is [round(x, 2)] on floats. *)

Record Span := {
  span_text : pystr;
  label_ : pystr;
  start_char : Z;
  end_char : Z;
  span_confidence : option float
}.

Class Spacy := {
  nlp : option (pystr -> list Span);
  round2 : float -> float
}.

(** The fields of the long-lived [ner_service] instance. *)
Record NERService := {
  person_counter : Z;
  org_counter : Z
}.

(** [NERService.__init__] *)
Definition NERService_init : NERService :=
  {| person_counter := 1; org_counter := 1 |}.

(** [chr(n)] raises outside [range(0x110000)]. *)
Definition py_chr (n : Z) : option N :=
  if (0 <=? n) && (n <? 1114112) then Some (Z.to_N n) else None.

(** One iteration of [for ent in doc.ents]; the state is the entity list,
    [None] once an exception was raised, and the counters. *)
Definition ner_step `{Spacy} (ids : nat -> pystr) (base : nat)
    (st : option (list Entity) * NERService) (ent : Span)
  : option (list Entity) * NERService :=
  match st with
  | (None, self) => (None, self)
  | (Some entities, self) =>
      if decide (label_ ent = lit "PER") then
        match py_chr (64 + person_counter self) with
        | None => (None, self)
        | Some c =>
            (Some (entities ++
               [ {| id := ids (base + length entities)%nat;
                    text := span_text ent;
                    type := EntityType.PERSON;
                    source := EntitySource.NER;
                    confidence :=
                      round2 (default 0.9%float (span_confidence ent));
                    replacement := lit "Personne " ++ [c];
                    positions := [ {| start := start_char ent;
                                      end_ := end_char ent |} ];
                    selected := true |} ]),
             {| person_counter := person_counter self + 1;
                org_counter := org_counter self |})
        end
      else if decide (label_ ent = lit "ORG") then
        match py_chr (64 + org_counter self) with
        | None => (None, self)
        | Some c =>
            (Some (entities ++
               [ {| id := ids (base + length entities)%nat;
                    text := span_text ent;
                    type := EntityType.ORGANIZATION;
                    source := EntitySource.NER;
                    confidence :=
                      round2 (default 0.85%float (span_confidence ent));
                    replacement := lit "Organisation " ++ [c];
                    positions := [ {| start := start_char ent;
                                      end_ := end_char ent |} ];
                    selected := true |} ]),
             {| person_counter := person_counter self;
                org_counter := org_counter self + 1 |})
        end
      else (Some entities, self)
  end.

(** [NERService.extract_entities]; [base] is the number of ids drawn
    earlier in the request. *)
Definition ner_extract_entities `{Spacy} (ids : nat -> pystr) (base : nat)
    (self : NERService) (text : pystr) : option (list Entity) * NERService :=
  match nlp with
  | None => (Some [], self)
  | Some model => foldl (ner_step ids base) (Some [], self) (model text)
  end.

(** ** LLM adapter: [OllamaService.extract_entities] *)

Record OllamaConfig := {
  url : pystr;
  model : pystr;
  custom_prompt : option pystr;
  timeout : Z
}.

Definition ollama_extract_entities (config : OllamaConfig) (text : pystr)
  : list Entity := [].

(** ** Anonymization rewriter: [DocumentProcessor.apply_anonymization] *)

(** [x.positions[0].start]; [None] is the [IndexError] of an empty list. *)
Definition first_start (e : Entity) : option Z :=
  start <$> head (positions e).

Fixpoint insert_desc {A} (x : Z * A) (l : list (Z * A)) : list (Z * A) :=
  match l with
  | [] => [x]
  | y :: l' => if x.1 <? y.1 then y :: insert_desc x l' else x :: l
  end.

(** [sorted(l, key=key, reverse=True)]: the keys are computed first, the
    sort is stable, and elements with equal keys keep their order.  The
    result of a stable sort is determined by its input; it is computed here
    by insertion from the right. *)
Definition sorted_desc {A} (key : A -> option Z) (l : list A)
  : option (list A) :=
  keys ← mapM key l;
  Some ((foldr insert_desc [] (zip keys l)).*2).

(** [result[:pos.start] + entity.replacement + result[pos.end:]] *)
Definition splice (result : pystr) (entity : Entity) : option pystr :=
  pos ← head (positions entity);
  Some (slice_to result (start pos) ++ replacement entity
          ++ slice_from result (end_ pos)).

Definition apply_anonymization (content : pystr) (entities : list Entity)
  : option pystr :=
  sorted_entities ←
    sorted_desc first_start (filter (fun e => selected e = true) entities);
  foldl (fun result entity => result ← result; splice result entity)
        (Some content) sorted_entities.

(** ** Request processing: [process_document] *)

Record DocumentRequest := {
  content : pystr;
  filename : pystr;
  mode : ProcessingMode.t;
  ollama_config : option OllamaConfig
}.

Record ProcessingResponse := {
  entities : list Entity;
  processing_time : float;
  mode_used : ProcessingMode.t;
  total_occurrences : Z;
  spacy_available : bool;
  ollama_available : bool
}.

Definition entity_key (entity : Entity) : option (pystr * Z * Z) :=
  pos ← head (positions entity);
  Some (text entity, start pos, end_ pos).

(** The loop that removes duplicates, with its [seen] set. *)
Definition dedup_step (st : option (list Entity * gset (pystr * Z * Z)))
    (entity : Entity) : option (list Entity * gset (pystr * Z * Z)) :=
  st ← st;
  key ← entity_key entity;
  if decide (key ∈ st.2) then Some st
  else Some (st.1 ++ [entity], {[ key ]} ∪ st.2).

Definition deduplicate (all_entities : list Entity) : option (list Entity) :=
  fst <$> foldl dedup_step (Some ([], ∅)) all_entities.

Instance mode_eq_dec : EqDecision ProcessingMode.t.
Proof. solve_decision. Defined.

(** [process_document]; [elapsed] is the measured
    [(datetime.now() - start_time).total_seconds()], [ner_service] the
    state of the shared service before the request.  The result is the
    response, [None] when an exception escapes, and the state of the
    service afterwards. *)
Definition process_document `{Unicode} `{Spacy} (ids : nat -> pystr)
    (elapsed : float) (ner_service : NERService) (request : DocumentRequest)
  : option ProcessingResponse * NERService :=
  match extract_entities ids (content request) with
  | None => (None, ner_service)
  | Some regex_entities =>
      let all_entities := regex_entities in
      let '(ner_entities, ner_service') :=
        if bool_decide (mode request = ProcessingMode.ADVANCED)
           && bool_decide (is_Some nlp)
        then ner_extract_entities ids (length regex_entities) ner_service
               (content request)
        else (Some [], ner_service) in
      (all_entities ← (ner_entities ≫= fun l => Some (all_entities ++ l));
       unique_entities ← deduplicate all_entities;
       Some {| entities := unique_entities;
               processing_time := elapsed;
               mode_used := mode request;
               total_occurrences := Z.of_nat (length unique_entities);
               spacy_available := bool_decide (is_Some nlp);
               ollama_available := false |},
       ner_service')
  end.

(** Deduplication as the specification words it: an entity is kept when
    no entity before it in the list has the same key. *)
Definition first_for_key (l : list Entity) (i : nat) (e : Entity) : bool :=
  bool_decide (entity_key e ∉ entity_key <$> take i l).

Definition keep_first (l : list Entity) : list Entity :=
  omap (fun x => x)
       (imap (fun i e => if first_for_key l i e then Some e else None) l).

(** The first position of an entity, for the entities that have one. *)
Definition has_position (e : Entity) : Prop := positions e <> [].

Definition first_pos (e : Entity) : Position :=
  default {| start := 0; end_ := 0 |} (head (positions e)).

Definition span (e : Entity) : Z * Z * pystr :=
  (start (first_pos e), end_ (first_pos e), replacement e).

(** The invariant of [Position] in the text [content]. *)
Definition in_text (content : pystr) (e : Entity) : Prop :=
  has_position e /\
  0 <= start (first_pos e) < end_ (first_pos e) /\
  end_ (first_pos e) <= Z.of_nat (length content).

Definition disjoint (e e' : Entity) : Prop :=
  end_ (first_pos e) <= start (first_pos e') \/
  end_ (first_pos e') <= start (first_pos e).

Fixpoint pairwise {A} (R : A -> A -> Prop) (l : list A) : Prop :=
  match l with
  | [] => True
  | x :: l' => Forall (R x) l' /\ pairwise R l'
  end.

Definition sumZ (l : list Z) : Z := foldr Z.add 0 l.

Definition matched_length (e : Entity) : Z :=
  end_ (first_pos e) - start (first_pos e).

Definition replacement_length (e : Entity) : Z :=
  Z.of_nat (length (replacement e)).

(** [i] lies in no span of [sel]. *)
Definition outside (sel : list Entity) (i : Z) : Prop :=
  Forall (fun e => i < start (first_pos e) \/ end_ (first_pos e) <= i) sel.

(** How far the character at offset [i] of the original moves: the growth
    of every span that ends at or before [i]. *)
Definition shift (sel : list Entity) (i : Z) : Z :=
  sumZ ((fun e => if end_ (first_pos e) <=? i
                  then replacement_length e - matched_length e else 0)
          <$> sel).

(** The rewrite as the specification words it: the text before the first
    span, then for each span in ascending order its replacement and the
    text up to the next span. *)
Fixpoint rewritten (content : pystr) (cursor : Z)
    (spans : list (Z * Z * pystr)) : pystr :=
  match spans with
  | [] => slice_from content cursor
  | (st, en, repl) :: spans' =>
      slice content cursor st ++ repl ++ rewritten content en spans'
  end.

(** ** Digit runs

    [digits_from s i n]: the [n] characters of [s] from offset [i] on are
    digits.  A run is maximal when no digit is next to it, and delimited by
    word boundaries when [\b] holds at both of its ends. *)
Definition digit_at `{Unicode} (s : pystr) (j : nat) : bool :=
  match s !! j with Some c => is_digit c | None => false end.

Definition digits_from `{Unicode} (s : pystr) (i n : nat) : bool :=
  forallb (digit_at s) (seq i n).

Definition maximal_digit_run `{Unicode} (s : pystr) (i n : nat) : bool :=
  digits_from s i n
  && negb (match i with O => false | S j => digit_at s j end)
  && negb (digit_at s (i + n)).

Definition delimited_digit_run `{Unicode} (s : pystr) (i n : nat) : bool :=
  at_boundary s i && digits_from s i n && at_boundary s (i + n).

(** The entity that the SIRET loop emits for the match at offset [i]. *)
Definition siret_emitted (entities : list Entity) (s : pystr) (i : nat)
  : Prop :=
  exists e, e ∈ entities /\
    type e = EntityType.SIRET /\
    text e = group s (i, i + 14)%nat /\
    positions e = [ {| start := Z.of_nat i; end_ := Z.of_nat (i + 14) |} ] /\
    replacement e = lit "[SIRET Anonymisé]" /\
    source e = EntitySource.REGEX /\
    confidence e = 1%float /\
    selected e = true.

(** The SIRET rule read as: every maximal run of exactly 14 digits is
    emitted exactly when it passes the checksum. *)
Definition siret_for_maximal_runs `{Unicode} (ids : nat -> pystr)
    (text : pystr) : Prop :=
  exists entities,
    extract_entities ids text = Some entities /\
    forall i, maximal_digit_run text i 14 = true ->
      (siret_emitted entities text i <->
       luhn_check (group text (i, i + 14)%nat) = Some true).

(** ** Sample values *)

Definition sample_ids (n : nat) : pystr := py_str (N.of_nat n).

Definition scenario_text : pystr :=
  lit "Contactez-moi au 06.12.34.56.78 ou jean@exemple.fr.".

Definition scenario_phone (ids : nat -> pystr) : Entity :=
  {| id := ids 0%nat;
     text := lit "06.12.34.56.78";
     type := EntityType.PHONE;
     source := EntitySource.REGEX;
     confidence := 1%float;
     replacement := lit "06 XX XX XX XX";
     positions := [ {| start := 17; end_ := 31 |} ];
     selected := true |}.

Definition scenario_email (ids : nat -> pystr) : Entity :=
  {| id := ids 1%nat;
     text := lit "jean@exemple.fr";
     type := EntityType.EMAIL;
     source := EntitySource.REGEX;
     confidence := 1%float;
     replacement := lit "[email.anonymise@exemple.fr]";
     positions := [ {| start := 35; end_ := 50 |} ];
     selected := true |}.

Definition scenario_request (filename : pystr) (cfg : option OllamaConfig)
  : DocumentRequest :=
  {| content := scenario_text;
     filename := filename;
     mode := ProcessingMode.STANDARD;
     ollama_config := cfg |}.

(** A model that finds one person in every text. *)
Definition one_person : Spacy :=
  {| nlp := Some (fun _ =>
       [ {| span_text := lit "Jean Dupont";
            label_ := lit "PER";
            start_char := 0;
            end_char := 11;
            span_confidence := None |} ]);
     round2 := fun x => x |}.

(** The entity built for that person, with the given replacement. *)
Definition sample_person (repl : string) : Entity :=
  {| id := sample_ids 0;
     text := lit "Jean Dupont";
     type := EntityType.PERSON;
     source := EntitySource.NER;
     confidence := 0.9%float;
     replacement := lit repl;
     positions := [ {| start := 0; end_ := 11 |} ];
     selected := true |}.

(** A request in advanced mode on the name alone, and the response to it
    with the given replacement for the person. *)
Definition sample_advanced_request : DocumentRequest :=
  {| content := lit "Jean Dupont";
     filename := lit "note.txt";
     mode := ProcessingMode.ADVANCED;
     ollama_config := None |}.

Definition sample_advanced_response (repl : string) : ProcessingResponse :=
  {| entities := [sample_person repl];
     processing_time := 0%float;
     mode_used := ProcessingMode.ADVANCED;
     total_occurrences := 1;
     spacy_available := true;
     ollama_available := false |}.

Definition no_model : Spacy :=
  {| nlp := None; round2 := fun x => x |}.

(** Tables with no non-ASCII digit, letter or space. *)
Definition ascii_only : Unicode :=
  {| uni_decimal := fun _ => None;
     uni_alnum := fun _ => false;
     uni_space := fun _ => false;
     uni_ci_lit := fun p c => (p =? c)%N;
     uni_ci_range := fun lo hi c => in_range lo hi c |}.

(** Two entities that differ at most in their [id]. *)
Definition same_but_id (e e' : Entity) : Prop :=
  text e = text e' /\ type e = type e' /\ source e = source e' /\
  confidence e = confidence e' /\ replacement e = replacement e' /\
  positions e = positions e' /\ selected e = selected e'.

(** ** Auxiliary notions of the proofs *)

(** Two states of the deduplication loop that differ at most in the
    identifiers of the entities kept. *)
Definition same_dedup_state (a b : list Entity * gset (pystr * Z * Z))
  : Prop :=
  Forall2 same_but_id a.1 b.1 /\ a.2 = b.2.

(** The contribution of a digit at an even position. *)
Definition doubled (d : N) : N := digit_sum (S (N.to_nat (2 * d))) (2 * d).

(** Descending order on keyed elements. *)
Definition desc {A} (x y : Z * A) : Prop := y.1 <= x.1.

(** One splice, on the span of an entity. *)
Definition splice_span (result : pystr) (sp : Z * Z * pystr) : pystr :=
  slice_to result sp.1.1 ++ sp.2 ++ slice_from result sp.1.2.

(** Spans in ascending order, one after the other, from [cursor] on and
    within a text of length [len]. *)
Fixpoint chain (len cursor : Z) (spans : list (Z * Z * pystr)) : Prop :=
  match spans with
  | [] => 0 <= cursor <= len
  | (st, en, _) :: rest => 0 <= cursor <= st /\ st < en /\ chain len en rest
  end.

Definition span_growth (i : Z) (sp : Z * Z * pystr) : Z :=
  if sp.1.2 <=? i then Z.of_nat (length sp.2) - (sp.1.2 - sp.1.1) else 0.

(** The character at offset [j] is in the set. *)
Definition set_at `{Unicode} (ic : bool) (s : pystr)
    (items : list cset_item) (j : nat) : bool :=
  match s !! j with Some c => set_match ic items c | None => false end.

(** What the rewriter reads of an entity: the flag, the first position and
    the replacement. *)
Definition same_rewrite_input (e e' : Entity) : Prop :=
  selected e = selected e' /\
  head (positions e) = head (positions e') /\
  replacement e = replacement e'.

(** Keyed elements that agree on the key and are related on the rest. *)
Definition same_keyed {A} (R : A -> A -> Prop) (p p' : Z * A) : Prop :=
  p.1 = p'.1 /\ R p.2 p'.2.

(** ** Notions for the NER adapter *)

Instance entity_type_eq_dec : EqDecision EntityType.t.
Proof. solve_decision. Defined.

(** The number of spans of [doc.ents] with the given label. *)
Definition count_label (lbl : string) (spans : list Span) : nat :=
  length (filter (fun sp => label_ sp = lit lbl) spans).

(** [f"Personne {chr(64 + n)}"] and [f"Organisation {chr(64 + n)}"] *)
Definition person_name (n : Z) : pystr := lit "Personne " ++ [Z.to_N (64 + n)].

Definition organisation_name (n : Z) : pystr :=
  lit "Organisation " ++ [Z.to_N (64 + n)].

(** The fields that every entity of the adapter has. *)
Definition ner_entity_ok (e : Entity) : Prop :=
  source e = EntitySource.NER /\ selected e = true /\
  (exists pos, positions e = [pos]) /\
  (type e = EntityType.PERSON \/ type e = EntityType.ORGANIZATION).

(** Identifiers that are pairwise different. *)
Definition counter_ids (n : nat) : pystr := [N.of_nat n].

(** ** Notions for the pattern extractor *)

(** The least number of characters that a match of [r] consumes. *)
Fixpoint min_len (r : regex) : nat :=
  match r with
  | REmpty | RBoundary => 0
  | RChar _ | RSet _ => 1
  | RSeq r1 r2 => min_len r1 + min_len r2
  | RAlt r1 r2 => Nat.min (min_len r1) (min_len r2)
  | RRepeat lo _ r' => lo * min_len r'
  end.

(** The rules of [extract_entities]: type, replacement, [re.IGNORECASE]
    flag and pattern, in the order of the loops. *)
Definition pattern_rules : list (EntityType.t * pystr * bool * regex) :=
  ((fun r => (EntityType.PHONE, _generate_phone_replacement, false, r))
     <$> phone_patterns)
  ++ [ (EntityType.EMAIL, lit "[email.anonymise@exemple.fr]", false,
        email_pattern);
       (EntityType.SIRET, lit "[SIRET Anonymisé]", false, siret_pattern);
       (EntityType.SSN, lit "[N° Sécurité Sociale Anonymisé]", false,
        ssn_pattern) ]
  ++ ((fun r => (EntityType.ADDRESS, lit "[Adresse Anonymisée]", true, r))
        <$> address_patterns)
  ++ ((fun r => (EntityType.LEGAL, lit "[Référence Anonymisée]", true, r))
        <$> legal_patterns).

(** [e] is the entity built for a match of one of the rules. *)
Definition from_rule `{Unicode} (ids : nat -> pystr) (s : pystr) (e : Entity)
  : Prop :=
  exists ty repl ic r m n,
    (ty, repl, ic, r) ∈ pattern_rules /\
    m ∈ finditer ic s r /\
    e = regex_entity ids n s ty repl m.

(** Matches in ascending order that do not overlap. *)
Definition match_before (m m' : nat * nat) : Prop :=
  (m.2 <= m'.1)%nat /\ (m.1 < m'.1)%nat.

(** A character that some rule needs: every pattern asks for a decimal
    digit or for the at sign. *)
Definition is_anchor `{Unicode} (c : N) : bool := is_digit c || (c =? 64)%N.

Definition anchor_item (ic : bool) (it : cset_item) : bool :=
  match it with
  | CDigit => true
  | CLit p => negb ic && (in_range 48 57 p || (p =? 64)%N)
  | CRange lo hi => negb ic && (48 <=? lo)%N && (hi <=? 57)%N
  | CSpace => false
  end.

(** [anchored ic r]: every match of [r] consumes a digit or an at sign. *)
Fixpoint anchored (ic : bool) (r : regex) : bool :=
  match r with
  | REmpty | RBoundary => false
  | RChar p => anchor_item ic (CLit p)
  | RSet items => forallb (anchor_item ic) items
  | RSeq r1 r2 => anchored ic r1 || anchored ic r2
  | RAlt r1 r2 => anchored ic r1 && anchored ic r2
  | RRepeat lo _ r' => (1 <=? lo)%nat && anchored ic r'
  end.

(** The entities [new] of the loops over the patterns [rs]: each comes from
    a match of one of them, and each match of each of them has its entity. *)
Definition stage `{Unicode} (ids : nat -> pystr) (s : pystr) (ic : bool)
    (ty : EntityType.t) (repl : pystr) (rs : list regex) (new : list Entity)
  : Prop :=
  Forall (fun e => exists r m n, r ∈ rs /\ m ∈ finditer ic s r /\
                     e = regex_entity ids n s ty repl m) new /\
  (forall r m, r ∈ rs -> m ∈ finditer ic s r ->
     exists n, regex_entity ids n s ty repl m ∈ new).

(** The replacement of each type of pattern entity. *)
Definition pattern_replacements : list (EntityType.t * pystr) :=
  [ (EntityType.PHONE, lit "06 XX XX XX XX");
    (EntityType.EMAIL, lit "[email.anonymise@exemple.fr]");
    (EntityType.SIRET, lit "[SIRET Anonymisé]");
    (EntityType.SSN, lit "[N° Sécurité Sociale Anonymisé]");
    (EntityType.ADDRESS, lit "[Adresse Anonymisée]");
    (EntityType.LEGAL, lit "[Référence Anonymisée]") ].

(** What holds of every entity of the pattern extractor on the text [s]. *)
Definition pattern_entity_ok (s : pystr) (e : Entity) : Prop :=
  exists a b : Z,
    positions e = [ {| start := a; end_ := b |} ] /\
    0 <= a < b /\ b <= Z.of_nat (length s) /\
    text e = slice s a b /\
    source e = EntitySource.REGEX /\
    confidence e = 1%float /\
    selected e = true /\
    (type e, replacement e) ∈ pattern_replacements.

(** Entities in ascending order of their spans, without overlap. *)
Definition span_before (e e' : Entity) : Prop :=
  end_ (first_pos e) <= start (first_pos e') /\
  start (first_pos e) < start (first_pos e').

(** ** Notions for the social security rule *)

(** Offset [i] starts a run of 13 digits, the first of them [1] or [2],
    with a word boundary at both ends. *)
Definition ssn_run `{Unicode} (s : pystr) (i : nat) : bool :=
  at_boundary s i
  && match s !! i with
     | Some c => (c =? 49)%N || (c =? 50)%N
     | None => false
     end
  && digits_from s (S i) 12
  && at_boundary s (i + 13).

(** The entity that the SSN loop emits for the match at offset [i]. *)
Definition ssn_emitted (entities : list Entity) (s : pystr) (i : nat)
  : Prop :=
  exists e, e ∈ entities /\
    type e = EntityType.SSN /\
    text e = group s (i, i + 13)%nat /\
    positions e = [ {| start := Z.of_nat i; end_ := Z.of_nat (i + 13) |} ] /\
    replacement e = lit "[N° Sécurité Sociale Anonymisé]".

(** ** Further sample values *)

(** The phone entity of the scenario, not selected. *)
Definition unselected_phone : Entity :=
  {| id := sample_ids 0;
     text := lit "06.12.34.56.78";
     type := EntityType.PHONE;
     source := EntitySource.REGEX;
     confidence := 1%float;
     replacement := lit "06 XX XX XX XX";
     positions := [ {| start := 17; end_ := 31 |} ];
     selected := false |}.

(** The phone entity of the scenario, replaced by its own text. *)
Definition unchanged_phone : Entity :=
  {| id := sample_ids 0;
     text := lit "06.12.34.56.78";
     type := EntityType.PHONE;
     source := EntitySource.MANUAL;
     confidence := 1%float;
     replacement := lit "06.12.34.56.78";
     positions := [ {| start := 17; end_ := 31 |} ];
     selected := true |}.

(** The service after 1,114,047 persons: [chr] has no character left. *)
Definition exhausted_service : NERService :=
  {| person_counter := 1114048; org_counter := 1 |}.

(** ** The key of the deduplicator as the specification words it *)

(** [(text, start, end)] of the first position. *)
Definition triple (e : Entity) : pystr * Z * Z :=
  (text e, start (first_pos e), end_ (first_pos e)).

(** An entity is kept when no entity before it in the list has the same
    text, start and end. *)
Definition first_for_triple (l : list Entity) (i : nat) (e : Entity) : bool :=
  bool_decide (triple e ∉ triple <$> take i l).

Definition keep_first_triple (l : list Entity) : list Entity :=
  omap (fun x => x)
       (imap (fun i e => if first_for_triple l i e then Some e else None) l).

(** ** Sample values for the deduplicator and the requests *)

(** The phone number of the scenario once more, further on in a text. *)
Definition second_phone : Entity :=
  {| id := sample_ids 3;
     text := lit "06.12.34.56.78";
     type := EntityType.PHONE;
     source := EntitySource.REGEX;
     confidence := 1%float;
     replacement := lit "06 XX XX XX XX";
     positions := [ {| start := 60; end_ := 74 |} ];
     selected := true |}.

(** A request on an address that both address patterns match, in advanced
    mode, and the response to it when no model is loaded. *)
Definition address_request : DocumentRequest :=
  {| content := lit "75001 rue Victor";
     filename := lit "adresse.txt";
     mode := ProcessingMode.ADVANCED;
     ollama_config := None |}.

Definition address_entity : Entity :=
  {| id := sample_ids 0;
     text := lit "75001 rue Victor";
     type := EntityType.ADDRESS;
     source := EntitySource.REGEX;
     confidence := 1%float;
     replacement := lit "[Adresse Anonymisée]";
     positions := [ {| start := 0; end_ := 16 |} ];
     selected := true |}.

Definition address_response : ProcessingResponse :=
  {| entities := [address_entity];
     processing_time := 0%float;
     mode_used := ProcessingMode.ADVANCED;
     total_occurrences := 1;
     spacy_available := false;
     ollama_available := false |}.

(** A model that takes the first word of every text for a person and the
    characters 35 to 50, the e-mail address of the scenario, for an
    organisation. *)
Definition scenario_model : Spacy :=
  {| nlp := Some (fun _ =>
       [ {| span_text := lit "Contactez";
            label_ := lit "PER";
            start_char := 0;
            end_char := 9;
            span_confidence := None |};
         {| span_text := lit "jean@exemple.fr";
            label_ := lit "ORG";
            start_char := 35;
            end_char := 50;
            span_confidence := None |} ]);
     round2 := fun x => x |}.

Definition scenario_advanced_request : DocumentRequest :=
  {| content := scenario_text;
     filename := lit "contact.txt";
     mode := ProcessingMode.ADVANCED;
     ollama_config := None |}.

(** The two entities built from the spans of that model, after the two
    pattern entities of the scenario. *)
Definition scenario_contact : Entity :=
  {| id := sample_ids 2;
     text := lit "Contactez";
     type := EntityType.PERSON;
     source := EntitySource.NER;
     confidence := 0.9%float;
     replacement := lit "Personne A";
     positions := [ {| start := 0; end_ := 9 |} ];
     selected := true |}.

Definition scenario_org : Entity :=
  {| id := sample_ids 3;
     text := lit "jean@exemple.fr";
     type := EntityType.ORGANIZATION;
     source := EntitySource.NER;
     confidence := 0.85%float;
     replacement := lit "Organisation A";
     positions := [ {| start := 35; end_ := 50 |} ];
     selected := true |}.

(** * Properties *)

Example luhn_valid : @luhn_check ascii_only (lit "73282932000074") = Some true.
Proof. reflexivity. Qed.
Example luhn_invalid : @luhn_check ascii_only (lit "12345678901234") = Some false.
Proof. reflexivity. Qed.
Example luhn_tot : luhn_total [7;3;2;8;2;9;3;2;0;0;0;0;7;4]%N = 50%N.
Proof. reflexivity. Qed.

(** ** The checksum validator *)

Section Luhn.
Context `{Unicode}.

Lemma py_int_char_digit (d : N) :
  (d < 10)%N -> py_int_char (48 + d) = Some d.
Proof.
  intros Hd. unfold py_int_char, is_ascii, in_range.
  replace (48 + d <? 128)%N with true by (symmetry; apply N.ltb_lt; lia).
  replace (48 <=? 48 + d)%N with true by (symmetry; apply N.leb_le; lia).
  replace (48 + d <=? 57)%N with true by (symmetry; apply N.leb_le; lia).
  simpl. f_equal. lia.
Qed.

Lemma digit_sum_0 fuel : digit_sum fuel 0 = 0%N.
Proof.
  induction fuel as [|fuel IH]; cbn [digit_sum]; [done|].
  rewrite N.Div0.div_0_l, IH. done.
Qed.

Lemma digit_sum_small fuel (n : N) :
  (n < 10)%N -> digit_sum (S fuel) n = n.
Proof.
  intros Hn. cbn [digit_sum]. rewrite N.div_small, digit_sum_0 by done.
  rewrite N.mod_small by done. lia.
Qed.

Lemma digits_of_cons (c : N) (s : pystr) (d : N) (ds : list N) :
  py_int_char c = Some d -> digits_of s = Some ds ->
  digits_of (c :: s) = Some (d :: ds).
Proof. unfold digits_of. intros Hc Hs. simpl. by rewrite Hc, Hs. Qed.

(** [str] followed by [int] on each character yields digits whose sum is
    the digit sum. *)
Lemma py_str_aux_digits fuel : forall (n : N) (acc : pystr) (accd : list N),
  (N.to_nat n <= fuel)%nat ->
  digits_of acc = Some accd ->
  exists ds, digits_of (py_str_aux fuel n acc) = Some ds /\
             sumN ds = (digit_sum (S fuel) n + sumN accd)%N.
Proof.
  induction fuel as [|fuel IH]; intros n acc accd Hn Hacc.
  - assert (n = 0%N) as -> by lia. simpl.
    exists (0%N :: accd). split; [|done].
    by apply (digits_of_cons 48%N).
  - assert (n mod 10 < 10)%N as Hmod by (apply N.mod_lt; lia).
    cbn [py_str_aux]. destruct (N.ltb_spec n 10) as [Hlt|Hge].
    + exists (n mod 10 :: accd)%N. split.
      * apply digits_of_cons; [by apply py_int_char_digit|done].
      * rewrite digit_sum_small by done. simpl.
        rewrite N.mod_small by done. done.
    + assert (n / 10 < n)%N as Hdiv by (apply N.div_lt; lia).
      destruct (IH (n / 10)%N ((48 + n mod 10)%N :: acc) (n mod 10 :: accd)%N)
        as (ds & Hds & Hsum).
      * lia.
      * apply digits_of_cons; [by apply py_int_char_digit|done].
      * exists ds. split; [done|]. rewrite Hsum.
        change (digit_sum (S (S fuel)) n)
          with (n mod 10 + digit_sum (S fuel) (n / 10))%N.
        simpl sumN. lia.
Qed.

Lemma digits_of_py_str (n : N) :
  exists ds, digits_of (py_str n) = Some ds /\
             sumN ds = digit_sum (S (N.to_nat n)) n.
Proof.
  destruct (py_str_aux_digits (N.to_nat n) n [] []) as (ds & Hds & Hsum);
    [done..|].
  exists ds. split; [done|]. rewrite Hsum. simpl. lia.
Qed.

Lemma luhn_term_even (pos : nat) (d : N) :
  Nat.odd pos = false ->
  luhn_term pos d = digit_sum (S (N.to_nat (2 * d))) (2 * d).
Proof.
  intros Hpos. unfold luhn_term. rewrite Hpos.
  destruct (N.ltb_spec 9 (2 * d)) as [?|Hle]; [done|].
  rewrite digit_sum_small by lia. done.
Qed.

Lemma luhn_even_loop (even_digits : list N) : forall c0 : N,
  foldl (fun acc d => checksum ← acc;
                      ds ← digits_of (py_str (d * 2)%N);
                      Some (checksum + sumN ds)%N)
        (Some c0) even_digits
  = Some (c0 + sumN (doubled <$> even_digits))%N.
Proof.
  induction even_digits as [|d l IH]; intros c0; cbn [foldl].
  - simpl. f_equal. lia.
  - destruct (digits_of_py_str (d * 2)) as (ds & Hds & Hsum).
    cbn [mbind option_bind]. rewrite Hds. cbn [mbind option_bind].
    rewrite IH. f_equal. cbn [fmap list_fmap sumN foldr].
    fold (sumN (doubled <$> l)). rewrite Hsum. unfold doubled.
    replace (2 * d)%N with (d * 2)%N by lia. lia.
Qed.

Lemma slice_last_step2 {A} (l : list A) :
  slice_step_m2 l (-1) = every_other (reverse l).
Proof.
  unfold slice_step_m2. destruct l as [|x l]; [done|].
  cbn zeta. set (len := Z.of_nat (length (x :: l))).
  assert (0 < len) by (subst len; simpl; lia).
  replace (-1 <? 0) with true by done.
  destruct (Z.ltb_spec (-1 + len) 0); [lia|].
  destruct (Z.leb_spec len (-1 + len)); [lia|].
  rewrite firstn_all2; [done|]. subst len. lia.
Qed.

Lemma slice_before_last_step2 {A} (l : list A) :
  slice_step_m2 l (-2) = every_other (drop 1 (reverse l)).
Proof.
  unfold slice_step_m2. cbn zeta. set (len := Z.of_nat (length l)).
  replace (-2 <? 0) with true by done.
  destruct (Z.ltb_spec (-2 + len) 0).
  - simpl. replace (drop 1 (reverse l)) with (@nil A); [done|].
    symmetry. apply drop_ge. rewrite length_reverse. lia.
  - destruct (Z.leb_spec len (-2 + len)); [lia|].
    rewrite reverse_take. do 2 f_equal. lia.
Qed.

Lemma odd_succ_even (k : nat) : Nat.odd k = false -> Nat.odd (S k) = true.
Proof. intros Hk. by rewrite Nat.odd_succ, <-Nat.negb_odd, Hk. Qed.

(** The positional sum splits into the digits at odd positions and the
    doubled digits at even positions. *)
Lemma luhn_positions (n : nat) : forall (r : list N) (k : nat),
  (length r <= n)%nat -> Nat.odd k = false ->
  sumN (imap (fun i d => luhn_term (S (k + i)) d) r)
  = (sumN (every_other r) + sumN (doubled <$> every_other (drop 1 r)))%N.
Proof.
  induction n as [|n IH]; intros r k Hlen Hk.
  - destruct r; [done|simpl in Hlen; lia].
  - destruct r as [|x [|y r]]; [done| |].
    + simpl. unfold luhn_term. rewrite Nat.add_0_r, (odd_succ_even k Hk). lia.
    + rewrite !imap_cons. cbn [every_other drop fmap list_fmap sumN foldr].
      unfold luhn_term at 1. rewrite Nat.add_0_r, (odd_succ_even k Hk).
      unfold compose. cbv beta.
      rewrite (luhn_term_even (S (k + 1)))
        by (rewrite Nat.add_1_r, Nat.odd_succ, Nat.even_succ; done).
      fold (doubled y).
      rewrite (imap_ext _ (fun i d => luhn_term (S (S (S k) + i)) d)).
      2:{ intros i d _. simpl. do 2 f_equal. lia. }
      fold (sumN (imap (fun i d => luhn_term (S (S (S k) + i)) d) r)).
      rewrite (IH r (S (S k))).
      * unfold sumN. destruct r as [|z r].
        { cbn [drop every_other fmap list_fmap foldr]. lia. }
        rewrite skipn_cons, drop_0. lia.
      * simpl in Hlen. lia.
      * by rewrite !Nat.odd_succ, Nat.even_succ.
Qed.

Lemma luhn_checksum_total (number : pystr) (digits : list N) :
  digits_of number = Some digits ->
  luhn_checksum number = Some (luhn_total digits mod 10)%N.
Proof.
  intros Hd. unfold luhn_checksum. rewrite Hd. simpl.
  rewrite luhn_even_loop. simpl. do 2 f_equal.
  rewrite slice_last_step2, slice_before_last_step2.
  unfold luhn_total. symmetry.
  apply (luhn_positions (length (reverse digits)) (reverse digits) 0); done.
Qed.

Lemma numeric_digits_of (number : pystr) :
  Forall (fun c => is_digit c = true) number ->
  exists digits, digits_of number = Some digits.
Proof.
  intros Hnum. apply (mapM_is_Some_2 py_int_char).
  eapply Forall_impl; [apply Hnum|]. intros c Hc. unfold is_digit in Hc.
  simpl. destruct (py_int_char c); [by eexists|done].
Qed.


End Luhn.


(** ** The entity deduplicator *)

Lemma entity_key_is_Some (e : Entity) :
  has_position e -> is_Some (entity_key e).
Proof.
  unfold has_position, entity_key. destruct (positions e); [done|].
  intros _. by eexists.
Qed.

Lemma keep_first_snoc (l : list Entity) (e : Entity) :
  keep_first (l ++ [e])
  = keep_first l
      ++ (if decide (entity_key e ∈ entity_key <$> l) then [] else [e]).
Proof.
  unfold keep_first. rewrite imap_app, omap_app. f_equal.
  - f_equal. apply imap_ext. intros i x Hi. unfold first_for_key.
    rewrite take_app_le; [done|]. apply lookup_lt_Some in Hi. lia.
  - simpl. unfold first_for_key. rewrite Nat.add_0_r, take_app_length.
    rewrite bool_decide_decide. by destruct (decide _); destruct (decide _).
Qed.

Lemma keep_first_nil : keep_first [] = [].
Proof. done. Qed.

Lemma keep_first_keys (l : list Entity) : forall e : Entity,
  e ∈ l -> entity_key e ∈ entity_key <$> keep_first l.
Proof.
  induction l as [|x l IH] using rev_ind; intros e;
    [by intros ?%elem_of_nil|].
  rewrite keep_first_snoc, fmap_app. intros [He|He]%elem_of_app.
  - apply elem_of_app. left. by apply IH.
  - apply list_elem_of_singleton in He as ->. apply elem_of_app.
    destruct (decide _) as [Hin|Hnin].
    + left. apply list_elem_of_fmap in Hin as (y & Hy & Hin).
      rewrite Hy. by apply IH.
    + right. simpl. by left.
Qed.

Lemma keep_first_subseteq (l : list Entity) : keep_first l ⊆ l.
Proof.
  induction l as [|x l IH] using rev_ind; [done|].
  rewrite keep_first_snoc. destruct (decide _); set_solver.
Qed.

Lemma keep_first_sublist (l : list Entity) : keep_first l `sublist_of` l.
Proof.
  induction l as [|x l IH] using rev_ind; [done|].
  rewrite keep_first_snoc. destruct (decide _).
  - rewrite app_nil_r. by apply sublist_inserts_r.
  - by apply sublist_app.
Qed.

Lemma keep_first_NoDup (l : list Entity) :
  NoDup (entity_key <$> keep_first l).
Proof.
  induction l as [|x l IH] using rev_ind; [constructor|].
  rewrite keep_first_snoc. destruct (decide _) as [Hin|Hnin].
  - by rewrite app_nil_r.
  - rewrite fmap_app. apply NoDup_app. split; [done|]. split.
    + intros k Hk [->|[]%elem_of_nil]%elem_of_cons. apply Hnin.
      apply list_elem_of_fmap in Hk as (y & -> & Hy).
      apply list_elem_of_fmap. exists y. split; [done|].
      by apply keep_first_subseteq.
    + apply NoDup_singleton.
Qed.

Lemma keep_first_id (l : list Entity) :
  NoDup (entity_key <$> l) -> keep_first l = l.
Proof.
  induction l as [|x l IH] using rev_ind; [done|].
  rewrite fmap_app. intros (Hl & Hx & _)%NoDup_app.
  rewrite keep_first_snoc, IH by done. destruct (decide _) as [Hin|]; [|done].
  exfalso. apply (Hx _ Hin). simpl. by left.
Qed.

(** The state of the loop after the entities of [l]. *)
Lemma dedup_loop (l : list Entity) :
  Forall has_position l ->
  foldl dedup_step (Some ([], ∅)) l
  = Some (keep_first l, list_to_set (omap entity_key l)).
Proof.
  induction l as [|x l IH] using rev_ind; [done|].
  intros [Hl Hx]%Forall_app. apply Forall_inv in Hx.
  rewrite foldl_snoc, IH by done. unfold dedup_step. simpl.
  destruct (entity_key_is_Some x Hx) as [k Hk]. rewrite Hk. simpl.
  rewrite keep_first_snoc, omap_app, Hk.
  assert (omap entity_key [x] = [k]) as ->
    by (change (omap entity_key [x])
          with (match entity_key x with Some y => [y] | None => [] end);
        by rewrite Hk).
  assert (k ∈ (list_to_set (omap entity_key l) : gset (pystr * Z * Z))
          <-> Some k ∈ entity_key <$> l) as Hmem.
  { rewrite elem_of_list_to_set, list_elem_of_omap, list_elem_of_fmap.
    split; intros (y & ? & ?); exists y; done. }
  destruct (decide (k ∈ _)) as [Hin|Hnin].
  - destruct (decide (Some k ∈ _)) as [|Hn]; [|by destruct Hn; apply Hmem].
    rewrite app_nil_r. do 2 f_equal.
    rewrite list_to_set_app_L. set_solver.
  - destruct (decide (Some k ∈ _)) as [Hi|]; [by destruct Hnin; apply Hmem|].
    do 2 f_equal. rewrite list_to_set_app_L. set_solver.
Qed.

Lemma deduplicate_keep_first (l : list Entity) :
  Forall has_position l -> deduplicate l = Some (keep_first l).
Proof. intros Hl. unfold deduplicate. by rewrite dedup_loop. Qed.

Lemma dedup_loop_None (l : list Entity) :
  foldl dedup_step None l = None.
Proof. induction l as [|x l IH]; [done|]. simpl. apply IH. Qed.

(** The loop only completes when every entity has a first position. *)
Lemma deduplicate_Some_positions (l out : list Entity) :
  deduplicate l = Some out -> Forall has_position l.
Proof.
  unfold deduplicate. generalize (Some ([], ∅) : option (list Entity * gset (pystr * Z * Z))).
  induction l as [|x l IH]; intros st Hst; [constructor|].
  simpl in Hst. constructor; [|by eapply IH].
  unfold has_position. intros Hpos.
  unfold dedup_step at 2 in Hst. unfold entity_key in Hst.
  rewrite Hpos in Hst. destruct st; simpl in Hst;
    by rewrite dedup_loop_None in Hst.
Qed.

(** The key of the loop is the triple of the specification. *)
Lemma entity_key_triple (e : Entity) :
  has_position e -> entity_key e = Some (triple e).
Proof.
  unfold has_position, entity_key, triple, first_pos.
  by destruct (positions e).
Qed.

Lemma entity_keys_triples (l : list Entity) :
  Forall has_position l -> entity_key <$> l = Some <$> (triple <$> l).
Proof.
  induction 1 as [|e l He _ IH]; [done|].
  cbn [fmap list_fmap]. rewrite (entity_key_triple e He). f_equal. exact IH.
Qed.

Lemma same_key_same_triple (l : list Entity) (e : Entity) :
  Forall has_position l -> has_position e ->
  entity_key e ∈ entity_key <$> l <-> triple e ∈ triple <$> l.
Proof.
  intros Hl He. rewrite (entity_key_triple e He), (entity_keys_triples l Hl).
  apply (list_elem_of_fmap_inj Some).
Qed.

Lemma NoDup_keys_triples (l : list Entity) :
  Forall has_position l ->
  NoDup (entity_key <$> l) <-> NoDup (triple <$> l).
Proof.
  intros Hl. rewrite (entity_keys_triples l Hl). apply (NoDup_fmap Some).
Qed.

Lemma keep_first_triple_eq (l : list Entity) :
  Forall has_position l -> keep_first l = keep_first_triple l.
Proof.
  intros Hl. unfold keep_first, keep_first_triple. f_equal.
  apply imap_ext. intros i e Hi. cbv beta.
  assert (first_for_key l i e = first_for_triple l i e) as ->; [|done].
  unfold first_for_key, first_for_triple. apply bool_decide_ext.
  rewrite same_key_same_triple; [done|by apply Forall_take|].
  rewrite Forall_forall in Hl. by eapply Hl, list_elem_of_lookup_2.
Qed.

Lemma keep_first_positions (l : list Entity) :
  Forall has_position l -> Forall has_position (keep_first l).
Proof.
  intros Hl. apply Forall_forall. intros e He%keep_first_subseteq.
  rewrite Forall_forall in Hl. by apply Hl.
Qed.

(** C4: the deduplicator keys entities by [(text, start, end)] of the first
    position, keeps the first entity of each key and keeps the emission
    order (pattern results before model results): an entity survives
    exactly when no entity before it has the same text, start and end; no
    two survivors have the same text, start and end, and the text, start
    and end of every entity of the input are those of a survivor. *)
Theorem deduplicate_first_per_key (regex_entities ner_entities : list Entity) :
  Forall has_position (regex_entities ++ ner_entities) ->
  exists unique_entities,
    deduplicate (regex_entities ++ ner_entities) = Some unique_entities /\
    unique_entities = keep_first_triple (regex_entities ++ ner_entities) /\
    unique_entities `sublist_of` (regex_entities ++ ner_entities) /\
    NoDup ((fun e => (text e, start (first_pos e), end_ (first_pos e)))
             <$> unique_entities) /\
    (forall e, e ∈ regex_entities ++ ner_entities ->
       exists e', e' ∈ unique_entities /\
         text e' = text e /\
         start (first_pos e') = start (first_pos e) /\
         end_ (first_pos e') = end_ (first_pos e)).
Proof.
  intros Hpos. exists (keep_first (regex_entities ++ ner_entities)).
  pose proof (keep_first_positions _ Hpos) as Hpos'.
  split; [by apply deduplicate_keep_first|].
  split; [by apply keep_first_triple_eq|].
  split; [apply keep_first_sublist|]. split.
  - apply (NoDup_keys_triples _ Hpos'), keep_first_NoDup.
  - intros e He.
    assert (has_position e) as Hpe.
    { rewrite Forall_forall in Hpos. by apply Hpos. }
    pose proof (keep_first_keys _ e He) as Hkey.
    apply (same_key_same_triple _ e Hpos' Hpe) in Hkey.
    apply list_elem_of_fmap in Hkey as (e' & Heq & He').
    exists e'. split; [done|]. unfold triple in Heq. by injection Heq.
Qed.

(** C8: deduplicating the output of the deduplicator gives the same list
    again. *)
Theorem deduplicate_idempotent (l unique_entities : list Entity) :
  deduplicate l = Some unique_entities ->
  deduplicate unique_entities = Some unique_entities.
Proof.
  intros Hd. pose proof (deduplicate_Some_positions _ _ Hd) as Hpos.
  rewrite deduplicate_keep_first in Hd by done.
  injection Hd as <-.
  rewrite deduplicate_keep_first.
  - f_equal. apply keep_first_id, keep_first_NoDup.
  - eapply Forall_forall. intros e He.
    eapply Forall_forall in Hpos; [done|]. by apply keep_first_subseteq.
Qed.

(** ** Sorting by descending key *)

Section Sorting.
Context {A : Type}.

Lemma insert_desc_Permutation (x : Z * A) (l : list (Z * A)) :
  insert_desc x l ≡ₚ x :: l.
Proof.
  induction l as [|y l IH]; simpl; [done|].
  destruct (x.1 <? y.1); [|done]. rewrite IH. apply Permutation_swap.
Qed.

Lemma insert_desc_sorted (x : Z * A) (l : list (Z * A)) :
  StronglySorted desc l -> StronglySorted desc (insert_desc x l).
Proof.
  induction l as [|y l IH]; simpl; intros Hs.
  - repeat constructor.
  - apply StronglySorted_inv in Hs as [Hl Hy].
    destruct (Z.ltb_spec x.1 y.1) as [Hlt|Hge].
    + constructor; [by apply IH|].
      rewrite insert_desc_Permutation. constructor; [|done].
      unfold desc. lia.
    + constructor; [by constructor|]. constructor; [done|].
      eapply Forall_impl; [apply Hy|]. unfold desc. intros z Hz. lia.
Qed.

Lemma sort_desc_Permutation (l : list (Z * A)) :
  foldr insert_desc [] l ≡ₚ l.
Proof.
  induction l as [|x l IH]; simpl; [done|].
  by rewrite insert_desc_Permutation, IH.
Qed.

Lemma sort_desc_sorted (l : list (Z * A)) :
  StronglySorted desc (foldr insert_desc [] l).
Proof.
  induction l as [|x l IH]; simpl; [constructor|].
  by apply insert_desc_sorted.
Qed.

Lemma sorted_snd (k : A -> Z) (ps : list (Z * A)) :
  Forall (fun p => p.1 = k p.2) ps ->
  StronglySorted desc ps ->
  StronglySorted (fun x y => k y <= k x) (ps.*2).
Proof.
  intros Hk Hs. induction Hs as [|p ps Hs IH Hp]; [constructor|].
  apply Forall_cons in Hk as [Hpk Hk]. simpl. constructor; [by apply IH|].
  rewrite Forall_fmap. rewrite Forall_forall in Hp, Hk.
  apply Forall_forall. intros q Hq. simpl.
  specialize (Hp q Hq). specialize (Hk q Hq). unfold desc in Hp. lia.
Qed.

(** [sorted] with a key that is defined on every element returns a
    permutation of its input in descending key order. *)
Lemma sorted_desc_spec (key : A -> option Z) (k : A -> Z) (l : list A) :
  (forall x, x ∈ l -> key x = Some (k x)) ->
  exists order,
    sorted_desc key l = Some order /\
    order ≡ₚ l /\
    StronglySorted (fun x y => k y <= k x) order.
Proof.
  intros Hkey. unfold sorted_desc.
  assert (mapM key l = Some (k <$> l)) as ->.
  { apply mapM_Some_2, Forall2_fmap_r, Forall_Forall2_diag, Forall_forall.
    intros x Hx. by apply Hkey. }
  simpl. eexists. split; [done|].
  rewrite zip_with_fmap_l, zip_with_diag.
  set (pairs := (fun x => (k x, x)) <$> l).
  assert (pairs.*2 = l) as Hsnd.
  { subst pairs. rewrite <-list_fmap_compose. apply list_fmap_id. }
  split.
  - rewrite sort_desc_Permutation. by rewrite Hsnd.
  - apply sorted_snd; [|apply sort_desc_sorted].
    rewrite sort_desc_Permutation. subst pairs.
    rewrite Forall_fmap. by apply Forall_forall.
Qed.

Lemma StronglySorted_reverse (R : relation A) (l : list A) :
  StronglySorted R l -> StronglySorted (flip R) (reverse l).
Proof.
  induction 1 as [|x l Hs IH Hx]; [constructor|].
  rewrite reverse_cons. apply StronglySorted_app.
  split; [|split; [done|repeat constructor]].
  intros y z Hy Hz. apply list_elem_of_singleton in Hz as ->.
  rewrite Forall_forall in Hx. apply Hx. by apply elem_of_reverse.
Qed.

Lemma pairwise_Permutation (R : A -> A -> Prop) (l l' : list A) :
  (forall x y, R x y -> R y x) ->
  l ≡ₚ l' -> pairwise R l -> pairwise R l'.
Proof.
  intros Hsym Hperm. induction Hperm as [|x l l' Hp IH|x y l|l l' l'' ? IH1 ? IH2].
  - done.
  - simpl. intros [Hx Hl]. split; [by rewrite <-Hp|by apply IH].
  - simpl. intros (Hy & Hx & Hl). apply Forall_cons in Hy as [Hyx Hy].
    split; [constructor; [by apply Hsym|done]|]. split; done.
  - intros Hl. by apply IH2, IH1.
Qed.

(** In a pairwise-related list two members are the same member or are
    related. *)
Lemma pairwise_elem_of (R : A -> A -> Prop) (l : list A) (x y : A) :
  (forall x y, R x y -> R y x) ->
  pairwise R l -> x ∈ l -> y ∈ l -> x = y \/ R x y.
Proof.
  intros Hsym. induction l as [|z l IH]; [by intros _ ?%elem_of_nil|].
  simpl. intros [Hz Hl]. rewrite Forall_forall in Hz.
  intros [->|Hx]%elem_of_cons [->|Hy]%elem_of_cons; auto.
Qed.

End Sorting.

Lemma sumZ_Permutation (l l' : list Z) : l ≡ₚ l' -> sumZ l = sumZ l'.
Proof.
  induction 1 as [|x l l' _ IH|x y l|l l' l'' _ IH1 _ IH2]; simpl; lia.
Qed.

Lemma sumZ_app (l l' : list Z) : sumZ (l ++ l') = sumZ l + sumZ l'.
Proof. induction l as [|x l IH]; simpl; lia. Qed.

(** ** The anonymization rewriter *)

Lemma slice_bound_range {A} (l : list A) (n : Z) :
  0 <= n <= Z.of_nat (length l) -> slice_bound l n = Z.to_nat n.
Proof.
  intros Hn. unfold slice_bound. destruct (Z.ltb_spec n 0); lia.
Qed.

Lemma chain_bounds (len : Z) (spans : list (Z * Z * pystr)) :
  forall cursor, chain len cursor spans -> 0 <= cursor <= len.
Proof.
  induction spans as [|[[st en] r] spans IH]; intros c; simpl; [done|].
  intros (Hc & Hlt & Hch). apply IH in Hch. lia.
Qed.

Lemma splice_entity (result : pystr) (e : Entity) :
  has_position e -> splice result e = Some (splice_span result (span e)).
Proof.
  unfold has_position, splice, splice_span, span, first_pos.
  destruct (positions e) as [|pos ps]; [done|]. done.
Qed.

Lemma foldl_splice (order : list Entity) : forall content : pystr,
  Forall has_position order ->
  foldl (fun result entity => result ← result; splice result entity)
        (Some content) order
  = Some (foldl splice_span content (span <$> order)).
Proof.
  induction order as [|e order IH]; intros content Hpos; [done|].
  apply Forall_cons in Hpos as [He Hpos]. cbn [foldl fmap list_fmap].
  cbn [mbind option_bind]. rewrite (splice_entity _ _ He). by apply IH.
Qed.

(** Splicing back to front builds the text of the specification. *)
Lemma splice_rewritten (content : pystr) (spans : list (Z * Z * pystr)) :
  forall cursor,
    chain (Z.of_nat (length content)) cursor spans ->
    foldl splice_span content (reverse spans)
    = take (Z.to_nat cursor) content ++ rewritten content cursor spans.
Proof.
  induction spans as [|[[st en] r] spans IH]; intros c Hc; simpl in Hc.
  - simpl. unfold slice_from. rewrite slice_bound_range by done.
    by rewrite take_drop.
  - destruct Hc as (Hc & Hlt & Hch).
    pose proof (chain_bounds _ _ _ Hch) as Hen.
    rewrite reverse_cons, foldl_snoc, (IH en Hch).
    unfold splice_span. cbn [fst snd rewritten].
    set (X := rewritten content en spans).
    assert (length (take (Z.to_nat en) content) = Z.to_nat en) as Hlen
      by (rewrite length_take; lia).
    unfold slice_to, slice_from, slice.
    rewrite !slice_bound_range by (rewrite ?length_app, ?Hlen; lia).
    rewrite take_app_le by lia. rewrite take_take.
    rewrite drop_app_length' by done.
    rewrite (app_assoc (take (Z.to_nat c) content)), take_take_drop.
    do 2 f_equal. lia.
Qed.

Lemma rewritten_length (content : pystr) (spans : list (Z * Z * pystr)) :
  forall cursor,
    chain (Z.of_nat (length content)) cursor spans ->
    Z.of_nat (length (rewritten content cursor spans))
    = Z.of_nat (length content) - cursor
      - sumZ ((fun sp => sp.1.2 - sp.1.1) <$> spans)
      + sumZ ((fun sp => Z.of_nat (length sp.2)) <$> spans).
Proof.
  induction spans as [|[[st en] r] spans IH]; intros c Hc; simpl in Hc.
  - simpl. unfold slice_from. rewrite slice_bound_range by done.
    rewrite length_drop. lia.
  - destruct Hc as (Hc & Hlt & Hch).
    pose proof (chain_bounds _ _ _ Hch) as Hen.
    cbn [rewritten fmap list_fmap sumZ foldr fst snd].
    rewrite !length_app, !Nat2Z.inj_add, (IH en Hch).
    unfold slice. rewrite !slice_bound_range by lia.
    rewrite length_take, length_drop. unfold sumZ. lia.
Qed.

Lemma span_growth_before (len i : Z) (spans : list (Z * Z * pystr)) :
  forall cursor,
    chain len cursor spans -> i < cursor ->
    sumZ (span_growth i <$> spans) = 0.
Proof.
  induction spans as [|[[st en] r] spans IH]; intros c Hc Hi; [done|].
  simpl in Hc. destruct Hc as (Hc & Hlt & Hch).
  cbn [fmap list_fmap sumZ foldr]. fold (sumZ (span_growth i <$> spans)).
  rewrite (IH en) by (done || lia). unfold span_growth. simpl.
  destruct (Z.leb_spec en i); lia.
Qed.

(** A character outside the spans is found again, moved by the growth of
    the spans before it. *)
Lemma rewritten_lookup (content : pystr) (spans : list (Z * Z * pystr)) (i : Z) :
  forall cursor,
    chain (Z.of_nat (length content)) cursor spans ->
    cursor <= i ->
    Forall (fun sp => i < sp.1.1 \/ sp.1.2 <= i) spans ->
    0 <= i - cursor + sumZ (span_growth i <$> spans) /\
    rewritten content cursor spans
      !! Z.to_nat (i - cursor + sumZ (span_growth i <$> spans))
    = content !! Z.to_nat i.
Proof.
  induction spans as [|[[st en] r] spans IH]; intros c Hc Hi Hout;
    simpl in Hc.
  - simpl. split; [lia|]. unfold slice_from.
    rewrite slice_bound_range by done. rewrite lookup_drop. f_equal. lia.
  - destruct Hc as (Hc & Hlt & Hch).
    pose proof (chain_bounds _ _ _ Hch) as Hen.
    apply Forall_cons in Hout as [Hsp Hout]. simpl in Hsp.
    cbn [fmap list_fmap sumZ foldr rewritten].
    fold (sumZ (span_growth i <$> spans)).
    assert (length (slice content c st) = Z.to_nat (st - c)) as Hlen.
    { unfold slice. rewrite !slice_bound_range by lia.
      rewrite length_take, length_drop. lia. }
    destruct Hsp as [Hbefore|Hafter].
    + rewrite (span_growth_before _ i spans en) by (done || lia).
      assert (span_growth i (st, en, r) = 0) as ->
        by (unfold span_growth; simpl; destruct (Z.leb_spec en i); lia).
      split; [lia|]. rewrite lookup_app_l by lia.
      unfold slice. rewrite !slice_bound_range by lia.
      rewrite lookup_take_lt by lia. rewrite lookup_drop. f_equal. lia.
    + destruct (IH en Hch Hafter Hout) as [Hpos Hlook].
      assert (span_growth i (st, en, r) = Z.of_nat (length r) - (en - st))
        as -> by (unfold span_growth; simpl; destruct (Z.leb_spec en i); lia).
      split; [lia|]. rewrite lookup_app_r by lia.
      rewrite lookup_app_r by lia. rewrite <-Hlook. f_equal. lia.
Qed.

Lemma first_start_position (e : Entity) :
  has_position e -> first_start e = Some (start (first_pos e)).
Proof.
  unfold has_position, first_start, first_pos.
  by destruct (positions e) as [|pos ps].
Qed.

Lemma disjoint_sym (e e' : Entity) : disjoint e e' -> disjoint e' e.
Proof. unfold disjoint. tauto. Qed.

Lemma chain_sorted (content : pystr) (asc : list Entity) :
  forall cursor,
    0 <= cursor <= Z.of_nat (length content) ->
    Forall (in_text content) asc ->
    pairwise disjoint asc ->
    StronglySorted
      (fun e e' => start (first_pos e) <= start (first_pos e')) asc ->
    Forall (fun e => cursor <= start (first_pos e)) asc ->
    chain (Z.of_nat (length content)) cursor (span <$> asc).
Proof.
  induction asc as [|e asc IH]; intros c Hc Hin Hpw Hs Hcur; [done|].
  apply Forall_cons in Hin as [(Hp & Hse & Hel) Hin].
  destruct Hpw as [Hd Hpw]. apply StronglySorted_inv in Hs as [Hs He].
  apply Forall_cons in Hcur as [Hce Hcur].
  cbn [fmap list_fmap]. unfold span at 1. cbn [chain].
  split; [lia|]. split; [lia|]. apply IH; [lia|done..|].
  rewrite Forall_forall in Hd, He, Hin. apply Forall_forall. intros e' He'.
  specialize (Hd e' He'). specialize (He e' He').
  destruct (Hin e' He') as (_ & ? & _). unfold disjoint in Hd. lia.
Qed.

(** Disjoint, non-empty spans in descending order are in strictly
    descending order. *)
Lemma sorted_strict (order : list Entity) :
  Forall (fun e => start (first_pos e) < end_ (first_pos e)) order ->
  pairwise disjoint order ->
  StronglySorted
    (fun e e' => start (first_pos e') <= start (first_pos e)) order ->
  StronglySorted
    (fun e e' => start (first_pos e') < start (first_pos e)) order.
Proof.
  induction order as [|e order IH]; intros Hne Hpw Hs; [constructor|].
  apply Forall_cons in Hne as [Hne_e Hne]. destruct Hpw as [Hd Hpw].
  apply StronglySorted_inv in Hs as [Hs He].
  constructor; [by apply IH|].
  rewrite Forall_forall in Hd, He, Hne. apply Forall_forall. intros e' He'.
  specialize (Hd e' He'). specialize (He e' He'). specialize (Hne e' He').
  unfold disjoint in Hd. lia.
Qed.

(** C1: with the selected first positions inside the text and pairwise
    disjoint, [apply_anonymization] keeps the selected entities, takes them
    in strictly descending order of [positions[0].start], and returns the
    original text with each of these spans replaced by its replacement;
    the length of the result is the length of the original minus the
    lengths of the spans plus the lengths of the replacements, and each
    character outside the spans is kept, moved by the growth of the spans
    before it. *)
Theorem apply_anonymization_correct (content : pystr) (entities : list Entity) :
  let sel := filter (fun e => selected e = true) entities in
  Forall (in_text content) sel ->
  pairwise disjoint sel ->
  exists order result,
    sorted_desc first_start sel = Some order /\
    order ≡ₚ sel /\
    StronglySorted
      (fun e e' => start (first_pos e') < start (first_pos e)) order /\
    foldl (fun result entity => result ← result; splice result entity)
          (Some content) order = Some result /\
    apply_anonymization content entities = Some result /\
    result = rewritten content 0 (span <$> reverse order) /\
    Z.of_nat (length result)
    = Z.of_nat (length content) - sumZ (matched_length <$> sel)
      + sumZ (replacement_length <$> sel) /\
    (forall i, 0 <= i < Z.of_nat (length content) -> outside sel i ->
       0 <= i + shift sel i /\
       result !! Z.to_nat (i + shift sel i) = content !! Z.to_nat i).
Proof.
  intros sel Hin Hpw.
  set (k := fun e => start (first_pos e)).
  destruct (sorted_desc_spec first_start k sel) as (order & Hsort & Hperm & Hs).
  { intros e He. apply first_start_position.
    rewrite Forall_forall in Hin. by destruct (Hin e He). }
  assert (Forall (in_text content) order) as Hin_o by (by rewrite Hperm).
  assert (pairwise disjoint order) as Hpw_o
    by (eapply pairwise_Permutation; [apply disjoint_sym| |done]; done).
  assert (chain (Z.of_nat (length content)) 0 (span <$> reverse order))
    as Hchain.
  { apply chain_sorted.
    - lia.
    - by rewrite reverse_Permutation.
    - eapply pairwise_Permutation; [apply disjoint_sym| |apply Hpw_o].
      by rewrite reverse_Permutation.
    - by apply (StronglySorted_reverse _ _ Hs).
    - rewrite reverse_Permutation. eapply Forall_impl; [apply Hin_o|].
      intros e (_ & ? & _). lia. }
  assert (foldl (fun result entity => result ← result; splice result entity)
            (Some content) order
          = Some (rewritten content 0 (span <$> reverse order))) as Hfold.
  { rewrite foldl_splice
      by (eapply Forall_impl; [apply Hin_o|]; by intros e [? _]).
    f_equal. rewrite <-(reverse_involutive (span <$> order)).
    rewrite <-fmap_reverse.
    by rewrite (splice_rewritten content (span <$> reverse order) 0 Hchain). }
  assert (reverse order ≡ₚ sel) as Hperm_r
    by (by rewrite reverse_Permutation).
  exists order, (rewritten content 0 (span <$> reverse order)).
  split; [done|]. split; [done|]. split.
  { apply sorted_strict; [|done..].
    eapply Forall_impl; [apply Hin_o|]. intros e (_ & ? & _). lia. }
  split; [done|]. split.
  { unfold apply_anonymization. fold sel. rewrite Hsort. exact Hfold. }
  split; [done|]. split.
  - rewrite (rewritten_length _ _ 0 Hchain).
    rewrite <-!list_fmap_compose.
    rewrite (sumZ_Permutation (_ <$> reverse order) (matched_length <$> sel))
      by (by rewrite Hperm_r).
    rewrite (sumZ_Permutation (_ <$> reverse order)
               (replacement_length <$> sel)) by (by rewrite Hperm_r).
    lia.
  - intros i Hi Hout.
    destruct (rewritten_lookup content (span <$> reverse order) i 0 Hchain)
      as [Hpos Hlook]; [lia| |].
    { rewrite Forall_fmap, Hperm_r. exact Hout. }
    assert (sumZ (span_growth i <$> (span <$> reverse order)) = shift sel i)
      as Hshift.
    { rewrite <-list_fmap_compose. unfold shift.
      apply sumZ_Permutation. by rewrite Hperm_r. }
    rewrite Hshift in Hpos, Hlook. rewrite Z.sub_0_r in Hpos, Hlook. done.
Qed.

(** C7: with pairwise disjoint selected spans the result does not depend
    on the order of the entity list. *)
Theorem apply_anonymization_order_independent
    (content : pystr) (entities entities' : list Entity) :
  entities ≡ₚ entities' ->
  Forall (fun e => has_position e /\
                   start (first_pos e) < end_ (first_pos e))
         (filter (fun e => selected e = true) entities) ->
  pairwise disjoint (filter (fun e => selected e = true) entities) ->
  exists result,
    apply_anonymization content entities = Some result /\
    apply_anonymization content entities' = Some result.
Proof.
  intros Hperm Hne Hpw.
  set (sel := filter (fun e => selected e = true) entities) in *.
  set (sel' := filter (fun e => selected e = true) entities').
  assert (sel ≡ₚ sel') as Hsel by (subst sel sel'; by rewrite Hperm).
  set (k := fun e => start (first_pos e)).
  assert (forall e, e ∈ sel -> first_start e = Some (k e)) as Hkey.
  { intros e He. apply first_start_position.
    rewrite Forall_forall in Hne. by destruct (Hne e He). }
  destruct (sorted_desc_spec first_start k sel Hkey)
    as (order & Hsort & Hpo & Hs).
  destruct (sorted_desc_spec first_start k sel')
    as (order' & Hsort' & Hpo' & Hs').
  { intros e He. apply Hkey. by rewrite Hsel. }
  assert (order = order') as <-.
  { apply (StronglySorted_unique_strong (fun x y => k y <= k x));
      [|done|done|by rewrite Hpo, Hpo'].
    intros x y Hx Hy Hxy Hyx. rewrite Hpo in Hx. rewrite Hpo', <-Hsel in Hy.
    destruct (pairwise_elem_of disjoint sel x y disjoint_sym Hpw Hx Hy)
      as [|Hd]; [done|].
    rewrite Forall_forall in Hne.
    destruct (Hne x Hx) as [_ ?]. destruct (Hne y Hy) as [_ ?].
    unfold disjoint in Hd. subst k. simpl in Hxy, Hyx. lia. }
  assert (Forall has_position order) as Hpos.
  { rewrite Hpo. eapply Forall_impl; [apply Hne|]. by intros e [? _]. }
  eexists. unfold apply_anonymization. fold sel sel'.
  rewrite Hsort, Hsort'. simpl. rewrite (foldl_splice _ _ Hpos). done.
Qed.

(** ** The matcher on a repeated character set *)

Section MatcherFacts.
Context `{Unicode} (ic : bool) (s : pystr).

Lemma rmatch_set (items : list cset_item) (k : nat -> option nat) (i : nat) :
  rmatch ic s (RSet items) k i
  = if set_at ic s items i then k (S i) else None.
Proof. unfold set_at. simpl. by destruct (s !! i). Qed.

(** [r{n}] on a character set: the next [n] characters are all in the set,
    there is nothing to backtrack into. *)
Lemma repeat_exact (items : list cset_item) (n : nat) (k : nat -> option nat) :
  forall m fuel count i,
    (count + m = n)%nat -> (m <= fuel)%nat ->
    repeat_loop (rmatch ic s (RSet items)) n (Some n) k fuel count i
    = if forallb (set_at ic s items) (seq i m) then k (i + m)%nat else None.
Proof.
  induction m as [|m IH]; intros fuel count i Hn Hfuel.
  - assert ((n <=? count)%nat = true) as Hle by (apply Nat.leb_le; lia).
    assert ((count <? n)%nat = false) as Hlt by (apply Nat.ltb_ge; lia).
    rewrite Nat.add_0_r. destruct fuel; simpl; rewrite Hle, ?Hlt; done.
  - destruct fuel as [|fuel]; [lia|].
    assert ((n <=? count)%nat = false) as Hle by (apply Nat.leb_gt; lia).
    assert ((count <? n)%nat = true) as Hlt by (apply Nat.ltb_lt; lia).
    cbn [repeat_loop]. rewrite Hle, Hlt, rmatch_set. cbn [andb seq forallb].
    destruct (set_at ic s items i); [|done]. cbn [andb].
    rewrite (IH fuel (S count) (S i)) by lia.
    replace (S i + m)%nat with (i + S m)%nat by lia.
    destruct (forallb _ _); [|done]. by destruct (k _).
Qed.

End MatcherFacts.

(** ** The SIRET detector *)

Section Siret.
Context `{Unicode}.

Lemma forallb_ext_all {A} (f g : A -> bool) (l : list A) :
  (forall x, f x = g x) -> forallb f l = forallb g l.
Proof. intros Hfg. induction l as [|x l IH]; simpl; [done|]. by rewrite Hfg, IH. Qed.

Lemma set_at_digit (s : pystr) (j : nat) :
  set_at false s [CDigit] j = digit_at s j.
Proof.
  unfold set_at, digit_at. destruct (s !! j); [|done]. simpl.
  apply orb_false_r.
Qed.

Lemma rmatch_siret (s : pystr) (i : nat) :
  rmatch false s siret_pattern Some i
  = if delimited_digit_run s i 14 then Some (i + 14)%nat else None.
Proof.
  unfold siret_pattern, delimited_digit_run, digits_from, rtimes, rdigit.
  cbn [rseq rmatch].
  pose proof (repeat_exact false s [CDigit] 14
                (fun j => if at_boundary s j then Some j else None)
                14 (14 + S (length s)) 0 i eq_refl ltac:(lia)) as Hrep.
  cbn [rmatch] in Hrep. rewrite Hrep. clear Hrep.
  rewrite (forallb_ext_all _ (digit_at s)) by apply set_at_digit.
  destruct (at_boundary s i); [|done]. cbn [andb].
  destruct (forallb _ _); [|done]. cbn [andb].
  by destruct (at_boundary s (i + 14)).
Qed.

Lemma digits_from_at (s : pystr) (i n j : nat) :
  digits_from s i n = true -> (i <= j < i + n)%nat -> digit_at s j = true.
Proof.
  unfold digits_from. rewrite forallb_forall. intros Hall Hj.
  apply Hall, in_seq. lia.
Qed.

Lemma digit_at_length (s : pystr) (j : nat) :
  digit_at s j = true -> (j < length s)%nat.
Proof.
  unfold digit_at. destruct (s !! j) eqn:Hj; [|done].
  intros _. by apply lookup_lt_Some in Hj.
Qed.

Lemma run_in_text (s : pystr) (i : nat) :
  delimited_digit_run s i 14 = true -> (i + 14 <= length s)%nat.
Proof.
  unfold delimited_digit_run. intros [[_ Hd]%andb_true_iff _]%andb_true_iff.
  pose proof (digit_at_length s (i + 13)
                (digits_from_at s i 14 (i + 13) Hd ltac:(lia))). lia.
Qed.

Lemma run_group_numeric (s : pystr) (i : nat) :
  delimited_digit_run s i 14 = true ->
  Forall (fun c => is_digit c = true) (group s (i, i + 14)%nat).
Proof.
  unfold delimited_digit_run. intros [[_ Hd]%andb_true_iff _]%andb_true_iff.
  apply Forall_lookup. intros j c. unfold group. cbn [fst snd].
  intros Hj. pose proof (lookup_lt_Some _ _ _ Hj) as Hlt.
  rewrite length_take in Hlt.
  rewrite lookup_take_lt, lookup_drop in Hj by lia.
  pose proof (digits_from_at s i 14 (i + j) Hd ltac:(lia)) as Hat.
  unfold digit_at in Hat. by rewrite Hj in Hat.
Qed.

Lemma luhn_check_numeric (number : pystr) :
  Forall (fun c => is_digit c = true) number -> is_Some (luhn_check number).
Proof.
  intros Hnum. destruct (numeric_digits_of number Hnum) as [digits Hd].
  unfold luhn_check. rewrite (luhn_checksum_total _ _ Hd). by eexists.
Qed.

(** Every match of the SIRET pattern is a delimited run of 14 digits. *)
Lemma finditer_siret_sound (s : pystr) : forall fuel pos (m : nat * nat),
  m ∈ finditer_from false s siret_pattern fuel pos ->
  delimited_digit_run s m.1 14 = true /\ m.2 = (m.1 + 14)%nat.
Proof.
  induction fuel as [|fuel IH]; intros pos m; [by intros ?%elem_of_nil|].
  cbn [finditer_from]. destruct (length s <? pos)%nat;
    [by intros ?%elem_of_nil|].
  rewrite rmatch_siret. destruct (delimited_digit_run s pos 14) eqn:Hrun.
  - intros [->|Hm]%elem_of_cons; [done|]. by eapply IH.
  - apply IH.
Qed.

Section Scan.
Hypothesis digits_are_word : forall c, is_digit c = true -> is_word c = true.

Lemma digit_word_at (s : pystr) (j : nat) :
  digit_at s j = true -> word_at s j = true.
Proof.
  unfold digit_at, word_at. destruct (s !! j); [|done].
  apply digits_are_word.
Qed.

(** No match starts inside another one. *)
Lemma no_run_inside (s : pystr) (i j : nat) :
  delimited_digit_run s i 14 = true -> (i < j < i + 14)%nat ->
  delimited_digit_run s j 14 = false.
Proof.
  unfold delimited_digit_run at 1.
  intros [[_ Hd]%andb_true_iff _]%andb_true_iff Hj.
  destruct j as [|j']; [lia|].
  pose proof (digit_word_at s j' (digits_from_at s i 14 j' Hd ltac:(lia))) as H1.
  pose proof (digit_word_at s (S j')
                (digits_from_at s i 14 (S j') Hd ltac:(lia))) as H2.
  unfold delimited_digit_run, at_boundary. by rewrite H1, H2.
Qed.

(** [finditer] finds every delimited run of 14 digits, and nothing else. *)
Lemma finditer_siret_from (s : pystr) : forall fuel pos,
  (length s + 1 <= fuel + pos)%nat ->
  forall m : nat * nat,
    m ∈ finditer_from false s siret_pattern fuel pos <->
    (pos <= m.1)%nat /\ delimited_digit_run s m.1 14 = true /\
    m.2 = (m.1 + 14)%nat.
Proof.
  induction fuel as [|fuel IH]; intros pos Hfuel m.
  - simpl. split; [by intros ?%elem_of_nil|].
    intros (Hpos & Hrun%run_in_text & _). lia.
  - cbn [finditer_from]. destruct (Nat.ltb_spec (length s) pos) as [Hlt|Hge].
    { split; [by intros ?%elem_of_nil|].
      intros (Hpos & Hrun%run_in_text & _). lia. }
    rewrite rmatch_siret.
    destruct (delimited_digit_run s pos 14) eqn:Hrun.
    + assert ((pos + 14 =? pos)%nat = false) as -> by (apply Nat.eqb_neq; lia).
      rewrite elem_of_cons, (IH (pos + 14)%nat) by lia. split.
      * intros [->|(Hpos & Hm & Hend)]; [done|]. split; [lia|done].
      * intros (Hpos & Hm & Hend).
        destruct (decide (m.1 = pos)) as [Heq|Hne].
        { left. destruct m as [a b]. simpl in *. by subst. }
        right. split; [|done].
        destruct (decide (m.1 < pos + 14)%nat) as [Hin|]; [|lia].
        rewrite (no_run_inside s pos m.1 Hrun) in Hm by lia. done.
    + rewrite (IH (S pos)) by lia. split.
      * intros (Hpos & Hm & Hend). split; [lia|done].
      * intros (Hpos & Hm & Hend). split; [|done].
        destruct (decide (m.1 = pos)) as [Heq|]; [|lia].
        rewrite Heq in Hm. congruence.
Qed.

Lemma finditer_siret (s : pystr) (m : nat * nat) :
  m ∈ finditer false s siret_pattern <->
  delimited_digit_run s m.1 14 = true /\ m.2 = (m.1 + 14)%nat.
Proof.
  unfold finditer. rewrite finditer_siret_from by lia.
  split; [by intros (_ & ? & ?)|]. intros [? ?]. split; [lia|done].
Qed.

End Scan.

(** The SIRET loop over a list of matches whose text is numeric. *)
Lemma scan_siret_fold (ids : nat -> pystr) (s : pystr)
    (ms : list (nat * nat)) :
  Forall (fun m => is_Some (luhn_check (group s m))) ms ->
  forall acc, exists new,
    foldl (fun acc m =>
             acc ← acc;
             ok ← luhn_check (group s m);
             if ok : bool then
               Some (acc ++ [regex_entity ids (length acc) s EntityType.SIRET
                               (lit "[SIRET Anonymisé]") m])
             else Some acc)
          (Some acc) ms = Some (acc ++ new) /\
    (forall e, e ∈ new -> exists m n,
       m ∈ ms /\ luhn_check (group s m) = Some true /\
       e = regex_entity ids n s EntityType.SIRET (lit "[SIRET Anonymisé]") m) /\
    (forall m, m ∈ ms -> luhn_check (group s m) = Some true ->
       exists n, regex_entity ids n s EntityType.SIRET
                   (lit "[SIRET Anonymisé]") m ∈ new).
Proof.
  induction ms as [|m ms IH]; intros Hms acc.
  - exists []. rewrite app_nil_r. split; [done|].
    split; [by intros e ?%elem_of_nil|by intros m ?%elem_of_nil].
  - apply Forall_cons in Hms as [[ok Hok] Hms]. cbn [foldl].
    cbn [mbind option_bind]. rewrite Hok. cbn [mbind option_bind].
    destruct ok.
    + destruct (IH Hms (acc ++ [regex_entity ids (length acc) s
                                  EntityType.SIRET (lit "[SIRET Anonymisé]") m]))
        as (new & Hfold & Hfrom & Hto).
      exists (regex_entity ids (length acc) s EntityType.SIRET
                (lit "[SIRET Anonymisé]") m :: new).
      split; [by rewrite Hfold, <-app_assoc|]. split.
      * intros e [->|He]%elem_of_cons.
        { exists m, (length acc). split; [by left|done]. }
        destruct (Hfrom e He) as (m' & n & ? & ? & ?).
        exists m', n. split; [by right|done].
      * intros m' [->|Hm']%elem_of_cons Hluhn.
        { exists (length acc). by left. }
        destruct (Hto m' Hm' Hluhn) as [n Hn]. exists n. by right.
    + destruct (IH Hms acc) as (new & Hfold & Hfrom & Hto).
      exists new. split; [done|]. split.
      * intros e He. destruct (Hfrom e He) as (m' & n & ? & ? & ?).
        exists m', n. split; [by right|done].
      * intros m' [->|Hm']%elem_of_cons Hluhn; [congruence|].
        by apply Hto.
Qed.

(** A loop over the matches of a pattern appends entities of its type. *)
Lemma scan_appends (ids : nat -> pystr) (ic : bool) (s : pystr)
    (ty : EntityType.t) (repl : pystr) (r : regex) (acc : list Entity) :
  exists new, scan ids ic s ty repl acc r = acc ++ new /\
              Forall (fun e => type e = ty /\ has_position e) new.
Proof.
  unfold scan. generalize (finditer ic s r). intros ms. revert acc.
  induction ms as [|m ms IH]; intros acc.
  - exists []. by rewrite app_nil_r.
  - cbn [foldl].
    destruct (IH (acc ++ [regex_entity ids (length acc) s ty repl m]))
      as (new & -> & Hnew).
    exists (regex_entity ids (length acc) s ty repl m :: new).
    split; [by rewrite <-app_assoc|]. by constructor.
Qed.

Lemma scans_append (ids : nat -> pystr) (ic : bool) (s : pystr)
    (ty : EntityType.t) (repl : pystr) (rs : list regex) :
  forall acc, exists new,
    foldl (scan ids ic s ty repl) acc rs = acc ++ new /\
    Forall (fun e => type e = ty /\ has_position e) new.
Proof.
  induction rs as [|r rs IH]; intros acc.
  - exists []. by rewrite app_nil_r.
  - cbn [foldl]. destruct (scan_appends ids ic s ty repl r acc)
      as (new1 & -> & Hnew1).
    destruct (IH (acc ++ new1)) as (new2 & -> & Hnew2).
    exists (new1 ++ new2). split; [by rewrite <-app_assoc|].
    by apply Forall_app.
Qed.

(** The result of [extract_entities]: the entities of the SIRET loop, one
    for each match that passes the checksum, between those of the other
    loops. *)
Lemma extract_entities_parts (ids : nat -> pystr) (text : pystr) :
  exists before sirets after_,
    extract_entities ids text = Some (before ++ sirets ++ after_) /\
    Forall (fun e => type e <> EntityType.SIRET /\ has_position e)
           (before ++ after_) /\
    (forall e, e ∈ sirets -> exists m n,
       m ∈ finditer false text siret_pattern /\
       luhn_check (group text m) = Some true /\
       e = regex_entity ids n text EntityType.SIRET
             (lit "[SIRET Anonymisé]") m) /\
    (forall m, m ∈ finditer false text siret_pattern ->
       luhn_check (group text m) = Some true ->
       exists n, regex_entity ids n text EntityType.SIRET
                   (lit "[SIRET Anonymisé]") m ∈ sirets).
Proof.
  unfold extract_entities. cbn zeta.
  destruct (scans_append ids false text EntityType.PHONE
              _generate_phone_replacement phone_patterns [])
    as (phones & -> & Hphones).
  destruct (scan_appends ids false text EntityType.EMAIL
              (lit "[email.anonymise@exemple.fr]") email_pattern
              ([] ++ phones)) as (emails & -> & Hemails).
  unfold scan_siret.
  destruct (scan_siret_fold ids text (finditer false text siret_pattern))
    with (acc := ([] ++ phones) ++ emails) as (sirets & -> & Hfrom & Hto).
  { apply Forall_forall. intros m Hm.
    apply finditer_siret_sound in Hm as [Hrun Hend].
    apply luhn_check_numeric. destruct m as [a b]. simpl in Hend. subst b.
    by apply run_group_numeric. }
  cbn [mbind option_bind].
  destruct (scan_appends ids false text EntityType.SSN
              (lit "[N° Sécurité Sociale Anonymisé]") ssn_pattern
              ((([] ++ phones) ++ emails) ++ sirets)) as (ssns & -> & Hssns).
  destruct (scans_append ids true text EntityType.ADDRESS
              (lit "[Adresse Anonymisée]") address_patterns
              (((([] ++ phones) ++ emails) ++ sirets) ++ ssns))
    as (addresses & -> & Haddresses).
  destruct (scans_append ids true text EntityType.LEGAL
              (lit "[Référence Anonymisée]") legal_patterns
              ((((([] ++ phones) ++ emails) ++ sirets) ++ ssns) ++ addresses))
    as (legals & -> & Hlegals).
  exists (phones ++ emails), sirets, (ssns ++ addresses ++ legals).
  split; [by rewrite app_nil_l, <-!app_assoc|].
  split; [|done].
  rewrite !Forall_app. repeat split;
    (eapply Forall_impl; [eassumption|]; by intros e [-> ?]).
Qed.

End Siret.

(** ** SIRET detection *)

Lemma ascii_only_digits_are_word (c : N) :
  @is_digit ascii_only c = true -> @is_word ascii_only c = true.
Proof.
  unfold is_digit, py_int_char, is_word, is_alnum. simpl.
  destruct (is_ascii c); [|done]. by destruct (in_range 48 57 c).
Qed.

(** C2, amended: [extract_entities] raises no error; a run of exactly 14
    digits with a word boundary at both ends is emitted as a SIRET entity
    exactly when it passes [luhn_check]; every SIRET entity of the result
    is such a run that passes the checksum, so a match that fails leaves
    no SIRET entity; [73282932000074] alone is detected and
    [12345678901234] alone yields no entity at all. *)
Theorem siret_emitted_iff_luhn `{Unicode} (ids : nat -> pystr) (text : pystr) :
  (forall c, is_digit c = true -> is_word c = true) ->
  exists entities,
    extract_entities ids text = Some entities /\
    (forall i, delimited_digit_run text i 14 = true ->
       (siret_emitted entities text i <->
        luhn_check (group text (i, i + 14)%nat) = Some true)) /\
    (forall e, e ∈ entities -> type e = EntityType.SIRET ->
       exists i, delimited_digit_run text i 14 = true /\
                 luhn_check (group text (i, i + 14)%nat) = Some true /\
                 positions e = [ {| start := Z.of_nat i;
                                    end_ := Z.of_nat (i + 14) |} ]) /\
    extract_entities ids (lit "73282932000074")
    = Some [regex_entity ids 0 (lit "73282932000074") EntityType.SIRET
              (lit "[SIRET Anonymisé]") (0, 14)%nat] /\
    extract_entities ids (lit "12345678901234") = Some [].
Proof.
  intros Hlaw.
  destruct (extract_entities_parts ids text)
    as (before & sirets & after_ & Hex & Hother & Hfrom & Hto).
  assert (forall e, e ∈ before ++ sirets ++ after_ ->
            type e = EntityType.SIRET -> e ∈ sirets) as Hsiret.
  { intros e He Hty. rewrite Forall_app, !Forall_forall in Hother.
    destruct Hother as [Hb Ha].
    apply elem_of_app in He as [He|He]; [by destruct (Hb e He)|].
    apply elem_of_app in He as [He|He]; [done|by destruct (Ha e He)]. }
  exists (before ++ sirets ++ after_). split; [done|]. split; [|split].
  - intros i Hrun. split.
    + intros (e & He & Hty & _ & Hpos & _).
      destruct (Hfrom e (Hsiret e He Hty)) as ([a b] & n & _ & Hluhn & ->).
      simpl in Hpos. injection Hpos as Ha Hb.
      apply Nat2Z.inj in Ha, Hb. by subst.
    + intros Hluhn.
      destruct (Hto (i, i + 14)%nat) as [n Hn]; [|done|].
      { by apply (finditer_siret Hlaw). }
      exists (regex_entity ids n text EntityType.SIRET
                (lit "[SIRET Anonymisé]") (i, i + 14)%nat).
      split; [|done].
      apply elem_of_app. right. apply elem_of_app. by left.
  - intros e He Hty.
    destruct (Hfrom e (Hsiret e He Hty)) as ([a b] & n & Hm & Hluhn & ->).
    apply finditer_siret_sound in Hm as [Hrun Hend]. simpl in Hrun, Hend.
    subst b. by exists a.
  - split; vm_compute; reflexivity.
Qed.

Lemma siret_emitted_iff_luhn_witness :
  (forall c, @is_digit ascii_only c = true -> @is_word ascii_only c = true) /\
  exists entities,
    @extract_entities ascii_only sample_ids (lit "SIRET 73282932000074.")
    = Some entities /\
    siret_emitted entities (lit "SIRET 73282932000074.") 6.
Proof.
  split; [exact ascii_only_digits_are_word|].
  destruct (@siret_emitted_iff_luhn ascii_only sample_ids
              (lit "SIRET 73282932000074.") ascii_only_digits_are_word)
    as (entities & Hex & Hiff & _).
  exists entities. split; [exact Hex|].
  apply (Hiff 6%nat); reflexivity.
Defined.

(** The claim as stated fails: in [a73282932000074] the 14 digits are a
    maximal run that passes the checksum, and nothing is emitted. *)
Lemma siret_maximal_run_not_emitted :
  ~ @siret_for_maximal_runs ascii_only sample_ids (lit "a73282932000074").
Proof.
  intros (entities & Hex & Hiff).
  assert (entities = []) as -> by (vm_compute in Hex; congruence).
  destruct (Hiff 1%nat eq_refl) as [_ Hemit].
  destruct Hemit as (e & He & _); [reflexivity|].
  by apply elem_of_nil in He.
Qed.

(** ** Request processing *)

(** The extractor always returns, and its entities have one position. *)
Lemma extract_entities_total `{Unicode} (ids : nat -> pystr) (text : pystr) :
  exists entities,
    extract_entities ids text = Some entities /\
    Forall has_position entities.
Proof.
  destruct (extract_entities_parts ids text)
    as (before & sirets & after_ & Hex & Hother & Hfrom & _).
  exists (before ++ sirets ++ after_). split; [done|].
  rewrite Forall_app in Hother. destruct Hother as [Hb Ha].
  rewrite !Forall_app. split; [|split].
  - eapply Forall_impl; [apply Hb|]. by intros e [_ ?].
  - apply Forall_forall. intros e He.
    by destruct (Hfrom e He) as (m & n & _ & _ & ->).
  - eapply Forall_impl; [apply Ha|]. by intros e [_ ?].
Qed.

(** The identifiers drawn do not influence anything else. *)
Lemma scan_same_but_id `{Unicode} (ids ids' : nat -> pystr) (ic : bool)
    (s : pystr) (ty : EntityType.t) (repl : pystr) (r : regex) :
  forall acc acc',
    Forall2 same_but_id acc acc' ->
    Forall2 same_but_id (scan ids ic s ty repl acc r)
                        (scan ids' ic s ty repl acc' r).
Proof.
  unfold scan. generalize (finditer ic s r). intros ms.
  induction ms as [|m ms IH]; intros acc acc' Hacc; [done|].
  cbn [foldl]. apply IH, Forall2_app; [done|].
  constructor; [|constructor]. done.
Qed.

Lemma scans_same_but_id `{Unicode} (ids ids' : nat -> pystr) (ic : bool)
    (s : pystr) (ty : EntityType.t) (repl : pystr) (rs : list regex) :
  forall acc acc',
    Forall2 same_but_id acc acc' ->
    Forall2 same_but_id (foldl (scan ids ic s ty repl) acc rs)
                        (foldl (scan ids' ic s ty repl) acc' rs).
Proof.
  induction rs as [|r rs IH]; intros acc acc' Hacc; [done|].
  cbn [foldl]. by apply IH, scan_same_but_id.
Qed.

Lemma scan_siret_same_but_id `{Unicode} (ids ids' : nat -> pystr) (s : pystr) :
  forall acc acc',
    Forall2 same_but_id acc acc' ->
    option_Forall2 (Forall2 same_but_id)
      (scan_siret ids s acc) (scan_siret ids' s acc').
Proof.
  unfold scan_siret. generalize (finditer false s siret_pattern). intros ms.
  induction ms as [|m ms IH]; intros acc acc' Hacc; [by constructor|].
  cbn [foldl mbind option_bind].
  destruct (luhn_check (group s m)) as [[|]|]; cbn [mbind option_bind].
  - apply IH, Forall2_app; [done|]. constructor; [|constructor]. done.
  - by apply IH.
  - clear. induction ms as [|m' ms IH]; [constructor|]. exact IH.
Qed.

Lemma extract_entities_same_but_id `{Unicode} (ids ids' : nat -> pystr)
    (text : pystr) :
  option_Forall2 (Forall2 same_but_id)
    (extract_entities ids text) (extract_entities ids' text).
Proof.
  unfold extract_entities. cbn zeta.
  destruct (scan_siret_same_but_id ids ids' text
              (scan ids false text EntityType.EMAIL
                 (lit "[email.anonymise@exemple.fr]")
                 (foldl (scan ids false text EntityType.PHONE
                           _generate_phone_replacement) [] phone_patterns)
                 email_pattern)
              (scan ids' false text EntityType.EMAIL
                 (lit "[email.anonymise@exemple.fr]")
                 (foldl (scan ids' false text EntityType.PHONE
                           _generate_phone_replacement) [] phone_patterns)
                 email_pattern))
    as [l l' Hl|].
  { apply scan_same_but_id, scans_same_but_id. constructor. }
  - cbn [mbind option_bind]. constructor.
    by apply scans_same_but_id, scans_same_but_id, scan_same_but_id.
  - constructor.
Qed.

Lemma same_but_id_key (e e' : Entity) :
  same_but_id e e' -> entity_key e = entity_key e'.
Proof.
  intros (Ht & _ & _ & _ & _ & Hp & _). unfold entity_key.
  by rewrite Ht, Hp.
Qed.

Lemma dedup_loop_same_but_id (l l' : list Entity) :
  Forall2 same_but_id l l' ->
  forall st st',
    option_Forall2 same_dedup_state st st' ->
    option_Forall2 same_dedup_state
      (foldl dedup_step st l) (foldl dedup_step st' l').
Proof.
  induction 1 as [|e e' l l' He Hl IH]; intros st st' Hst; [done|].
  cbn [foldl]. apply IH. unfold dedup_step.
  destruct Hst as [[u seen] [u' seen'] [Hu Hseen]|]; [|constructor].
  cbn [mbind option_bind]. rewrite (same_but_id_key e e' He).
  destruct (entity_key e') as [k|]; cbn [mbind option_bind]; [|constructor].
  simpl in Hu, Hseen. subst seen'. simpl.
  destruct (decide (k ∈ seen)); constructor; [done|].
  split; [|done]. simpl. apply Forall2_app; [done|].
  constructor; [done|constructor].
Qed.

Lemma deduplicate_same_but_id (l l' : list Entity) :
  Forall2 same_but_id l l' ->
  option_Forall2 (Forall2 same_but_id) (deduplicate l) (deduplicate l').
Proof.
  intros Hl. unfold deduplicate.
  destruct (dedup_loop_same_but_id l l' Hl (Some ([], ∅)) (Some ([], ∅)))
    as [a b [Hab _]|]; [|by constructor|constructor].
  constructor. split; [constructor|done].
Qed.

(** Outside the advanced mode the response holds the deduplicated entities
    of the pattern extractor. *)
Lemma process_document_patterns `{Unicode} `{Spacy} (ids : nat -> pystr)
    (elapsed : float) (ner_service : NERService) (request : DocumentRequest) :
  mode request <> ProcessingMode.ADVANCED ->
  exists response,
    process_document ids elapsed ner_service request
    = (Some response, ner_service) /\
    extract_entities ids (content request) ≫= deduplicate
    = Some (entities response).
Proof.
  intros Hmode. unfold process_document.
  destruct (extract_entities_total ids (content request))
    as (regex_entities & -> & Hpos).
  rewrite bool_decide_eq_false_2 by done. cbn [andb mbind option_bind].
  rewrite app_nil_r, (deduplicate_keep_first _ Hpos). by eexists.
Qed.

(** C6: on the same content the [ollama] mode (the [llm] mode of the
    specification) and the [standard] mode both respond with the
    deduplicated entities of the pattern extractor and leave the NER
    service untouched: the entity lists are equal when the same identifiers
    are drawn, and differ in the identifiers only when others are drawn;
    [OllamaService.extract_entities] returns the empty list whatever the
    configuration and the text. *)
Theorem ollama_mode_as_standard `{Unicode} `{Spacy} (ids ids' : nat -> pystr)
    (elapsed elapsed' : float) (ner_service : NERService)
    (doc filename filename' : pystr) (cfg cfg' : option OllamaConfig) :
  exists standard llm llm',
    process_document ids elapsed ner_service
      {| content := doc; filename := filename;
         mode := ProcessingMode.STANDARD; ollama_config := cfg |}
    = (Some standard, ner_service) /\
    process_document ids elapsed' ner_service
      {| content := doc; filename := filename';
         mode := ProcessingMode.OLLAMA; ollama_config := cfg' |}
    = (Some llm, ner_service) /\
    process_document ids' elapsed' ner_service
      {| content := doc; filename := filename';
         mode := ProcessingMode.OLLAMA; ollama_config := cfg' |}
    = (Some llm', ner_service) /\
    entities llm = entities standard /\
    Forall2 same_but_id (entities llm') (entities standard) /\
    extract_entities ids doc ≫= deduplicate = Some (entities standard) /\
    (forall config text, ollama_extract_entities config text = []).
Proof.
  destruct (process_document_patterns ids elapsed ner_service
              {| content := doc; filename := filename;
                 mode := ProcessingMode.STANDARD; ollama_config := cfg |})
    as (standard & Hs & Hes); [done|].
  destruct (process_document_patterns ids elapsed' ner_service
              {| content := doc; filename := filename';
                 mode := ProcessingMode.OLLAMA; ollama_config := cfg' |})
    as (llm & Hl & Hel); [done|].
  destruct (process_document_patterns ids' elapsed' ner_service
              {| content := doc; filename := filename';
                 mode := ProcessingMode.OLLAMA; ollama_config := cfg' |})
    as (llm' & Hl' & Hel'); [done|].
  exists standard, llm, llm'. cbn [content] in Hes, Hel, Hel'.
  split; [done|]. split; [done|]. split; [done|]. split; [congruence|].
  split; [|done].
  pose proof (extract_entities_same_but_id ids' ids doc) as Hex.
  destruct Hex as [l' l Hll|]; [|done]. cbn [mbind option_bind] in Hes, Hel'.
  pose proof (deduplicate_same_but_id l' l Hll) as Hd.
  rewrite Hes, Hel' in Hd. by inversion Hd.
Qed.

(** C9: the scenario of the specification.  In standard mode the text
    yields the phone entity and the email entity, and the rewrite with
    both selected yields the expected text. *)
Theorem scenario_phone_and_email `{Unicode} `{Spacy} (ids : nat -> pystr)
    (elapsed : float) (ner_service : NERService)
    (filename : pystr) (cfg : option OllamaConfig) :
  exists response,
    process_document ids elapsed ner_service (scenario_request filename cfg)
    = (Some response, ner_service) /\
    entities response = [scenario_phone ids; scenario_email ids] /\
    selected (scenario_phone ids) = true /\
    selected (scenario_email ids) = true /\
    apply_anonymization scenario_text (entities response)
    = Some (lit "Contactez-moi au 06 XX XX XX XX ou [email.anonymise@exemple.fr].").
Proof.
  eexists. split; [vm_compute; reflexivity|].
  split; [reflexivity|]. split; [reflexivity|]. split; [reflexivity|].
  vm_compute. reflexivity.
Qed.

(** C10: in every response, [total_occurrences] is the number of entities
    returned. *)
Theorem total_occurrences_is_length `{Unicode} `{Spacy} (ids : nat -> pystr)
    (elapsed : float) (ner_service ner_service' : NERService)
    (request : DocumentRequest) (response : ProcessingResponse) :
  process_document ids elapsed ner_service request
  = (Some response, ner_service') ->
  total_occurrences response = Z.of_nat (length (entities response)).
Proof.
  unfold process_document.
  destruct (extract_entities ids (content request)) as [regex_entities|];
    [|done].
  destruct (bool_decide _ && bool_decide _);
    [destruct (ner_extract_entities _ _ _ _) as [[ner_entities|] service];
       [|done]|];
    cbn [mbind option_bind];
    (destruct (deduplicate _) as [unique_entities|]; [|done]);
    cbn [mbind option_bind]; by intros [= <- _].
Qed.

Lemma total_occurrences_is_length_witness :
  exists response,
    @process_document ascii_only no_model sample_ids 0%float NERService_init
      (scenario_request (lit "contact.txt") None)
    = (Some response, NERService_init) /\
    total_occurrences response = Z.of_nat (length (entities response)).
Proof.
  eexists. split; [vm_compute; reflexivity|].
  apply (@total_occurrences_is_length ascii_only no_model sample_ids 0%float
           NERService_init NERService_init
           (scenario_request (lit "contact.txt") None)).
  vm_compute. reflexivity.
Defined.

(** ** The NER counters *)

(** C5 fails on the code: the counters are fields of the shared service,
    so the second of two calls on the same text names the same person
    with the next letter, in the adapter and in the responses of two
    successive requests in advanced mode. *)
Lemma ner_counters_shared_across_calls :
  @ner_extract_entities one_person sample_ids 0 NERService_init
    (lit "Jean Dupont")
  = (Some [sample_person "Personne A"],
     {| person_counter := 2; org_counter := 1 |}) /\
  @ner_extract_entities one_person sample_ids 0
    {| person_counter := 2; org_counter := 1 |} (lit "Jean Dupont")
  = (Some [sample_person "Personne B"],
     {| person_counter := 3; org_counter := 1 |}) /\
  @process_document ascii_only one_person sample_ids 0%float NERService_init
    sample_advanced_request
  = (Some (sample_advanced_response "Personne A"),
     {| person_counter := 2; org_counter := 1 |}) /\
  @process_document ascii_only one_person sample_ids 0%float
    {| person_counter := 2; org_counter := 1 |} sample_advanced_request
  = (Some (sample_advanced_response "Personne B"),
     {| person_counter := 3; org_counter := 1 |}).
Proof. repeat split; vm_compute; reflexivity. Qed.

(** ** Instances on the scenario *)

Lemma scenario_selected :
  filter (fun e => selected e = true)
         [scenario_phone sample_ids; scenario_email sample_ids]
  = [scenario_phone sample_ids; scenario_email sample_ids].
Proof. reflexivity. Qed.

Lemma scenario_in_text :
  Forall (in_text scenario_text)
         (filter (fun e => selected e = true)
                 [scenario_phone sample_ids; scenario_email sample_ids]).
Proof.
  rewrite scenario_selected.
  repeat constructor; try done; simpl; lia.
Qed.

Lemma scenario_disjoint :
  pairwise disjoint
    (filter (fun e => selected e = true)
            [scenario_phone sample_ids; scenario_email sample_ids]).
Proof.
  rewrite scenario_selected. simpl. repeat constructor.
  unfold disjoint. simpl. lia.
Qed.

Lemma apply_anonymization_correct_witness :
  Forall (in_text scenario_text)
         (filter (fun e => selected e = true)
                 [scenario_phone sample_ids; scenario_email sample_ids]) /\
  pairwise disjoint
    (filter (fun e => selected e = true)
            [scenario_phone sample_ids; scenario_email sample_ids]) /\
  exists result,
    apply_anonymization scenario_text
      [scenario_phone sample_ids; scenario_email sample_ids] = Some result /\
    Z.of_nat (length result) = 51 - (14 + 15) + (14 + 28).
Proof.
  split; [exact scenario_in_text|]. split; [exact scenario_disjoint|].
  destruct (apply_anonymization_correct scenario_text
              [scenario_phone sample_ids; scenario_email sample_ids]
              scenario_in_text scenario_disjoint)
    as (order & result & _ & _ & _ & _ & Happly & _ & Hlen & _).
  exists result. split; [exact Happly|]. rewrite Hlen. reflexivity.
Defined.

Lemma apply_anonymization_order_independent_witness :
  [scenario_phone sample_ids; scenario_email sample_ids]
    ≡ₚ [scenario_email sample_ids; scenario_phone sample_ids] /\
  Forall (fun e => has_position e /\
                   start (first_pos e) < end_ (first_pos e))
         (filter (fun e => selected e = true)
                 [scenario_phone sample_ids; scenario_email sample_ids]) /\
  pairwise disjoint
    (filter (fun e => selected e = true)
            [scenario_phone sample_ids; scenario_email sample_ids]) /\
  exists result,
    apply_anonymization scenario_text
      [scenario_phone sample_ids; scenario_email sample_ids] = Some result /\
    apply_anonymization scenario_text
      [scenario_email sample_ids; scenario_phone sample_ids] = Some result.
Proof.
  assert (Forall (fun e => has_position e /\
                           start (first_pos e) < end_ (first_pos e))
            (filter (fun e => selected e = true)
                    [scenario_phone sample_ids; scenario_email sample_ids]))
    as Hspans.
  { eapply Forall_impl; [exact scenario_in_text|].
    intros e (? & ? & _). split; [done|lia]. }
  split; [apply Permutation_swap|]. split; [exact Hspans|].
  split; [exact scenario_disjoint|].
  exact (apply_anonymization_order_independent scenario_text
           [scenario_phone sample_ids; scenario_email sample_ids]
           [scenario_email sample_ids; scenario_phone sample_ids]
           (Permutation_swap _ _ _) Hspans scenario_disjoint).
Defined.

Lemma deduplicate_first_per_key_witness :
  Forall has_position
    ([scenario_phone sample_ids; scenario_email sample_ids]
       ++ [sample_person "Personne A"; scenario_phone sample_ids;
           second_phone]) /\
  exists unique_entities,
    deduplicate
      ([scenario_phone sample_ids; scenario_email sample_ids]
         ++ [sample_person "Personne A"; scenario_phone sample_ids;
             second_phone])
    = Some unique_entities /\
    unique_entities
    = [scenario_phone sample_ids; scenario_email sample_ids;
       sample_person "Personne A"; second_phone].
Proof.
  assert (Forall has_position
            ([scenario_phone sample_ids; scenario_email sample_ids]
               ++ [sample_person "Personne A"; scenario_phone sample_ids;
                   second_phone]))
    as Hpos by (repeat constructor; done).
  split; [exact Hpos|].
  destruct (deduplicate_first_per_key
              [scenario_phone sample_ids; scenario_email sample_ids]
              [sample_person "Personne A"; scenario_phone sample_ids;
               second_phone] Hpos)
    as (unique_entities & Hd & Hk & _).
  exists unique_entities. split; [exact Hd|]. rewrite Hk. reflexivity.
Defined.

Lemma scenario_deduplicated :
  deduplicate [scenario_phone sample_ids; scenario_phone sample_ids;
               scenario_email sample_ids]
  = Some [scenario_phone sample_ids; scenario_email sample_ids].
Proof. vm_compute. reflexivity. Qed.

Lemma deduplicate_idempotent_witness :
  deduplicate [scenario_phone sample_ids; scenario_phone sample_ids;
               scenario_email sample_ids]
  = Some [scenario_phone sample_ids; scenario_email sample_ids] /\
  deduplicate [scenario_phone sample_ids; scenario_email sample_ids]
  = Some [scenario_phone sample_ids; scenario_email sample_ids].
Proof.
  split; [exact scenario_deduplicated|].
  exact (deduplicate_idempotent _ _ scenario_deduplicated).
Defined.

(** * Further properties of the code *)

(** ** The checksum validator: errors and error detection *)

Section LuhnMore.
Context `{Unicode}.

Lemma sumN_app (l l' : list N) : sumN (l ++ l') = (sumN l + sumN l')%N.
Proof. unfold sumN. induction l as [|x l IH]; simpl; lia. Qed.

Lemma digits_of_app (a b : pystr) :
  digits_of (a ++ b)
  = da ← digits_of a; db ← digits_of b; Some (da ++ db).
Proof.
  unfold digits_of. induction a as [|c a IH]; simpl.
  - by destruct (mapM py_int_char b).
  - destruct (py_int_char c); simpl; [|done]. rewrite IH.
    destruct (mapM py_int_char a); simpl; [|done].
    by destruct (mapM py_int_char b).
Qed.

Lemma mod10_complement_arith (q r a m p c d : N) :
  (r < 10)%N -> c = (10 * q + r)%N -> (d < 10)%N ->
  (10 - r)%N = (10 * a + d)%N ->
  (m < 10)%N -> (d + c = 10 * p + m)%N -> m = 0%N.
Proof. intros. assert (a = 0 \/ a = 1)%N as [->| ->] by lia; lia. Qed.

Lemma mod10_complement (c : N) :
  (((10 - c mod 10) mod 10 + c) mod 10 = 0)%N.
Proof.
  apply (mod10_complement_arith (c / 10) (c mod 10)
           ((10 - c mod 10) / 10) _
           (((10 - c mod 10) mod 10 + c) / 10) c ((10 - c mod 10) mod 10)).
  - by apply N.mod_lt.
  - by apply N.div_mod.
  - by apply N.mod_lt.
  - by apply N.div_mod.
  - by apply N.mod_lt.
  - by apply N.div_mod.
Qed.

Lemma mod10_unique_arith (x y c p p' : N) :
  (x < 10)%N -> (y < 10)%N ->
  (x + c = 10 * p)%N -> (y + c = 10 * p')%N -> x = y.
Proof. lia. Qed.

Lemma mod10_unique (x y c : N) :
  (x < 10)%N -> (y < 10)%N ->
  ((x + c) mod 10 = 0)%N -> ((y + c) mod 10 = 0)%N -> x = y.
Proof.
  intros Hx Hy Hxc Hyc.
  apply (mod10_unique_arith x y c ((x + c) / 10) ((y + c) / 10));
    [done|done| |].
  - rewrite (N.div_mod (x + c) 10) at 1 by done. rewrite Hxc. lia.
  - rewrite (N.div_mod (y + c) 10) at 1 by done. rewrite Hyc. lia.
Qed.

(** X1: [luhn_check] raises exactly on the strings that hold a character that
    is not a decimal digit; the empty string does not raise. *)
Theorem luhn_check_raises_iff (number : pystr) :
  luhn_check number = None <-> Exists (fun c => is_digit c = false) number.
Proof.
  split.
  - intros Hnone.
    destruct (Forall_Exists_dec (fun c => is_digit c = true)
                (fun c => is_digit c = false)
                (fun c => match is_digit c as b
                                return {b = true} + {b = false} with
                          | true => left eq_refl
                          | false => right eq_refl
                          end) number) as [Hall|Hex]; [|done].
    destruct (luhn_check_numeric number Hall) as [b Hb]. congruence.
  - intros Hex. unfold luhn_check, luhn_checksum.
    assert (digits_of number = None) as ->; [|done].
    apply mapM_None_2. eapply Exists_impl; [apply Hex|].
    intros c Hc. unfold is_digit in Hc. by destruct (py_int_char c).
Qed.

(** The total of a number with the digit [d] at one place: the part of the
    digits after it, the term of [d] at its position from the right, and
    the part of the digits before it. *)
Lemma luhn_total_split (da db : list N) (d : N) :
  luhn_total (da ++ d :: db)
  = (luhn_total db + luhn_term (S (length db)) d
     + sumN (imap (fun i x => luhn_term (S (S (length db) + i)) x)
                  (reverse da)))%N.
Proof.
  unfold luhn_total.
  rewrite reverse_app, reverse_cons, imap_app, imap_app, !sumN_app.
  rewrite !length_app, !length_reverse. simpl.
  rewrite Nat.add_0_r, N.add_0_r. do 2 f_equal.
  apply imap_ext. intros i x _. simpl. do 2 f_equal. lia.
Qed.

Lemma digit_cases (d : N) :
  (d < 10)%N ->
  d = 0%N \/ d = 1%N \/ d = 2%N \/ d = 3%N \/ d = 4%N \/
  d = 5%N \/ d = 6%N \/ d = 7%N \/ d = 8%N \/ d = 9%N.
Proof. lia. Qed.

(** On digits the term of a position is a digit again, and different
    digits have different terms. *)
Lemma luhn_term_digit (pos : nat) (d : N) :
  (d < 10)%N -> (luhn_term pos d < 10)%N.
Proof.
  intros Hd. unfold luhn_term. destruct (Nat.odd pos); [done|].
  destruct (digit_cases d Hd) as [->|[->|[->|[->|[->|[->|[->|[->|[->| ->]]]]]]]]];
    vm_compute; done.
Qed.

Lemma luhn_term_inj (pos : nat) (d d' : N) :
  (d < 10)%N -> (d' < 10)%N -> luhn_term pos d = luhn_term pos d' -> d = d'.
Proof.
  intros Hd Hd'. unfold luhn_term. destruct (Nat.odd pos); [done|].
  destruct (digit_cases d Hd) as [->|[->|[->|[->|[->|[->|[->|[->|[->| ->]]]]]]]]];
    destruct (digit_cases d' Hd')
      as [->|[->|[->|[->|[->|[->|[->|[->|[->| ->]]]]]]]]];
    vm_compute; congruence.
Qed.

Lemma luhn_check_Some (number : pystr) (b : bool) :
  luhn_check number = Some b ->
  exists digits, digits_of number = Some digits /\
                 b = (luhn_total digits mod 10 =? 0)%N.
Proof.
  intros Hb. destruct (digits_of number) as [digits|] eqn:Hd.
  - exists digits. split; [done|].
    unfold luhn_check in Hb. rewrite (luhn_checksum_total _ _ Hd) in Hb.
    simpl in Hb. congruence.
  - unfold luhn_check, luhn_checksum in Hb. by rewrite Hd in Hb.
Qed.

(** X2: Every error in a single digit is detected: a valid number in which one
    character is replaced by a character of another digit value is no
    longer valid. *)
Theorem luhn_check_single_digit_error (a b : pystr) (c c' : N) (d d' : N) :
  py_int_char c = Some d -> py_int_char c' = Some d' ->
  (d < 10)%N -> (d' < 10)%N -> d <> d' ->
  luhn_check (a ++ c :: b) = Some true ->
  luhn_check (a ++ c' :: b) = Some false.
Proof.
  intros Hc Hc' Hd Hd' Hne Hvalid.
  apply luhn_check_Some in Hvalid as (digits & Hdigits & Htotal).
  rewrite digits_of_app in Hdigits.
  destruct (digits_of a) as [da|] eqn:Ha; [|done].
  change (c :: b) with ([c] ++ b) in Hdigits.
  rewrite digits_of_app in Hdigits.
  destruct (digits_of b) as [db|] eqn:Hb;
    [|simpl in Hdigits; unfold digits_of in Hdigits; simpl in Hdigits;
      by destruct (py_int_char c)].
  assert (digits = da ++ d :: db) as ->.
  { unfold digits_of in Hdigits at 1. simpl in Hdigits.
    rewrite Hc in Hdigits. simpl in Hdigits. congruence. }
  assert (digits_of (a ++ c' :: b) = Some (da ++ d' :: db)) as Hdigits'.
  { rewrite digits_of_app, Ha. change (c' :: b) with ([c'] ++ b).
    rewrite digits_of_app, Hb. unfold digits_of at 1. simpl.
    rewrite Hc'. done. }
  unfold luhn_check. rewrite (luhn_checksum_total _ _ Hdigits'). simpl.
  f_equal. apply N.eqb_neq. intros Hzero.
  symmetry in Htotal. apply N.eqb_eq in Htotal.
  rewrite luhn_total_split in Htotal, Hzero.
  pose proof (luhn_term_digit (S (length db)) d Hd) as Ht.
  pose proof (luhn_term_digit (S (length db)) d' Hd') as Ht'.
  apply Hne, (luhn_term_inj (S (length db))); [done..|].
  set (t := luhn_term (S (length db)) d) in *.
  set (t' := luhn_term (S (length db)) d') in *.
  set (rest := sumN _) in *. set (after := luhn_total db) in *.
  apply (mod10_unique t t' (after + rest) Ht Ht').
  - rewrite <-Htotal. f_equal. lia.
  - rewrite <-Hzero. f_equal. lia.
Qed.

(** X3: Every numeric string has exactly one check digit: one digit that, when
    appended, makes the number valid. *)
Theorem luhn_check_digit_unique (body : pystr) :
  Forall (fun c => is_digit c = true) body ->
  exists d, (d < 10)%N /\
    luhn_check (body ++ [48 + d]%N) = Some true /\
    forall d', (d' < 10)%N ->
      luhn_check (body ++ [48 + d']%N) = Some true -> d' = d.
Proof.
  intros Hnum. destruct (numeric_digits_of body Hnum) as [ds Hds].
  assert (forall x, (x < 10)%N ->
            luhn_check (body ++ [48 + x]%N)
            = Some (luhn_total (ds ++ [x]) mod 10 =? 0)%N) as Hcheck.
  { intros x Hx. unfold luhn_check.
    rewrite (luhn_checksum_total _ (ds ++ [x])); [done|].
    rewrite digits_of_app, Hds. unfold digits_of at 1. simpl.
    by rewrite (py_int_char_digit x Hx). }
  assert (forall x, luhn_total (ds ++ [x])
                    = (x + sumN (imap (fun i y => luhn_term (S (1 + i)) y)
                                      (reverse ds)))%N) as Hsplit.
  { intros x. rewrite luhn_total_split. unfold luhn_total. simpl.
    change (luhn_term 1 x) with x. lia. }
  set (rest := sumN (imap (fun i y => luhn_term (S (1 + i)) y) (reverse ds)))
    in *.
  exists ((10 - rest mod 10) mod 10)%N.
  assert ((10 - rest mod 10) mod 10 < 10)%N as Hd by (by apply N.mod_lt).
  split; [done|]. split.
  - rewrite Hcheck by done. f_equal. apply N.eqb_eq. rewrite Hsplit.
    apply mod10_complement.
  - intros d' Hd' Hvalid. rewrite Hcheck in Hvalid by done.
    injection Hvalid as Hvalid. apply N.eqb_eq in Hvalid.
    rewrite Hsplit in Hvalid.
    apply (mod10_unique _ _ rest Hd' Hd Hvalid). apply mod10_complement.
Qed.

(** X4: A leading zero does not change the verdict, nor whether the check
    raises. *)
Theorem luhn_check_leading_zero (number : pystr) :
  luhn_check (48%N :: number) = luhn_check number.
Proof.
  change (48%N :: number) with ([48%N] ++ number).
  pose proof (digits_of_app [48%N] number) as Happ.
  change (digits_of [48%N]) with (Some [0%N]) in Happ.
  cbn [mbind option_bind] in Happ.
  unfold luhn_check. destruct (digits_of number) as [ds|] eqn:Hds.
  - rewrite (luhn_checksum_total _ _ Happ), (luhn_checksum_total _ _ Hds).
    simpl. do 2 f_equal.
    change (0%N :: ds) with ([] ++ 0%N :: ds). rewrite luhn_total_split.
    simpl. unfold luhn_term. destruct (Nat.odd _); simpl; f_equal; lia.
  - unfold luhn_checksum. by rewrite Happ, Hds.
Qed.

End LuhnMore.

(** ** The entity deduplicator: errors and composition *)

Lemma positions_all_or_missing (l : list Entity) :
  Forall has_position l \/ Exists (fun e => positions e = []) l.
Proof.
  induction l as [|e l [IH|IH]].
  - left. constructor.
  - destruct (positions e) as [|pos ps] eqn:He.
    + right. by left.
    + left. constructor; [|done]. unfold has_position. by rewrite He.
  - right. by right.
Qed.

(** X5: The deduplication raises exactly when some entity has an empty
    [positions] list. *)
Theorem deduplicate_raises_iff (l : list Entity) :
  deduplicate l = None <-> Exists (fun e => positions e = []) l.
Proof.
  split.
  - intros Hnone. destruct (positions_all_or_missing l) as [Hall|Hex]; [|done].
    rewrite (deduplicate_keep_first _ Hall) in Hnone. done.
  - intros Hex. destruct (deduplicate l) as [out|] eqn:Hd; [|done].
    apply deduplicate_Some_positions in Hd.
    apply Exists_exists in Hex as (e & He & Hpos).
    rewrite Forall_forall in Hd. by destruct (Hd e He).
Qed.

(** X6: The deduplication returns its input unchanged exactly when every
    entity has a first position and no two entities of the list have the
    same text, start and end. *)
Theorem deduplicate_fixpoint_iff (l : list Entity) :
  deduplicate l = Some l <->
  Forall has_position l /\
  NoDup ((fun e => (text e, start (first_pos e), end_ (first_pos e))) <$> l).
Proof.
  split.
  - intros Hd. pose proof (deduplicate_Some_positions _ _ Hd) as Hpos.
    split; [done|]. apply (NoDup_keys_triples l Hpos).
    rewrite (deduplicate_keep_first _ Hpos) in Hd.
    injection Hd as Hd. rewrite <-Hd. apply keep_first_NoDup.
  - intros [Hpos Hnd]. rewrite (deduplicate_keep_first _ Hpos).
    f_equal. apply keep_first_id. by apply (NoDup_keys_triples l Hpos).
Qed.

Lemma keep_first_app (l1 l2 : list Entity) :
  keep_first (l1 ++ l2)
  = keep_first l1
      ++ filter (fun e => entity_key e ∉ entity_key <$> l1) (keep_first l2).
Proof.
  induction l2 as [|x l2 IH] using rev_ind.
  - by rewrite app_nil_r, keep_first_nil, filter_nil, app_nil_r.
  - rewrite app_assoc, !keep_first_snoc, IH, filter_app, <-app_assoc.
    f_equal. f_equal. rewrite fmap_app.
    destruct (decide (entity_key x ∈ entity_key <$> l2)) as [Hin2|Hnin2].
    + rewrite decide_True by (apply elem_of_app; by right). done.
    + destruct (decide (entity_key x ∈ entity_key <$> l1)) as [Hin1|Hnin1].
      * rewrite decide_True by (apply elem_of_app; by left).
        rewrite filter_cons, decide_False by (intros Hn; by apply Hn).
        done.
      * rewrite decide_False
          by (intros [?|?]%elem_of_app; [by apply Hnin1|by apply Hnin2]).
        rewrite filter_cons, decide_True by done. done.
Qed.

(** X7: Pooling composes: the entities of the first detector survive as they
    do alone, and an entity of the second detector is dropped when the
    first detector has an entity with the same key. *)
Theorem deduplicate_app (l1 l2 unique1 unique2 : list Entity) :
  deduplicate l1 = Some unique1 ->
  deduplicate l2 = Some unique2 ->
  deduplicate (l1 ++ l2)
  = Some (unique1
            ++ filter (fun e => entity_key e ∉ entity_key <$> l1) unique2).
Proof.
  intros H1 H2.
  pose proof (deduplicate_Some_positions _ _ H1) as Hp1.
  pose proof (deduplicate_Some_positions _ _ H2) as Hp2.
  rewrite (deduplicate_keep_first _ Hp1) in H1.
  rewrite (deduplicate_keep_first _ Hp2) in H2.
  injection H1 as <-. injection H2 as <-.
  rewrite deduplicate_keep_first by (by apply Forall_app).
  f_equal. apply keep_first_app.
Qed.

(** ** The anonymization rewriter: errors, edge cases and composition *)

Lemma selected_all_or_missing (l : list Entity) :
  Forall has_position (filter (fun e => selected e = true) l) \/
  Exists (fun e => selected e = true /\ positions e = []) l.
Proof.
  induction l as [|e l [IH|IH]].
  - left. constructor.
  - rewrite filter_cons. destruct (decide (selected e = true)) as [Hs|Hs];
      [|by left].
    destruct (positions e) as [|pos ps] eqn:He.
    + right. by left.
    + left. constructor; [|done]. unfold has_position. by rewrite He.
  - right. by right.
Qed.

Lemma splice_loop_None (order : list Entity) :
  foldl (fun result entity => result ← result; splice result entity)
        None order = None.
Proof. induction order as [|e order IH]; [done|]. exact IH. Qed.

(** With a first position for every selected entity the rewrite returns,
    whatever the offsets are. *)
Lemma apply_anonymization_Some (content : pystr) (l : list Entity) :
  Forall has_position (filter (fun e => selected e = true) l) ->
  exists order,
    sorted_desc first_start (filter (fun e => selected e = true) l)
    = Some order /\
    order ≡ₚ filter (fun e => selected e = true) l /\
    apply_anonymization content l
    = Some (foldl splice_span content (span <$> order)).
Proof.
  intros Hpos.
  destruct (sorted_desc_spec first_start (fun e => start (first_pos e))
              (filter (fun e => selected e = true) l))
    as (order & Hsort & Hperm & _).
  { intros e He. apply first_start_position.
    rewrite Forall_forall in Hpos. by apply Hpos. }
  exists order. split; [done|]. split; [done|].
  unfold apply_anonymization. rewrite Hsort. cbn [mbind option_bind].
  apply foldl_splice. by rewrite Hperm.
Qed.

(** X8: The rewrite raises exactly when a selected entity has an empty
    [positions] list; offsets that are negative, inverted or beyond the
    text never raise. *)
Theorem apply_anonymization_raises_iff (content : pystr) (l : list Entity) :
  apply_anonymization content l = None <->
  Exists (fun e => selected e = true /\ positions e = []) l.
Proof.
  split.
  - intros Hnone. destruct (selected_all_or_missing l) as [Hall|Hex]; [|done].
    destruct (apply_anonymization_Some content l Hall) as (? & _ & _ & Hr).
    congruence.
  - intros Hex. unfold apply_anonymization.
    assert (sorted_desc first_start (filter (fun e => selected e = true) l)
            = None) as ->; [|done].
    unfold sorted_desc.
    assert (mapM first_start (filter (fun e => selected e = true) l) = None)
      as ->; [|done].
    apply mapM_None_2, Exists_exists.
    apply Exists_exists in Hex as (e & He & Hsel & Hpos).
    exists e. split; [by apply list_elem_of_filter|].
    unfold first_start. by rewrite Hpos.
Qed.

(** Entities that are not selected are never applied: with none selected
    the text comes back unchanged, also when the entities have no position
    at all. *)
Lemma apply_anonymization_none_selected (content : pystr) (l : list Entity) :
  Forall (fun e => selected e = false) l ->
  apply_anonymization content l = Some content.
Proof.
  intros Hl.
  assert (filter (fun e => selected e = true) l = []) as Hnil.
  { induction Hl as [|e l He Hl IH]; [done|].
    rewrite filter_cons, decide_False by congruence. done. }
  unfold apply_anonymization. by rewrite Hnil.
Qed.

Lemma rewritten_self (content : pystr) (spans : list (Z * Z * pystr)) :
  forall cursor,
    chain (Z.of_nat (length content)) cursor spans ->
    Forall (fun sp => sp.2 = slice content sp.1.1 sp.1.2) spans ->
    rewritten content cursor spans = drop (Z.to_nat cursor) content.
Proof.
  induction spans as [|[[st en] r] spans IH]; intros c Hc Hself;
    simpl in Hc.
  - simpl. unfold slice_from. by rewrite slice_bound_range.
  - destruct Hc as (Hc & Hlt & Hch).
    pose proof (chain_bounds _ _ _ Hch) as Hen.
    apply Forall_cons in Hself as [Hr Hself]. simpl in Hr. subst r.
    cbn [rewritten]. rewrite (IH en Hch Hself).
    unfold slice. rewrite !slice_bound_range by lia.
    replace (drop (Z.to_nat en) content)
      with (drop (Z.to_nat en - Z.to_nat st) (drop (Z.to_nat st) content))
      by (rewrite drop_drop; f_equal; lia).
    rewrite take_drop.
    replace (drop (Z.to_nat st) content)
      with (drop (Z.to_nat st - Z.to_nat c) (drop (Z.to_nat c) content))
      by (rewrite drop_drop; f_equal; lia).
    by rewrite take_drop.
Qed.

(** With the selected first positions inside the text and pairwise
    disjoint, the rewrite is the text of the specification over the spans
    in ascending order. *)
Lemma apply_anonymization_rewritten (content : pystr) (l : list Entity) :
  Forall (in_text content) (filter (fun e => selected e = true) l) ->
  pairwise disjoint (filter (fun e => selected e = true) l) ->
  exists asc,
    asc ≡ₚ filter (fun e => selected e = true) l /\
    chain (Z.of_nat (length content)) 0 (span <$> asc) /\
    apply_anonymization content l
    = Some (rewritten content 0 (span <$> asc)).
Proof.
  intros Hin Hpw.
  destruct (sorted_desc_spec first_start (fun e => start (first_pos e))
              (filter (fun e => selected e = true) l))
    as (order & Hsort & Hperm & Hs).
  { intros e He. apply first_start_position.
    rewrite Forall_forall in Hin. by destruct (Hin e He). }
  assert (reverse order ≡ₚ filter (fun e => selected e = true) l) as Hperm_r
    by (by rewrite reverse_Permutation).
  assert (chain (Z.of_nat (length content)) 0 (span <$> reverse order))
    as Hchain.
  { apply chain_sorted.
    - lia.
    - by rewrite Hperm_r.
    - eapply pairwise_Permutation; [apply disjoint_sym| |apply Hpw]. done.
    - by apply (StronglySorted_reverse _ _ Hs).
    - rewrite Hperm_r. eapply Forall_impl; [apply Hin|].
      intros e (_ & ? & _). lia. }
  exists (reverse order). split; [done|]. split; [done|].
  unfold apply_anonymization. rewrite Hsort. cbn [mbind option_bind].
  rewrite foldl_splice.
  2:{ rewrite Hperm. eapply Forall_impl; [apply Hin|]. by intros e [? _]. }
  f_equal. rewrite <-(reverse_involutive (span <$> order)), <-fmap_reverse.
  by rewrite (splice_rewritten content (span <$> reverse order) 0 Hchain).
Qed.

(** X9: Replacing every selected span by the text it covers gives the original
    text back. *)
Theorem apply_anonymization_self_replacement
    (content : pystr) (l : list Entity) :
  Forall (in_text content) (filter (fun e => selected e = true) l) ->
  pairwise disjoint (filter (fun e => selected e = true) l) ->
  Forall (fun e => replacement e
                   = slice content (start (first_pos e)) (end_ (first_pos e)))
         (filter (fun e => selected e = true) l) ->
  apply_anonymization content l = Some content.
Proof.
  intros Hin Hpw Hself.
  destruct (apply_anonymization_rewritten content l Hin Hpw)
    as (asc & Hperm & Hchain & ->).
  f_equal. rewrite (rewritten_self content _ 0 Hchain); [done|].
  rewrite Forall_fmap, Hperm. exact Hself.
Qed.

(** *** What the rewriter reads *)

Lemma same_rewrite_input_filter (l l' : list Entity) :
  Forall2 same_rewrite_input l l' ->
  Forall2 same_rewrite_input (filter (fun e => selected e = true) l)
                             (filter (fun e => selected e = true) l').
Proof.
  induction 1 as [|e e' l l' He Hl IH]; [constructor|].
  rewrite !filter_cons. destruct He as (Hsel & Hhead & Hrepl).
  destruct (decide (selected e = true)) as [Hs|Hs].
  - rewrite decide_True by congruence. constructor; [done|exact IH].
  - rewrite decide_False by congruence. exact IH.
Qed.

Lemma same_rewrite_input_keys (l l' : list Entity) :
  Forall2 same_rewrite_input l l' ->
  mapM first_start l = mapM first_start l'.
Proof.
  induction 1 as [|e e' l l' He Hl IH]; [done|].
  destruct He as (_ & Hhead & _).
  change (mapM first_start (e :: l))
    with (y ← first_start e; k ← mapM first_start l; Some (y :: k)).
  change (mapM first_start (e' :: l'))
    with (y ← first_start e'; k ← mapM first_start l'; Some (y :: k)).
  assert (first_start e = first_start e') as ->
    by (unfold first_start; by rewrite Hhead).
  by rewrite IH.
Qed.

Lemma insert_desc_same {A} (R : A -> A -> Prop) (x x' : Z * A)
    (ps ps' : list (Z * A)) :
  same_keyed R x x' -> Forall2 (same_keyed R) ps ps' ->
  Forall2 (same_keyed R) (insert_desc x ps) (insert_desc x' ps').
Proof.
  intros Hx. induction 1 as [|y y' ps ps' Hy Hps IH]; simpl.
  - constructor; [done|constructor].
  - destruct Hx as [Hk Hx], Hy as [Hk' Hy]. rewrite <-Hk, <-Hk'.
    destruct (x.1 <? y.1).
    + constructor; [done|]. exact IH.
    + constructor; [done|]. by constructor.
Qed.

Lemma sort_desc_same {A} (R : A -> A -> Prop) (ps ps' : list (Z * A)) :
  Forall2 (same_keyed R) ps ps' ->
  Forall2 (same_keyed R) (foldr insert_desc [] ps) (foldr insert_desc [] ps').
Proof.
  induction 1 as [|y y' ps ps' Hy Hps IH]; simpl; [constructor|].
  by apply insert_desc_same.
Qed.

Lemma sorted_desc_same (l l' : list Entity) :
  Forall2 same_rewrite_input l l' ->
  option_Forall2 (Forall2 same_rewrite_input)
    (sorted_desc first_start l) (sorted_desc first_start l').
Proof.
  intros Hl. unfold sorted_desc. rewrite <-(same_rewrite_input_keys l l' Hl).
  destruct (mapM first_start l) as [keys|]; [|constructor].
  cbn [mbind option_bind]. constructor.
  assert (Forall2 (same_keyed same_rewrite_input) (zip keys l) (zip keys l'))
    as Hzip.
  { clear -Hl. revert keys.
    induction Hl as [|e e' l l' He Hl IH]; intros [|k keys]; simpl;
      try constructor; [done|apply IH]. }
  apply (sort_desc_same same_rewrite_input) in Hzip.
  induction Hzip as [|p p' ps ps' [_ Hp] _ IH]; simpl; by constructor.
Qed.

Lemma splice_same (result : pystr) (e e' : Entity) :
  same_rewrite_input e e' -> splice result e = splice result e'.
Proof. intros (_ & Hhead & Hrepl). unfold splice. by rewrite Hhead, Hrepl. Qed.

(** X10: The rewriter reads nothing but the [selected] flag, the first position
    and the replacement of an entity: the text, the type, the source, the
    identifier, the confidence and all later positions are never used. *)
Theorem apply_anonymization_reads (content : pystr) (l l' : list Entity) :
  Forall2 same_rewrite_input l l' ->
  apply_anonymization content l = apply_anonymization content l'.
Proof.
  intros Hl. unfold apply_anonymization.
  destruct (sorted_desc_same _ _ (same_rewrite_input_filter l l' Hl))
    as [order order' Horder|]; [|done].
  cbn [mbind option_bind]. generalize (Some content).
  induction Horder as [|e e' order order' He _ IH]; intros r; [done|].
  cbn [foldl]. rewrite <-IH. f_equal.
  destruct r as [r|]; [|done]. cbn [mbind option_bind].
  by apply splice_same.
Qed.

(** *** Rewriting in two passes *)

Lemma insert_desc_app_gt {A} (x : Z * A) (S T : list (Z * A)) :
  Forall (fun y => x.1 < y.1) S ->
  insert_desc x (S ++ T) = S ++ insert_desc x T.
Proof.
  induction 1 as [|y S Hy HS IH]; [done|]. simpl.
  destruct (Z.ltb_spec x.1 y.1); [|lia]. by rewrite IH.
Qed.

Lemma sort_desc_app {A} (pL pR : list (Z * A)) :
  (forall x y, x ∈ pL -> y ∈ pR -> x.1 < y.1) ->
  foldr insert_desc [] (pL ++ pR)
  = foldr insert_desc [] pR ++ foldr insert_desc [] pL.
Proof.
  induction pL as [|x pL IH]; intros Hlt; simpl; [by rewrite app_nil_r|].
  rewrite IH by (intros y z Hy Hz; apply Hlt; [by right|done]).
  apply insert_desc_app_gt. rewrite sort_desc_Permutation.
  apply Forall_forall. intros y Hy. apply Hlt; [by left|done].
Qed.

Lemma sorted_desc_keyed {A} (key : A -> option Z) (k : A -> Z) (l : list A) :
  (forall x, x ∈ l -> key x = Some (k x)) ->
  sorted_desc key l
  = Some ((foldr insert_desc [] ((fun x => (k x, x)) <$> l)).*2).
Proof.
  intros Hkey. unfold sorted_desc.
  assert (mapM key l = Some (k <$> l)) as ->.
  { apply mapM_Some_2, Forall2_fmap_r, Forall_Forall2_diag, Forall_forall.
    intros x Hx. by apply Hkey. }
  cbn [mbind option_bind]. by rewrite zip_with_fmap_l, zip_with_diag.
Qed.

Lemma apply_anonymization_missing (content : pystr) (l : list Entity) :
  Exists (fun e => selected e = true /\ positions e = []) l ->
  apply_anonymization content l = None.
Proof.
  intros Hex. unfold apply_anonymization.
  assert (sorted_desc first_start (filter (fun e => selected e = true) l)
          = None) as ->; [|done].
  unfold sorted_desc.
  assert (mapM first_start (filter (fun e => selected e = true) l) = None)
    as ->; [|done].
  apply mapM_None_2, Exists_exists.
  apply Exists_exists in Hex as (e & He & Hsel & Hpos).
  exists e. split; [by apply list_elem_of_filter|].
  unfold first_start. by rewrite Hpos.
Qed.

Lemma apply_anonymization_keyed (content : pystr) (l : list Entity) :
  Forall has_position (filter (fun e => selected e = true) l) ->
  apply_anonymization content l
  = Some (foldl splice_span content
            (span <$> (foldr insert_desc []
                         ((fun e => (start (first_pos e), e))
                            <$> filter (fun e => selected e = true) l)).*2)).
Proof.
  intros Hpos. unfold apply_anonymization.
  rewrite (sorted_desc_keyed first_start (fun e => start (first_pos e))).
  2:{ intros e He. apply first_start_position.
      rewrite Forall_forall in Hpos. by apply Hpos. }
  cbn [mbind option_bind]. apply foldl_splice.
  rewrite Forall_fmap. rewrite sort_desc_Permutation, Forall_fmap.
  exact Hpos.
Qed.

(** X11: The rewrite can be done in two passes: when every selected entity of
    [left] starts before every selected entity of [right], rewriting with
    both lists is rewriting with [right] and then, on the result, with
    [left].  The error case composes in the same way. *)
Theorem apply_anonymization_app (content : pystr) (left right : list Entity) :
  (forall e e', e ∈ left -> e' ∈ right ->
     selected e = true -> selected e' = true ->
     start (first_pos e) < start (first_pos e')) ->
  apply_anonymization content (left ++ right)
  = content' ← apply_anonymization content right;
    apply_anonymization content' left.
Proof.
  intros Hlt.
  destruct (selected_all_or_missing right) as [Hr|Hr].
  2:{ rewrite (apply_anonymization_missing content right Hr).
      apply apply_anonymization_missing, Exists_app. by right. }
  rewrite (apply_anonymization_keyed content right Hr).
  cbn [mbind option_bind].
  destruct (selected_all_or_missing left) as [Hl|Hl].
  2:{ rewrite (apply_anonymization_missing _ left Hl).
      apply apply_anonymization_missing, Exists_app. by left. }
  rewrite (apply_anonymization_keyed _ left Hl).
  rewrite apply_anonymization_keyed by (rewrite filter_app; by apply Forall_app).
  f_equal. rewrite filter_app, fmap_app, sort_desc_app.
  - by rewrite !fmap_app, foldl_app.
  - intros x y [e [-> He]]%list_elem_of_fmap [e' [-> He']]%list_elem_of_fmap.
    apply list_elem_of_filter in He as [Hs He].
    apply list_elem_of_filter in He' as [Hs' He']. simpl. by apply Hlt.
Qed.

(** ** The NER adapter: counters, names and errors *)

Section NER.
Context `{Spacy}.

Lemma ner_loop_None (ids : nat -> pystr) (base : nat) (spans : list Span)
    (self : NERService) :
  foldl (ner_step ids base) (None, self) spans = (None, self).
Proof. induction spans as [|sp spans IH]; [done|]. exact IH. Qed.

Lemma py_chr_Some (n : Z) (c : N) :
  py_chr n = Some c -> c = Z.to_N n /\ 0 <= n < 1114112.
Proof.
  unfold py_chr.
  destruct (Z.leb_spec 0 n), (Z.ltb_spec n 1114112); simpl; try done.
  intros [= <-]. split; [done|lia].
Qed.

Lemma count_label_cons (lbl : string) (sp : Span) (spans : list Span) :
  count_label lbl (sp :: spans)
  = if decide (label_ sp = lit lbl) then S (count_label lbl spans)
    else count_label lbl spans.
Proof. unfold count_label. rewrite filter_cons. by destruct (decide _). Qed.

Lemma shifted_names (f : Z -> pystr) (n : Z) (k : nat) :
  (fun j => f (n + Z.of_nat j)) <$> seq 1 k
  = (fun j => f (n + 1 + Z.of_nat j)) <$> seq 0 k.
Proof.
  rewrite <-fmap_S_seq, <-list_fmap_compose. apply list_fmap_ext.
  intros i j _. simpl. f_equal. lia.
Qed.

(** The loop over [doc.ents] when it completes: one entity for each span
    labelled [PER] or [ORG], in order, named from the counters on, and the
    counters moved on by the numbers of such spans. *)
Lemma ner_loop_spec (ids : nat -> pystr) (base : nat) (spans : list Span) :
  forall ents0 self0 ents self',
    foldl (ner_step ids base) (Some ents0, self0) spans = (Some ents, self') ->
    exists new,
      ents = ents0 ++ new /\
      person_counter self'
      = person_counter self0 + Z.of_nat (count_label "PER" spans) /\
      org_counter self'
      = org_counter self0 + Z.of_nat (count_label "ORG" spans) /\
      length new = (count_label "PER" spans + count_label "ORG" spans)%nat /\
      Forall ner_entity_ok new /\
      replacement <$> filter (fun e => type e = EntityType.PERSON) new
      = (fun j => person_name (person_counter self0 + Z.of_nat j))
          <$> seq 0 (count_label "PER" spans) /\
      replacement <$> filter (fun e => type e = EntityType.ORGANIZATION) new
      = (fun j => organisation_name (org_counter self0 + Z.of_nat j))
          <$> seq 0 (count_label "ORG" spans) /\
      id <$> new = ids <$> seq (base + length ents0) (length new).
Proof.
  induction spans as [|sp spans IH]; intros ents0 self0 ents self' Hloop.
  - simpl in Hloop. injection Hloop as <- <-. exists [].
    rewrite app_nil_r. change (count_label "PER" []) with 0%nat.
    change (count_label "ORG" []) with 0%nat.
    repeat split; simpl; try lia; try done.
  - cbn [foldl] in Hloop. rewrite !count_label_cons.
    unfold ner_step at 2 in Hloop.
    destruct (decide (label_ sp = lit "PER")) as [Hper|Hper].
    + rewrite decide_False by (rewrite Hper; done).
      destruct (py_chr (64 + person_counter self0)) as [c|] eqn:Hc;
        [|by rewrite ner_loop_None in Hloop].
      apply py_chr_Some in Hc as [-> _].
      apply IH in Hloop
        as (new & -> & Hpc & Hoc & Hlen & Hok & Hp & Ho & Hids).
      cbn [person_counter org_counter] in Hpc, Hoc, Hp, Ho.
      rewrite length_app in Hids. cbn [length] in Hids.
      eexists (_ :: new). split; [by rewrite <-app_assoc|].
      split; [lia|]. split; [lia|]. split; [simpl; lia|].
      split; [constructor; [|done]; repeat split; eauto|].
      split; [|split].
      * rewrite filter_cons, decide_True by done. cbn [fmap list_fmap seq].
        f_equal.
        { cbn [replacement]. unfold person_name.
          change (Z.of_nat 0) with 0. by rewrite Z.add_0_r. }
        rewrite Hp. symmetry. apply (shifted_names person_name).
      * rewrite filter_cons, decide_False by done. exact Ho.
      * cbn [fmap list_fmap length seq]. f_equal.
        rewrite Hids. do 2 f_equal. lia.
    + destruct (decide (label_ sp = lit "ORG")) as [Horg|Horg].
      * destruct (py_chr (64 + org_counter self0)) as [c|] eqn:Hc;
          [|by rewrite ner_loop_None in Hloop].
        apply py_chr_Some in Hc as [-> _].
        apply IH in Hloop
          as (new & -> & Hpc & Hoc & Hlen & Hok & Hp & Ho & Hids).
        cbn [person_counter org_counter] in Hpc, Hoc, Hp, Ho.
        rewrite length_app in Hids. cbn [length] in Hids.
        eexists (_ :: new). split; [by rewrite <-app_assoc|].
        split; [lia|]. split; [lia|]. split; [simpl; lia|].
        split; [constructor; [|done]; repeat split; eauto|].
        split; [|split].
        -- rewrite filter_cons, decide_False by done. exact Hp.
        -- rewrite filter_cons, decide_True by done. cbn [fmap list_fmap seq].
           f_equal.
           { cbn [replacement]. unfold organisation_name.
             change (Z.of_nat 0) with 0. by rewrite Z.add_0_r. }
           rewrite Ho. symmetry. apply (shifted_names organisation_name).
        -- cbn [fmap list_fmap length seq]. f_equal.
           rewrite Hids. do 2 f_equal. lia.
      * apply IH in Hloop
          as (new & -> & Hpc & Hoc & Hlen & Hok & Hp & Ho & Hids).
        exists new. done.
Qed.

(** X12: A call that returns has built one entity for each span labelled [PER]
    or [ORG], each with one position and the source [NER], and has moved
    the counters of the shared service on by the numbers of these spans:
    the counters only grow from call to call. *)
Theorem ner_extract_entities_counters (ids : nat -> pystr) (base : nat)
    (self self' : NERService) (text : pystr)
    (model : pystr -> list Span) (ents : list Entity) :
  nlp = Some model ->
  ner_extract_entities ids base self text = (Some ents, self') ->
  person_counter self'
  = person_counter self + Z.of_nat (count_label "PER" (model text)) /\
  org_counter self'
  = org_counter self + Z.of_nat (count_label "ORG" (model text)) /\
  length ents
  = (count_label "PER" (model text) + count_label "ORG" (model text))%nat /\
  Forall ner_entity_ok ents.
Proof.
  intros Hnlp. unfold ner_extract_entities. rewrite Hnlp. intros Hloop.
  apply ner_loop_spec in Hloop
    as (new & -> & Hpc & Hoc & Hlen & Hok & _). done.
Qed.

(** X13: The names given in one call: the persons, in order, get the letters
    from [chr(64 + person_counter)] on, where [person_counter] is the value
    the shared service holds when the call starts, and the organizations
    likewise from [org_counter] on. *)
Theorem ner_extract_entities_names (ids : nat -> pystr) (base : nat)
    (self self' : NERService) (text : pystr)
    (model : pystr -> list Span) (ents : list Entity) :
  nlp = Some model ->
  ner_extract_entities ids base self text = (Some ents, self') ->
  replacement <$> filter (fun e => type e = EntityType.PERSON) ents
  = (fun j => person_name (person_counter self + Z.of_nat j))
      <$> seq 0 (count_label "PER" (model text)) /\
  replacement <$> filter (fun e => type e = EntityType.ORGANIZATION) ents
  = (fun j => organisation_name (org_counter self + Z.of_nat j))
      <$> seq 0 (count_label "ORG" (model text)).
Proof.
  intros Hnlp. unfold ner_extract_entities. rewrite Hnlp. intros Hloop.
  apply ner_loop_spec in Hloop
    as (new & -> & _ & _ & _ & _ & Hp & Ho & _). done.
Qed.

(** The loop completes when [chr] is defined on all the counter values it
    meets. *)
Lemma ner_loop_returns (ids : nat -> pystr) (base : nat) (spans : list Span) :
  forall ents0 self0,
    0 <= 64 + person_counter self0 ->
    64 + person_counter self0 + Z.of_nat (count_label "PER" spans)
      <= 1114112 ->
    0 <= 64 + org_counter self0 ->
    64 + org_counter self0 + Z.of_nat (count_label "ORG" spans) <= 1114112 ->
    exists ents self',
      foldl (ner_step ids base) (Some ents0, self0) spans = (Some ents, self').
Proof.
  induction spans as [|sp spans IH]; intros ents0 self0 Hp0 Hp1 Ho0 Ho1.
  - by eexists _, _.
  - rewrite !count_label_cons in Hp1, Ho1. cbn [foldl]. unfold ner_step at 2.
    destruct (decide (label_ sp = lit "PER")) as [Hper|Hper].
    + unfold py_chr.
      destruct (Z.leb_spec 0 (64 + person_counter self0)); [|lia].
      destruct (Z.ltb_spec (64 + person_counter self0) 1114112); [|lia].
      cbn [andb]. apply IH; cbn [person_counter org_counter]; try lia.
      rewrite decide_False in Ho1 by (rewrite Hper; done). lia.
    + destruct (decide (label_ sp = lit "ORG")) as [Horg|Horg].
      * unfold py_chr.
        destruct (Z.leb_spec 0 (64 + org_counter self0)); [|lia].
        destruct (Z.ltb_spec (64 + org_counter self0) 1114112); [|lia].
        cbn [andb]. apply IH; cbn [person_counter org_counter]; lia.
      * by apply IH.
Qed.

(** While [chr] is undefined on the person counter, the counter stays as
    it is and a span labelled [PER] makes the loop raise. *)
Lemma ner_step_chr_fails (ids : nat -> pystr) (base : nat) (pc : Z)
    (st : option (list Entity) * NERService) (sp : Span) :
  py_chr (64 + pc) = None ->
  person_counter st.2 = pc ->
  person_counter (ner_step ids base st sp).2 = pc /\
  (st.1 = None \/ label_ sp = lit "PER" ->
   (ner_step ids base st sp).1 = None).
Proof.
  intros Hchr Hpc. destruct st as [[ents|] self]; simpl in Hpc; [|done].
  unfold ner_step.
  destruct (decide (label_ sp = lit "PER")) as [Hper|Hper].
  - by rewrite Hpc, Hchr.
  - destruct (decide (label_ sp = lit "ORG")) as [Horg|Horg].
    + destruct (py_chr (64 + org_counter self)); simpl;
        (split; [done|]); intros [?|?]; done.
    + simpl. split; [done|]. intros [?|?]; done.
Qed.

Lemma ner_loop_chr_fails (ids : nat -> pystr) (base : nat)
    (spans : list Span) (pc : Z) :
  py_chr (64 + pc) = None ->
  forall st,
    person_counter st.2 = pc ->
    person_counter (foldl (ner_step ids base) st spans).2 = pc /\
    (st.1 = None \/ Exists (fun sp => label_ sp = lit "PER") spans ->
     (foldl (ner_step ids base) st spans).1 = None).
Proof.
  intros Hchr. induction spans as [|sp spans IH]; intros st Hpc.
  - simpl. split; [done|]. intros [?|Hex]; [done|]. by apply Exists_nil in Hex.
  - cbn [foldl].
    destruct (ner_step_chr_fails ids base pc st sp Hchr Hpc) as [Hc1 Hn1].
    destruct (IH (ner_step ids base st sp) Hc1) as [Hc Hn].
    split; [done|]. intros [Hst|Hex]; apply Hn.
    + left. apply Hn1. by left.
    + apply Exists_cons in Hex as [Hsp|Hex]; [|by right].
      left. apply Hn1. by right.
Qed.

(** X14: Once the person counter of the shared service has left the range of
    [chr], every call on a text with a person raises and leaves the counter
    where it is: the service does not recover. *)
Theorem ner_extract_entities_chr_fails (ids : nat -> pystr) (base : nat)
    (self : NERService) (text : pystr) (model : pystr -> list Span) :
  nlp = Some model ->
  py_chr (64 + person_counter self) = None ->
  Exists (fun sp => label_ sp = lit "PER") (model text) ->
  (ner_extract_entities ids base self text).1 = None /\
  person_counter (ner_extract_entities ids base self text).2
  = person_counter self.
Proof.
  intros Hnlp Hchr Hex. unfold ner_extract_entities. rewrite Hnlp.
  destruct (ner_loop_chr_fails ids base (model text) _ Hchr (Some [], self)
              eq_refl) as [Hc Hn].
  split; [|done]. apply Hn. by right.
Qed.

End NER.

(** ** The matcher: where matches lie *)

Section MatcherBounds.
Context `{Unicode} (ic : bool) (s : pystr).

Lemma repeat_loop_advances
    (body : (nat -> option nat) -> nat -> option nat) (m lo : nat)
    (hi : option nat) (k : nat -> option nat) :
  (forall k' i e, body k' i = Some e ->
     exists j, (i + m <= j)%nat /\ ((i <= length s)%nat -> (j <= length s)%nat) /\
               k' j = Some e) ->
  forall fuel count i e,
    repeat_loop body lo hi k fuel count i = Some e ->
    exists j, (i + (lo - count) * m <= j)%nat /\
              ((i <= length s)%nat -> (j <= length s)%nat) /\ k j = Some e.
Proof.
  intros Hbody.
  assert (forall count i e,
            (if (lo <=? count)%nat then k i else None) = Some e ->
            exists j, (i + (lo - count) * m <= j)%nat /\
                      ((i <= length s)%nat -> (j <= length s)%nat) /\
                      k j = Some e) as Hstop.
  { intros count i e. destruct (Nat.leb_spec lo count) as [Hle|]; [|done].
    intros Hk. exists i. replace (lo - count)%nat with 0%nat by lia.
    split; [simpl; lia|done]. }
  induction fuel as [|fuel IH]; intros count i e Hloop;
    cbn [repeat_loop] in Hloop; [by apply Hstop|].
  destruct (match hi with Some h => (count <? h)%nat | None => true end);
    [|by apply Hstop].
  destruct (body _ i) as [e0|] eqn:Hb; [|by apply Hstop].
  injection Hloop as ->.
  apply Hbody in Hb as (j1 & Hj1 & Hlen1 & Hk1).
  destruct ((lo <=? count)%nat && (j1 =? i)%nat); [done|].
  apply IH in Hk1 as (j & Hj & Hlen & Hk).
  exists j. split; [|split; [|done]].
  - destruct (Nat.le_gt_cases lo count) as [Hle|Hgt].
    + replace (lo - count)%nat with 0%nat by lia. simpl. lia.
    + replace (lo - count)%nat with (S (lo - S count)) by lia.
      rewrite Nat.mul_succ_l. lia.
  - intros Hi. apply Hlen, Hlen1, Hi.
Qed.

(** A match of [r] from offset [i] hands over to its continuation at
    least [min_len r] characters further on, and inside the text. *)
Lemma rmatch_advances (r : regex) : forall k i e,
  rmatch ic s r k i = Some e ->
  exists j, (i + min_len r <= j)%nat /\
            ((i <= length s)%nat -> (j <= length s)%nat) /\ k j = Some e.
Proof.
  induction r as [|p|items| |r1 IH1 r2 IH2|r1 IH1 r2 IH2|lo hi r' IH];
    intros k i e Hm; cbn [rmatch min_len] in *.
  - exists i. split; [lia|done].
  - destruct (s !! i) as [c|] eqn:Hc; [|done].
    destruct (lit_match ic p c); [|done].
    apply lookup_lt_Some in Hc. exists (S i). split; [lia|]. split; [lia|done].
  - destruct (s !! i) as [c|] eqn:Hc; [|done].
    destruct (set_match ic items c); [|done].
    apply lookup_lt_Some in Hc. exists (S i). split; [lia|]. split; [lia|done].
  - destruct (at_boundary s i); [|done]. exists i. split; [lia|done].
  - apply IH1 in Hm as (j1 & Hj1 & Hl1 & Hm).
    apply IH2 in Hm as (j & Hj & Hl & Hk).
    exists j. split; [lia|]. split; [|done]. intros Hi. by apply Hl, Hl1.
  - destruct (rmatch ic s r1 k i) as [e1|] eqn:H1.
    + injection Hm as ->. apply IH1 in H1 as (j & Hj & Hl & Hk).
      exists j. split; [lia|done].
    + apply IH2 in Hm as (j & Hj & Hl & Hk). exists j. split; [lia|done].
  - apply (repeat_loop_advances _ (min_len r') lo hi k IH) in Hm
      as (j & Hj & Hl & Hk).
    exists j. rewrite Nat.sub_0_r in Hj. split; [lia|done].
Qed.

Lemma rmatch_span (r : regex) (pos e : nat) :
  (pos <= length s)%nat -> rmatch ic s r Some pos = Some e ->
  (pos + min_len r <= e)%nat /\ (e <= length s)%nat.
Proof.
  intros Hpos Hm. apply rmatch_advances in Hm as (j & Hj & Hl & [= ->]).
  split; [done|by apply Hl].
Qed.

(** The matches of [finditer] lie in the text, are at least [min_len r]
    long, come in ascending order and do not overlap. *)
Lemma finditer_from_spans (r : regex) : forall fuel pos,
  Forall (fun m => (pos <= m.1)%nat /\ (m.1 + min_len r <= m.2)%nat /\
                   (m.2 <= length s)%nat)
         (finditer_from ic s r fuel pos) /\
  StronglySorted match_before (finditer_from ic s r fuel pos).
Proof.
  induction fuel as [|fuel IH]; intros pos; cbn [finditer_from];
    [split; constructor|].
  destruct (Nat.ltb_spec (length s) pos) as [|Hpos]; [split; constructor|].
  destruct (rmatch ic s r Some pos) as [e|] eqn:Hm.
  - apply (rmatch_span r pos e Hpos) in Hm as [Hmin Hlen].
    set (next := if (e =? pos)%nat then S pos else e).
    assert (e <= next /\ pos < next)%nat as [Hn1 Hn2]
      by (subst next; destruct (Nat.eqb_spec e pos); lia).
    destruct (IH next) as [Hall Hsorted]. split.
    + constructor; [simpl; lia|].
      eapply Forall_impl; [apply Hall|]. intros m (? & ? & ?). lia.
    + constructor; [done|].
      eapply Forall_impl; [apply Hall|]. intros m (? & ? & ?).
      unfold match_before. simpl. lia.
  - destruct (IH (S pos)) as [Hall Hsorted]. split; [|done].
    eapply Forall_impl; [apply Hall|]. intros m (? & ? & ?). lia.
Qed.

Lemma finditer_spans (r : regex) (m : nat * nat) :
  m ∈ finditer ic s r ->
  (m.1 + min_len r <= m.2)%nat /\ (m.2 <= length s)%nat.
Proof.
  intros Hm. destruct (finditer_from_spans r (S (length s)) 0) as [Hall _].
  rewrite Forall_forall in Hall. by destruct (Hall m Hm) as (_ & ? & ?).
Qed.

End MatcherBounds.

(** ** The pattern extractor: what its entities are *)

Section Extractor.
Context `{Unicode}.

Lemma scan_matches (ids : nat -> pystr) (ic : bool) (s : pystr)
    (ty : EntityType.t) (repl : pystr) (r : regex) :
  forall acc, exists new,
    scan ids ic s ty repl acc r = acc ++ new /\
    Forall2 (fun e m => exists n, e = regex_entity ids n s ty repl m)
            new (finditer ic s r) /\
    id <$> new = ids <$> seq (length acc) (length new).
Proof.
  unfold scan. generalize (finditer ic s r). intros ms.
  induction ms as [|m ms IH]; intros acc.
  - exists []. rewrite app_nil_r. split; [done|]. split; [constructor|done].
  - cbn [foldl].
    destruct (IH (acc ++ [regex_entity ids (length acc) s ty repl m]))
      as (new & -> & Hnew & Hids).
    exists (regex_entity ids (length acc) s ty repl m :: new).
    split; [by rewrite <-app_assoc|]. split; [constructor; [by eexists|done]|].
    rewrite length_app, Nat.add_1_r in Hids.
    cbn [fmap list_fmap length seq]. f_equal. exact Hids.
Qed.

Lemma Forall2_both {A B} (P : A -> B -> Prop) (l : list A) (k : list B) :
  Forall2 P l k ->
  Forall (fun a => exists b, b ∈ k /\ P a b) l /\
  (forall b, b ∈ k -> exists a, a ∈ l /\ P a b).
Proof.
  induction 1 as [|a b l k Hab _ [IH1 IH2]].
  - split; [constructor|]. intros b Hb. by apply elem_of_nil in Hb.
  - split.
    + constructor.
      * exists b. split; [left|done].
      * eapply Forall_impl; [exact IH1|].
        intros a' (b' & Hb' & HP). exists b'. split; [by right|done].
    + intros b' Hb'. apply elem_of_cons in Hb' as [->|Hb'].
      * exists a. split; [left|done].
      * destruct (IH2 b' Hb') as (a' & Ha' & HP).
        exists a'. split; [by right|done].
Qed.

Lemma scan_stage (ids : nat -> pystr) (ic : bool) (s : pystr)
    (ty : EntityType.t) (repl : pystr) (r : regex) (acc : list Entity) :
  exists new,
    scan ids ic s ty repl acc r = acc ++ new /\
    stage ids s ic ty repl [r] new /\
    id <$> new = ids <$> seq (length acc) (length new).
Proof.
  destruct (scan_matches ids ic s ty repl r acc) as (new & Hscan & Hm & Hids).
  exists new. split; [done|]. split; [|done].
  apply Forall2_both in Hm as [H1 H2]. split.
  - eapply Forall_impl; [exact H1|].
    intros e (m & Hm & n & ->). exists r, m, n.
    split; [apply list_elem_of_singleton; done|done].
  - intros r' m Hr' Hm. apply list_elem_of_singleton in Hr' as ->.
    destruct (H2 m Hm) as (e & He & n & ->). by exists n.
Qed.

Lemma stage_app (ids : nat -> pystr) (ic : bool) (s : pystr)
    (ty : EntityType.t) (repl : pystr) (rs rs' : list regex)
    (new new' : list Entity) :
  stage ids s ic ty repl rs new -> stage ids s ic ty repl rs' new' ->
  stage ids s ic ty repl (rs ++ rs') (new ++ new').
Proof.
  intros [H1 H2] [H1' H2']. split.
  - apply Forall_app. split.
    + eapply Forall_impl; [exact H1|].
      intros e (r & m & n & Hr & Hm & ->). exists r, m, n.
      split; [apply elem_of_app; by left|done].
    + eapply Forall_impl; [exact H1'|].
      intros e (r & m & n & Hr & Hm & ->). exists r, m, n.
      split; [apply elem_of_app; by right|done].
  - intros r m Hr Hm. apply elem_of_app in Hr as [Hr|Hr].
    + destruct (H2 r m Hr Hm) as [n Hn]. exists n. apply elem_of_app. by left.
    + destruct (H2' r m Hr Hm) as [n Hn]. exists n. apply elem_of_app. by right.
Qed.

Lemma scans_stage (ids : nat -> pystr) (ic : bool) (s : pystr)
    (ty : EntityType.t) (repl : pystr) (rs : list regex) :
  forall acc, exists new,
    foldl (scan ids ic s ty repl) acc rs = acc ++ new /\
    stage ids s ic ty repl rs new /\
    id <$> new = ids <$> seq (length acc) (length new).
Proof.
  induction rs as [|r rs IH]; intros acc.
  - exists []. rewrite app_nil_r. split; [done|]. split; [|done].
    split; [constructor|]. intros r m Hr. by apply elem_of_nil in Hr.
  - cbn [foldl].
    destruct (scan_stage ids ic s ty repl r acc) as (new & -> & Hst & Hids).
    destruct (IH (acc ++ new)) as (new' & -> & Hst' & Hids').
    exists (new ++ new'). split; [by rewrite <-app_assoc|]. split.
    + exact (stage_app ids ic s ty repl [r] rs new new' Hst Hst').
    + rewrite fmap_app, length_app, seq_app, fmap_app, Hids.
      rewrite length_app in Hids'. by rewrite Hids'.
Qed.

Lemma span_before_matches (ids : nat -> pystr) (s : pystr)
    (ty ty' : EntityType.t) (repl repl' : pystr) (n n' : nat)
    (m m' : nat * nat) :
  match_before m m' ->
  span_before (regex_entity ids n s ty repl m)
              (regex_entity ids n' s ty' repl' m').
Proof. unfold match_before, span_before. cbn. lia. Qed.

Lemma scan_sorted (ids : nat -> pystr) (s : pystr) (ty : EntityType.t)
    (repl : pystr) (new : list Entity) (ms : list (nat * nat)) :
  Forall2 (fun e m => exists n, e = regex_entity ids n s ty repl m) new ms ->
  StronglySorted match_before ms -> StronglySorted span_before new.
Proof.
  induction 1 as [|e m new ms [n ->] Hnew IH]; intros Hs; [constructor|].
  apply StronglySorted_inv in Hs as [Hs Hm]. constructor; [by apply IH|].
  apply Forall2_both in Hnew as [Hnew _].
  eapply Forall_impl; [exact Hnew|].
  intros e' (m' & Hm' & n' & ->). apply span_before_matches.
  rewrite Forall_forall in Hm. by apply Hm.
Qed.

Lemma scan_siret_sorted (ids : nat -> pystr) (s : pystr)
    (ms : list (nat * nat)) :
  Forall (fun m => is_Some (luhn_check (group s m))) ms ->
  StronglySorted match_before ms ->
  forall acc, exists new,
    foldl (fun acc m =>
             acc ← acc;
             ok ← luhn_check (group s m);
             if ok : bool then
               Some (acc ++ [regex_entity ids (length acc) s EntityType.SIRET
                               (lit "[SIRET Anonymisé]") m])
             else Some acc)
          (Some acc) ms = Some (acc ++ new) /\
    id <$> new = ids <$> seq (length acc) (length new) /\
    Forall (fun e => exists m n, m ∈ ms /\
              e = regex_entity ids n s EntityType.SIRET
                    (lit "[SIRET Anonymisé]") m) new /\
    StronglySorted span_before new.
Proof.
  induction ms as [|m ms IH]; intros Hms Hs acc.
  - exists []. rewrite app_nil_r. repeat split; constructor.
  - apply Forall_cons in Hms as [[ok Hok] Hms].
    apply StronglySorted_inv in Hs as [Hs Hm]. cbn [foldl].
    cbn [mbind option_bind]. rewrite Hok. cbn [mbind option_bind].
    destruct ok.
    + destruct (IH Hms Hs (acc ++ [regex_entity ids (length acc) s
                                  EntityType.SIRET (lit "[SIRET Anonymisé]") m]))
        as (new & Hfold & Hids & Hfrom & Hsorted).
      exists (regex_entity ids (length acc) s EntityType.SIRET
                (lit "[SIRET Anonymisé]") m :: new).
      split; [by rewrite Hfold, <-app_assoc|]. split; [|split].
      * rewrite length_app, Nat.add_1_r in Hids.
        cbn [fmap list_fmap length seq]. f_equal. exact Hids.
      * constructor; [exists m, (length acc); split; [left|done]|].
        eapply Forall_impl; [exact Hfrom|].
        intros e (m' & n' & Hm' & ->). exists m', n'. split; [by right|done].
      * constructor; [done|]. eapply Forall_impl; [exact Hfrom|].
        intros e (m' & n' & Hm' & ->). apply span_before_matches.
        rewrite Forall_forall in Hm. by apply Hm.
    + destruct (IH Hms Hs acc) as (new & Hfold & Hids & Hfrom & Hsorted).
      exists new. repeat split; [done..| |done].
      eapply Forall_impl; [exact Hfrom|].
      intros e (m' & n' & Hm' & ->). exists m', n'. split; [by right|done].
Qed.

(** The result of [extract_entities], loop by loop. *)
Lemma extract_entities_stages (ids : nat -> pystr) (text : pystr) :
  exists phones emails sirets ssns addresses legals,
    extract_entities ids text
    = Some (phones ++ emails ++ sirets ++ ssns ++ addresses ++ legals) /\
    stage ids text false EntityType.PHONE _generate_phone_replacement
          phone_patterns phones /\
    stage ids text false EntityType.EMAIL (lit "[email.anonymise@exemple.fr]")
          [email_pattern] emails /\
    (forall e, e ∈ sirets -> exists m n,
       m ∈ finditer false text siret_pattern /\
       luhn_check (group text m) = Some true /\
       e = regex_entity ids n text EntityType.SIRET
             (lit "[SIRET Anonymisé]") m) /\
    stage ids text false EntityType.SSN (lit "[N° Sécurité Sociale Anonymisé]")
          [ssn_pattern] ssns /\
    stage ids text true EntityType.ADDRESS (lit "[Adresse Anonymisée]")
          address_patterns addresses /\
    stage ids text true EntityType.LEGAL (lit "[Référence Anonymisée]")
          legal_patterns legals /\
    id <$> (phones ++ emails ++ sirets ++ ssns ++ addresses ++ legals)
    = ids <$> seq 0 (length (phones ++ emails ++ sirets ++ ssns
                               ++ addresses ++ legals)) /\
    StronglySorted span_before emails /\
    StronglySorted span_before sirets /\
    StronglySorted span_before ssns.
Proof.
  unfold extract_entities. cbn zeta.
  destruct (scans_stage ids false text EntityType.PHONE
              _generate_phone_replacement phone_patterns [])
    as (phones & -> & Hphones & Ip).
  rewrite app_nil_l. cbn [length] in Ip.
  destruct (scan_stage ids false text EntityType.EMAIL
              (lit "[email.anonymise@exemple.fr]") email_pattern phones)
    as (emails & Hscan & Hemails & Ie).
  destruct (scan_matches ids false text EntityType.EMAIL
              (lit "[email.anonymise@exemple.fr]") email_pattern phones)
    as (emails' & Hscan' & Hme & _).
  rewrite Hscan in Hscan'. apply app_inv_head in Hscan'. subst emails'.
  rewrite Hscan. clear Hscan.
  unfold scan_siret.
  assert (Forall (fun m => is_Some (luhn_check (group text m)))
                 (finditer false text siret_pattern)) as Hnum.
  { apply Forall_forall. intros m Hm.
    apply finditer_siret_sound in Hm as [Hrun Hend].
    apply luhn_check_numeric. destruct m as [a b]. simpl in Hend. subst b.
    by apply run_group_numeric. }
  destruct (scan_siret_fold ids text (finditer false text siret_pattern) Hnum
              (phones ++ emails)) as (sirets & Hfold & Hfrom & _).
  destruct (scan_siret_sorted ids text (finditer false text siret_pattern) Hnum
              (proj2 (finditer_from_spans false text siret_pattern _ _))
              (phones ++ emails)) as (sirets' & Hfold' & Is & _ & Hss).
  rewrite Hfold in Hfold'. injection Hfold' as Heq.
  apply app_inv_head in Heq. subst sirets'. rewrite Hfold.
  cbn [mbind option_bind].
  destruct (scan_stage ids false text EntityType.SSN
              (lit "[N° Sécurité Sociale Anonymisé]") ssn_pattern
              ((phones ++ emails) ++ sirets)) as (ssns & Hscan & Hssns & Iss).
  destruct (scan_matches ids false text EntityType.SSN
              (lit "[N° Sécurité Sociale Anonymisé]") ssn_pattern
              ((phones ++ emails) ++ sirets)) as (ssns' & Hscan' & Hms & _).
  rewrite Hscan in Hscan'. apply app_inv_head in Hscan'. subst ssns'.
  rewrite Hscan. clear Hscan.
  destruct (scans_stage ids true text EntityType.ADDRESS
              (lit "[Adresse Anonymisée]") address_patterns
              (((phones ++ emails) ++ sirets) ++ ssns))
    as (addresses & -> & Haddresses & Ia).
  destruct (scans_stage ids true text EntityType.LEGAL
              (lit "[Référence Anonymisée]") legal_patterns
              ((((phones ++ emails) ++ sirets) ++ ssns) ++ addresses))
    as (legals & -> & Hlegals & Il).
  exists phones, emails, sirets, ssns, addresses, legals.
  split; [by rewrite <-!app_assoc|].
  do 6 (split; [done|]). split; [|split; [|split; [done|]]].
  - rewrite !fmap_app, Ip, Ie, Is, Iss, Ia, Il.
    rewrite !length_app, !seq_app, !fmap_app. cbn [Nat.add].
    repeat f_equal; lia.
  - eapply scan_sorted; [exact Hme|].
    apply (proj2 (finditer_from_spans false text email_pattern _ _)).
  - eapply scan_sorted; [exact Hms|].
    apply (proj2 (finditer_from_spans false text ssn_pattern _ _)).
Qed.

Lemma pattern_rules_check :
  forallb (fun x : EntityType.t * pystr * bool * regex =>
             (1 <=? min_len x.2)%nat &&
             bool_decide ((x.1.1.1, x.1.1.2) ∈ pattern_replacements))
          pattern_rules = true.
Proof. vm_compute. reflexivity. Qed.

Lemma pattern_rules_consume (ty : EntityType.t) (repl : pystr) (ic : bool)
    (r : regex) :
  (ty, repl, ic, r) ∈ pattern_rules ->
  (1 <= min_len r)%nat /\ (ty, repl) ∈ pattern_replacements.
Proof.
  intros Hin. apply list_elem_of_In in Hin.
  pose proof (proj1 (forallb_forall _ _) pattern_rules_check _ Hin) as Hc.
  cbn [fst snd] in Hc. apply andb_true_iff in Hc as [Hlen Hrepl].
  apply Nat.leb_le in Hlen. by apply bool_decide_eq_true in Hrepl.
Qed.

Lemma group_slice (s : pystr) (m : nat * nat) :
  (m.1 <= m.2)%nat -> (m.2 <= length s)%nat ->
  group s m = slice s (Z.of_nat m.1) (Z.of_nat m.2).
Proof.
  intros H1 H2. unfold group, slice.
  rewrite !slice_bound_range by lia. by rewrite !Nat2Z.id.
Qed.

Lemma from_rule_ok (ids : nat -> pystr) (s : pystr) (e : Entity) :
  from_rule ids s e -> pattern_entity_ok s e.
Proof.
  intros (ty & repl & ic & r & m & n & Hrule & Hm & ->).
  apply pattern_rules_consume in Hrule as [Hlen Hrepl].
  apply finditer_spans in Hm as [Hspan Hend].
  exists (Z.of_nat m.1), (Z.of_nat m.2). cbn.
  split; [done|]. split; [lia|]. split; [lia|].
  split; [apply group_slice; lia|done].
Qed.

Lemma stage_from_rule (ids : nat -> pystr) (s : pystr) (ic : bool)
    (ty : EntityType.t) (repl : pystr) (rs : list regex) (new : list Entity) :
  (forall r, r ∈ rs -> (ty, repl, ic, r) ∈ pattern_rules) ->
  stage ids s ic ty repl rs new -> Forall (from_rule ids s) new.
Proof.
  intros Hrs [Hnew _]. eapply Forall_impl; [exact Hnew|].
  intros e (r & m & n & Hr & Hm & ->).
  exists ty, repl, ic, r, m, n. split; [by apply Hrs|done].
Qed.

(** Every entity of the extractor is built for a match of one of its rules. *)
Lemma extract_entities_from_rules (ids : nat -> pystr) (text : pystr) :
  exists entities,
    extract_entities ids text = Some entities /\
    Forall (from_rule ids text) entities.
Proof.
  destruct (extract_entities_stages ids text)
    as (phones & emails & sirets & ssns & addresses & legals & Hex
        & Hp & He & Hs & Hss & Ha & Hl & _).
  eexists. split; [exact Hex|].
  rewrite !Forall_app. repeat split.
  - eapply stage_from_rule; [|exact Hp]. intros r Hr. unfold pattern_rules.
    apply elem_of_app. left.
    apply (list_elem_of_fmap_2 (fun r => (_, _, _, r)) _ _ Hr).
  - eapply stage_from_rule; [|exact He].
    intros r ->%list_elem_of_singleton. unfold pattern_rules.
    apply elem_of_app. right. apply elem_of_app. left. left.
  - apply Forall_forall. intros e Hin.
    destruct (Hs e Hin) as (m & n & Hm & _ & ->).
    exists EntityType.SIRET, (lit "[SIRET Anonymisé]"), false, siret_pattern,
      m, n.
    split; [|done]. unfold pattern_rules.
    apply elem_of_app. right. apply elem_of_app. left. right. left.
  - eapply stage_from_rule; [|exact Hss].
    intros r ->%list_elem_of_singleton. unfold pattern_rules.
    apply elem_of_app. right. apply elem_of_app. left. right. right. left.
  - eapply stage_from_rule; [|exact Ha]. intros r Hr. unfold pattern_rules.
    apply elem_of_app. right. apply elem_of_app. right.
    apply elem_of_app. left.
    apply (list_elem_of_fmap_2 (fun r => (_, _, _, r)) _ _ Hr).
  - eapply stage_from_rule; [|exact Hl]. intros r Hr. unfold pattern_rules.
    apply elem_of_app. right. apply elem_of_app. right.
    apply elem_of_app. right.
    apply (list_elem_of_fmap_2 (fun r => (_, _, _, r)) _ _ Hr).
Qed.

(** X15: [RegexService.extract_entities] returns for every text, and each of
    its entities has exactly one position [start < end] inside the text, the
    text of the entity is the slice of the document at that position, its
    source is [REGEX], its confidence 1, it is selected, and its type and
    replacement are one of the six pattern types with the fixed replacement
    of that type: the extractor never yields a person or an organisation
    and never an empty match. *)
Theorem extract_entities_invariant (ids : nat -> pystr) (text : pystr) :
  exists entities,
    extract_entities ids text = Some entities /\
    Forall (pattern_entity_ok text) entities.
Proof.
  destruct (extract_entities_from_rules ids text) as (entities & Hex & Hfrom).
  exists entities. split; [done|].
  eapply Forall_impl; [exact Hfrom|]. apply from_rule_ok.
Qed.

Lemma filter_keep {A} (P : A -> Prop) `{!forall x, Decision (P x)}
    (l : list A) :
  Forall P l -> filter P l = l.
Proof.
  induction 1 as [|x l Hx _ IH]; [done|].
  by rewrite filter_cons_True, IH.
Qed.

Lemma filter_drop {A} (P : A -> Prop) `{!forall x, Decision (P x)}
    (l : list A) :
  Forall (fun x => ~ P x) l -> filter P l = [].
Proof.
  induction 1 as [|x l Hx _ IH]; [done|].
  by rewrite filter_cons_False.
Qed.

Lemma stage_type (ids : nat -> pystr) (s : pystr) (ic : bool)
    (ty : EntityType.t) (repl : pystr) (rs : list regex) (new : list Entity) :
  stage ids s ic ty repl rs new -> Forall (fun e => type e = ty) new.
Proof.
  intros [Hnew _]. eapply Forall_impl; [exact Hnew|].
  by intros e (r & m & n & _ & _ & ->).
Qed.

(** X16: the e-mail addresses of the result of [extract_entities] are in text
    order and do not overlap one another, and so are its SIRET numbers and
    its social security numbers: each of the three comes from one
    [re.finditer] loop. *)
Theorem extract_entities_in_order (ids : nat -> pystr) (text : pystr) :
  exists entities,
    extract_entities ids text = Some entities /\
    Forall (fun ty =>
              StronglySorted span_before
                (filter (fun e => type e = ty) entities))
           [EntityType.EMAIL; EntityType.SIRET; EntityType.SSN].
Proof.
  destruct (extract_entities_stages ids text)
    as (phones & emails & sirets & ssns & addresses & legals & Hex
        & Hp%stage_type & He%stage_type & Hs & Hss%stage_type
        & Ha%stage_type & Hl%stage_type & _ & Se & Ss & Sss).
  assert (Forall (fun e => type e = EntityType.SIRET) sirets) as Hs'.
  { apply Forall_forall. intros e Hin.
    by destruct (Hs e Hin) as (m & n & _ & _ & ->). }
  eexists. split; [exact Hex|].
  repeat apply Forall_cons_2; [| | |constructor]; rewrite !filter_app.
  - rewrite (filter_keep _ emails) by done.
    rewrite !filter_drop, app_nil_r;
      [done|eapply Forall_impl; [eassumption|]; cbn; congruence..].
  - rewrite (filter_keep _ sirets) by done.
    rewrite !filter_drop, app_nil_r;
      [done|eapply Forall_impl; [eassumption|]; cbn; congruence..].
  - rewrite (filter_keep _ ssns) by done.
    rewrite !filter_drop, app_nil_r;
      [done|eapply Forall_impl; [eassumption|]; cbn; congruence..].
Qed.

End Extractor.

(** ** Requests: [process_document] as a whole *)

Section Requests.
Context `{Unicode} `{Spacy}.

Lemma extract_entities_ids (ids : nat -> pystr) (text : pystr) :
  exists entities,
    extract_entities ids text = Some entities /\
    id <$> entities = ids <$> seq 0 (length entities).
Proof.
  destruct (extract_entities_stages ids text)
    as (phones & emails & sirets & ssns & addresses & legals & Hex
        & _ & _ & _ & _ & _ & _ & Hids & _).
  eexists. split; [exact Hex|exact Hids].
Qed.

Lemma ner_extract_entities_ids (ids : nat -> pystr) (base : nat)
    (self self' : NERService) (text : pystr) (ents : list Entity) :
  ner_extract_entities ids base self text = (Some ents, self') ->
  id <$> ents = ids <$> seq base (length ents) /\ Forall has_position ents.
Proof.
  unfold ner_extract_entities. destruct nlp as [model|].
  - intros Hloop. apply ner_loop_spec in Hloop
      as (new & -> & _ & _ & _ & Hok & _ & _ & Hids).
    cbn [app length] in *. rewrite Nat.add_0_r in Hids. split; [done|].
    eapply Forall_impl; [exact Hok|].
    intros e (_ & _ & [pos Hpos] & _). unfold has_position. by rewrite Hpos.
  - intros [= <- _]. split; [done|constructor].
Qed.

(** What [process_document] deduplicates: the pattern entities, then the
    entities of the model when it was run. *)
Lemma process_document_parts (ids : nat -> pystr) (elapsed : float)
    (ner_service ner_service' : NERService) (request : DocumentRequest)
    (response : ProcessingResponse) :
  process_document ids elapsed ner_service request
  = (Some response, ner_service') ->
  exists regex_entities ner_entities,
    extract_entities ids (content request) = Some regex_entities /\
    Forall has_position ner_entities /\
    id <$> ner_entities
    = ids <$> seq (length regex_entities) (length ner_entities) /\
    entities response = keep_first (regex_entities ++ ner_entities).
Proof.
  unfold process_document.
  destruct (extract_entities_total ids (content request))
    as (regex_entities & -> & Hpos).
  destruct (bool_decide _ && bool_decide _).
  - destruct (ner_extract_entities _ _ _ _) as [[ner_entities|] service] eqn:Hner;
      [|done].
    apply ner_extract_entities_ids in Hner as [Hids Hpos'].
    cbn [mbind option_bind].
    rewrite deduplicate_keep_first by (by apply Forall_app).
    cbn [mbind option_bind]. intros [= <- _].
    by exists regex_entities, ner_entities.
  - cbn [mbind option_bind].
    rewrite deduplicate_keep_first by (by apply Forall_app).
    cbn [mbind option_bind]. intros [= <- _].
    exists regex_entities, []. split; [done|]. split; [constructor|done].
Qed.

(** X17: when the mode is not [ADVANCED] or the spaCy model is not loaded,
    [process_document] answers every request and leaves the counters of the
    NER service as they were; every entity of the response is a pattern
    entity with one position inside the document whose text is the slice of
    the document at that position, and no two entities of the response have
    the same text, start and end. *)
Theorem process_document_without_ner (ids : nat -> pystr) (elapsed : float)
    (ner_service : NERService) (request : DocumentRequest) :
  mode request <> ProcessingMode.ADVANCED \/ nlp = None ->
  exists response,
    process_document ids elapsed ner_service request
    = (Some response, ner_service) /\
    Forall (pattern_entity_ok (content request)) (entities response) /\
    NoDup ((fun e => (text e, start (first_pos e), end_ (first_pos e)))
             <$> entities response).
Proof.
  intros Hno. unfold process_document.
  destruct (extract_entities_from_rules ids (content request))
    as (regex_entities & Hex & Hok).
  pose proof (Forall_impl _ _ _ Hok (from_rule_ok ids (content request)))
    as Hok'.
  clear Hok. rename Hok' into Hok. rewrite Hex.
  assert (bool_decide (mode request = ProcessingMode.ADVANCED)
          && bool_decide (is_Some nlp) = false) as ->.
  { destruct Hno as [Hmode|Hnlp].
    - by rewrite bool_decide_eq_false_2.
    - rewrite Hnlp, (bool_decide_eq_false_2 (is_Some None)), andb_false_r;
        [done|]. by intros [? ?]. }
  cbn [mbind option_bind]. rewrite app_nil_r.
  assert (Forall has_position regex_entities) as Hpos.
  { eapply Forall_impl; [exact Hok|].
    intros e (a & b & Hpos & _). unfold has_position. by rewrite Hpos. }
  rewrite (deduplicate_keep_first _ Hpos).
  cbn [mbind option_bind]. eexists. split; [done|]. cbn [entities]. split.
  - apply Forall_forall. intros e He%keep_first_subseteq.
    rewrite Forall_forall in Hok. by apply Hok.
  - apply (NoDup_keys_triples _ (keep_first_positions _ Hpos)).
    apply keep_first_NoDup.
Qed.

Lemma filter_ext_in {A} (P Q : A -> Prop) `{!forall x, Decision (P x)}
    `{!forall x, Decision (Q x)} (l : list A) :
  (forall x, x ∈ l -> P x <-> Q x) -> filter P l = filter Q l.
Proof.
  induction l as [|x l IH]; intros HPQ; [done|].
  rewrite !filter_cons, IH by (intros y Hy; apply HPQ; by right).
  pose proof (HPQ x ltac:(left)) as Hx.
  destruct (decide (P x)), (decide (Q x)); tauto.
Qed.

(** X18: in [ADVANCED] mode with the model loaded, whenever the call of
    [ner_service.extract_entities] on the content returns,
    [process_document] answers and leaves the service as that call left
    it; the response lists the pattern entities first, each kept when no
    pattern entity before it has the same text, start and end, and then
    the entities of the model, each kept when no entity of the model
    before it and no pattern entity at all has the same text, start and
    end. *)
Theorem process_document_advanced (ids : nat -> pystr) (elapsed : float)
    (ner_service ner_service' : NERService) (request : DocumentRequest)
    (regex_entities ner_entities : list Entity) :
  mode request = ProcessingMode.ADVANCED ->
  is_Some nlp ->
  extract_entities ids (content request) = Some regex_entities ->
  ner_extract_entities ids (length regex_entities) ner_service
    (content request) = (Some ner_entities, ner_service') ->
  exists response,
    process_document ids elapsed ner_service request
    = (Some response, ner_service') /\
    entities response
    = keep_first_triple regex_entities
        ++ filter (fun e =>
                     (text e, start (first_pos e), end_ (first_pos e))
                     ∉ (fun e' => (text e', start (first_pos e'),
                                   end_ (first_pos e')))
                         <$> regex_entities)
                  (keep_first_triple ner_entities).
Proof.
  intros Hmode Hnlp Hex Hner.
  destruct (extract_entities_total ids (content request))
    as (regex_entities' & Hex' & Hpos).
  rewrite Hex in Hex'. injection Hex' as <-.
  destruct (ner_extract_entities_ids _ _ _ _ _ _ Hner) as [_ Hpos'].
  unfold process_document.
  rewrite Hex, Hmode, !bool_decide_eq_true_2 by done.
  cbn [andb]. rewrite Hner. cbn [mbind option_bind].
  rewrite deduplicate_keep_first by (by apply Forall_app).
  cbn [mbind option_bind]. eexists. split; [done|]. cbn [entities].
  rewrite keep_first_app, (keep_first_triple_eq _ Hpos). f_equal.
  rewrite <-(keep_first_triple_eq _ Hpos'). apply filter_ext_in.
  intros e He%keep_first_subseteq.
  assert (has_position e) as Hpe.
  { rewrite Forall_forall in Hpos'. by apply Hpos'. }
  by rewrite (same_key_same_triple _ e Hpos Hpe).
Qed.

(** X19: when the identifiers drawn for a request are distinct, the entities
    of the response have distinct identifiers, in every mode. *)
Theorem process_document_ids_distinct (ids : nat -> pystr) (elapsed : float)
    (ner_service ner_service' : NERService) (request : DocumentRequest)
    (response : ProcessingResponse) :
  Inj (=) (=) ids ->
  process_document ids elapsed ner_service request
  = (Some response, ner_service') ->
  NoDup (id <$> entities response).
Proof.
  intros Hinj Hrun.
  apply process_document_parts in Hrun
    as (regex_entities & ner_entities & Hex & _ & Hner & ->).
  destruct (extract_entities_ids ids (content request))
    as (regex_entities' & Hex' & Hregex).
  rewrite Hex in Hex'. injection Hex' as <-.
  apply (sublist_NoDup _ (id <$> (regex_entities ++ ner_entities)));
    [|apply (fmap_sublist id), keep_first_sublist].
  rewrite fmap_app, Hregex, Hner, <-fmap_app.
  change (length regex_entities) with (0 + length regex_entities)%nat at 2.
  rewrite <-seq_app. apply (NoDup_fmap_2 _), NoDup_seq.
Qed.

(** X20: the entities of a response can be applied to the document of the
    request: [apply_anonymization] does not raise on them, in any mode. *)
Theorem process_document_then_anonymize (ids : nat -> pystr) (elapsed : float)
    (ner_service ner_service' : NERService) (request : DocumentRequest)
    (response : ProcessingResponse) :
  process_document ids elapsed ner_service request
  = (Some response, ner_service') ->
  is_Some (apply_anonymization (content request) (entities response)).
Proof.
  intros Hrun.
  destruct (process_document_parts ids elapsed ner_service ner_service'
              request response Hrun)
    as (regex_entities & ner_entities & Hex & Hner & _ & ->).
  destruct (extract_entities_total ids (content request))
    as (regex_entities' & Hex' & Hpos).
  rewrite Hex in Hex'. injection Hex' as <-.
  destruct (apply_anonymization_Some (content request)
              (keep_first (regex_entities ++ ner_entities)))
    as (order & _ & _ & ->); [|by eexists].
  apply Forall_forall.
  intros e [_ He%keep_first_subseteq]%list_elem_of_filter.
  apply elem_of_app in He as [He|He].
  - rewrite Forall_forall in Hpos. by apply Hpos.
  - rewrite Forall_forall in Hner. by apply Hner.
Qed.

End Requests.

(** ** Texts in which no pattern can match *)

Section Anchors.
Context `{Unicode} (s : pystr).
Hypothesis no_anchor : Forall (fun c => is_anchor c = false) s.

Lemma ascii_digit_anchor (c : N) : in_range 48 57 c = true -> is_anchor c = true.
Proof.
  intros Hc. unfold is_anchor, is_digit, py_int_char.
  assert (is_ascii c = true) as ->.
  { unfold in_range in Hc. unfold is_ascii.
    apply andb_true_iff in Hc as [_ Hc%N.leb_le]. apply N.ltb_lt. lia. }
  by rewrite Hc.
Qed.

Lemma item_anchor (ic : bool) (it : cset_item) (c : N) :
  anchor_item ic it = true -> item_match ic it c = true -> is_anchor c = true.
Proof.
  destruct it as [p|lo hi| |]; cbn [anchor_item item_match]; [| | |done].
  - intros [Hic Hp]%andb_true_iff. apply negb_true_iff in Hic as ->.
    unfold lit_match. intros ->%N.eqb_eq.
    apply orb_true_iff in Hp as [Hp|Hp]; [by apply ascii_digit_anchor|].
    unfold is_anchor. by rewrite Hp, orb_true_r.
  - intros [[Hic Hlo]%andb_true_iff Hhi]%andb_true_iff.
    apply negb_true_iff in Hic as ->. unfold range_match. intros Hc.
    apply ascii_digit_anchor. unfold in_range in *.
    apply N.leb_le in Hlo, Hhi.
    apply andb_true_iff in Hc as [H1%N.leb_le H2%N.leb_le].
    apply andb_true_iff. split; apply N.leb_le; lia.
  - intros _ Hc. unfold is_anchor. by rewrite Hc.
Qed.

Lemma repeat_loop_dead (ic : bool)
    (body : (nat -> option nat) -> nat -> option nat)
    (lo : nat) (hi : option nat) (k : nat -> option nat) :
  (forall k' i, (forall j, k' j = None) -> body k' i = None) ->
  (forall j, k j = None) ->
  forall fuel count i, repeat_loop body lo hi k fuel count i = None.
Proof.
  intros Hbody Hk. induction fuel as [|fuel IH]; intros count i;
    cbn [repeat_loop]; rewrite Hk.
  - by destruct (lo <=? count)%nat.
  - rewrite Hbody.
    + by destruct hi as [h|]; [destruct (count <? h)%nat|];
        destruct (lo <=? count)%nat.
    + intros j. by destruct ((lo <=? count)%nat && (j =? i)%nat).
Qed.

(** A match whose continuation always fails, fails. *)
Lemma rmatch_dead (ic : bool) (r : regex) : forall k i,
  (forall j, k j = None) -> rmatch ic s r k i = None.
Proof.
  induction r as [|p|items| |r1 IH1 r2 IH2|r1 IH1 r2 IH2|lo hi r' IH];
    intros k i Hk; cbn [rmatch].
  - apply Hk.
  - destruct (s !! i); [|done]. by destruct (lit_match ic p n).
  - destruct (s !! i); [|done]. by destruct (set_match ic items n).
  - by destruct (at_boundary s i).
  - apply IH1. intros j. by apply IH2.
  - by rewrite IH1, IH2.
  - by apply (repeat_loop_dead ic).
Qed.

Lemma rmatch_anchored (ic : bool) (r : regex) :
  anchored ic r = true -> forall k i, rmatch ic s r k i = None.
Proof.
  induction r as [|p|items| |r1 IH1 r2 IH2|r1 IH1 r2 IH2|lo hi r' IH];
    cbn [anchored]; intros Ha k i; cbn [rmatch]; try done.
  - destruct (s !! i) as [c|] eqn:Hc; [|done].
    destruct (lit_match ic p c) eqn:Hm; [|done].
    pose proof (item_anchor ic (CLit p) c Ha Hm) as Hanchor.
    rewrite Forall_forall in no_anchor.
    rewrite (no_anchor c) in Hanchor; [done|by eapply list_elem_of_lookup_2].
  - destruct (s !! i) as [c|] eqn:Hc; [|done].
    destruct (set_match ic items c) eqn:Hm; [|done].
    unfold set_match in Hm. apply existsb_exists in Hm as (it & Hit & Hm).
    pose proof (proj1 (forallb_forall _ _) Ha it Hit) as Hai.
    pose proof (item_anchor ic it c Hai Hm) as Hanchor.
    rewrite Forall_forall in no_anchor.
    rewrite (no_anchor c) in Hanchor; [done|by eapply list_elem_of_lookup_2].
  - apply orb_true_iff in Ha as [Ha|Ha]; [by apply IH1|].
    apply rmatch_dead. intros j. by apply IH2.
  - apply andb_true_iff in Ha as [Ha1 Ha2]. by rewrite IH1, IH2.
  - apply andb_true_iff in Ha as [Hlo Ha]. apply Nat.leb_le in Hlo.
    destruct lo as [|lo]; [lia|]. cbn [Nat.add repeat_loop Nat.leb].
    rewrite IH by done. by destruct hi as [h|]; [destruct (0 <? h)%nat|].
Qed.

Lemma finditer_anchored (ic : bool) (r : regex) :
  anchored ic r = true -> finditer ic s r = [].
Proof.
  intros Ha. unfold finditer. generalize (S (length s)), 0%nat.
  intros fuel. induction fuel as [|fuel IH]; intros pos; [done|].
  cbn [finditer_from]. destruct (length s <? pos)%nat; [done|].
  by rewrite rmatch_anchored.
Qed.

Lemma scan_anchored (ids : nat -> pystr) (ic : bool) (ty : EntityType.t)
    (repl : pystr) (r : regex) (acc : list Entity) :
  anchored ic r = true -> scan ids ic s ty repl acc r = acc.
Proof. intros Ha. unfold scan. by rewrite finditer_anchored. Qed.

Lemma scans_anchored (ids : nat -> pystr) (ic : bool) (ty : EntityType.t)
    (repl : pystr) (rs : list regex) (acc : list Entity) :
  forallb (anchored ic) rs = true ->
  foldl (scan ids ic s ty repl) acc rs = acc.
Proof.
  induction rs as [|r rs IH]; [done|]. cbn [forallb foldl].
  intros [Hr Hrs]%andb_true_iff. rewrite scan_anchored by done. by apply IH.
Qed.

End Anchors.

(** X21: every pattern of [RegexService] needs a decimal digit or an at sign:
    on a text that has neither, [extract_entities] returns the empty
    list. *)
Theorem extract_entities_needs_anchor `{Unicode} (ids : nat -> pystr)
    (text : pystr) :
  Forall (fun c => is_anchor c = false) text ->
  extract_entities ids text = Some [].
Proof.
  intros Hno. unfold extract_entities. cbn zeta.
  rewrite (scans_anchored text Hno), (scan_anchored text Hno) by reflexivity.
  unfold scan_siret. rewrite (finditer_anchored text Hno) by reflexivity.
  cbn [foldl mbind option_bind].
  by rewrite (scan_anchored text Hno), !(scans_anchored text Hno)
    by reflexivity.
Qed.

(** ** Social security numbers *)

Section Ssn.
Context `{Unicode}.
Hypothesis digits_are_word : forall c, is_digit c = true -> is_word c = true.

Lemma rmatch_ssn (s : pystr) (i : nat) :
  rmatch false s ssn_pattern Some i
  = if ssn_run s i then Some (i + 13)%nat else None.
Proof.
  unfold ssn_pattern, ssn_run, digits_from, rtimes, rdigit.
  cbn [rseq rmatch].
  destruct (at_boundary s i); [|done]. cbn [andb].
  destruct (s !! i) as [c|]; [|done].
  change (set_match false [CLit (chr_ "1"); CLit (chr_ "2")] c)
    with ((c =? 49)%N || ((c =? 50)%N || false)).
  rewrite orb_false_r. destruct ((c =? 49)%N || (c =? 50)%N); [|done].
  cbn [andb].
  pose proof (repeat_exact false s [CDigit] 12
                (fun j => if at_boundary s j then Some j else None)
                12 (12 + S (length s)) 0 (S i) eq_refl ltac:(lia)) as Hrep.
  cbn [rmatch] in Hrep. rewrite Hrep. clear Hrep.
  rewrite (forallb_ext_all _ (digit_at s)) by apply set_at_digit.
  destruct (forallb _ _); [|done]. cbn [andb].
  replace (S i + 12)%nat with (i + 13)%nat by lia.
  by destruct (at_boundary s (i + 13)).
Qed.

Lemma ssn_run_digits (s : pystr) (i j : nat) :
  ssn_run s i = true -> (i <= j < i + 13)%nat -> digit_at s j = true.
Proof.
  unfold ssn_run.
  intros [[[_ Hfirst]%andb_true_iff Hd]%andb_true_iff _]%andb_true_iff Hj.
  destruct (decide (j = i)) as [->|Hne].
  - unfold digit_at. destruct (s !! i) as [c|]; [|done].
    unfold is_digit, py_int_char, is_ascii, in_range.
    apply orb_true_iff in Hfirst as [->%N.eqb_eq| ->%N.eqb_eq]; done.
  - apply (digits_from_at s (S i) 12 j Hd). lia.
Qed.

Lemma ssn_run_in_text (s : pystr) (i : nat) :
  ssn_run s i = true -> (i + 13 <= length s)%nat.
Proof.
  intros Hrun.
  pose proof (digit_at_length s (i + 12)
                (ssn_run_digits s i (i + 12) Hrun ltac:(lia))). lia.
Qed.

Lemma no_ssn_inside (s : pystr) (i j : nat) :
  ssn_run s i = true -> (i < j < i + 13)%nat -> ssn_run s j = false.
Proof.
  intros Hrun Hj. destruct j as [|j']; [lia|].
  pose proof (digit_word_at digits_are_word s j'
                (ssn_run_digits s i j' Hrun ltac:(lia))) as H1.
  pose proof (digit_word_at digits_are_word s (S j')
                (ssn_run_digits s i (S j') Hrun ltac:(lia))) as H2.
  unfold ssn_run, at_boundary. by rewrite H1, H2.
Qed.

(** Inside a longer run of digits no offset starts such a run. *)
Lemma no_ssn_in_long_run (s : pystr) (i n j : nat) :
  (13 < n)%nat -> digits_from s i n = true ->
  (i <= j)%nat -> (j + 13 <= i + n)%nat -> ssn_run s j = false.
Proof.
  intros Hn Hd Hij Hjn.
  destruct (decide (j = i)) as [->|Hne].
  - pose proof (digit_word_at digits_are_word s (i + 12)
                  (digits_from_at s i n (i + 12) Hd ltac:(lia))) as H1.
    pose proof (digit_word_at digits_are_word s (i + 13)
                  (digits_from_at s i n (i + 13) Hd ltac:(lia))) as H2.
    unfold ssn_run. replace (at_boundary s (i + 13)) with false.
    { apply andb_false_r. }
    unfold at_boundary. replace (i + 13)%nat with (S (i + 12)) in * by lia.
    by rewrite H1, H2.
  - destruct j as [|j']; [lia|].
    pose proof (digit_word_at digits_are_word s j'
                  (digits_from_at s i n j' Hd ltac:(lia))) as H1.
    pose proof (digit_word_at digits_are_word s (S j')
                  (digits_from_at s i n (S j') Hd ltac:(lia))) as H2.
    unfold ssn_run, at_boundary. by rewrite H1, H2.
Qed.

(** [finditer] finds every such run, and nothing else. *)
Lemma finditer_ssn_from (s : pystr) : forall fuel pos,
  (length s + 1 <= fuel + pos)%nat ->
  forall m : nat * nat,
    m ∈ finditer_from false s ssn_pattern fuel pos <->
    (pos <= m.1)%nat /\ ssn_run s m.1 = true /\ m.2 = (m.1 + 13)%nat.
Proof.
  induction fuel as [|fuel IH]; intros pos Hfuel m.
  - simpl. split; [by intros ?%elem_of_nil|].
    intros (Hpos & Hrun%ssn_run_in_text & _). lia.
  - cbn [finditer_from]. destruct (Nat.ltb_spec (length s) pos) as [Hlt|Hge].
    { split; [by intros ?%elem_of_nil|].
      intros (Hpos & Hrun%ssn_run_in_text & _). lia. }
    rewrite rmatch_ssn.
    destruct (ssn_run s pos) eqn:Hrun.
    + assert ((pos + 13 =? pos)%nat = false) as -> by (apply Nat.eqb_neq; lia).
      rewrite elem_of_cons, (IH (pos + 13)%nat) by lia. split.
      * intros [->|(Hpos & Hm & Hend)]; [done|]. split; [lia|done].
      * intros (Hpos & Hm & Hend).
        destruct (decide (m.1 = pos)) as [Heq|Hne].
        { left. destruct m as [a b]. simpl in *. by subst. }
        right. split; [|done].
        destruct (decide (m.1 < pos + 13)%nat) as [Hin|]; [|lia].
        rewrite (no_ssn_inside s pos m.1 Hrun) in Hm by lia. done.
    + rewrite (IH (S pos)) by lia. split.
      * intros (Hpos & Hm & Hend). split; [lia|done].
      * intros (Hpos & Hm & Hend). split; [|done].
        destruct (decide (m.1 = pos)) as [Heq|]; [|lia].
        rewrite Heq in Hm. congruence.
Qed.

Lemma finditer_ssn (s : pystr) (m : nat * nat) :
  m ∈ finditer false s ssn_pattern <->
  ssn_run s m.1 = true /\ m.2 = (m.1 + 13)%nat.
Proof.
  unfold finditer. rewrite finditer_ssn_from by lia.
  split; [by intros (_ & ? & ?)|]. intros [? ?]. split; [lia|done].
Qed.

End Ssn.

(** X22: [extract_entities] emits a social security entity for exactly the
    runs of 13 decimal digits that start with [1] or [2] and have a word
    boundary at both ends; no checksum or key is looked at; every social
    security entity of the result is such a run; and no such entity lies
    inside a longer run of digits, such as the 15 digits of a number
    written with its key. *)
Theorem ssn_emitted_iff_run `{Unicode} (ids : nat -> pystr) (text : pystr) :
  (forall c, is_digit c = true -> is_word c = true) ->
  exists entities,
    extract_entities ids text = Some entities /\
    (forall i, ssn_emitted entities text i <-> ssn_run text i = true) /\
    (forall e, e ∈ entities -> type e = EntityType.SSN ->
       exists i, ssn_run text i = true /\
                 positions e = [ {| start := Z.of_nat i;
                                    end_ := Z.of_nat (i + 13) |} ]) /\
    (forall i n j, (13 < n)%nat -> digits_from text i n = true ->
       (i <= j)%nat -> (j + 13 <= i + n)%nat ->
       ~ ssn_emitted entities text j).
Proof.
  intros Hlaw.
  destruct (extract_entities_stages ids text)
    as (phones & emails & sirets & ssns & addresses & legals & Hex
        & Hp%stage_type & He%stage_type & Hs & [Hfrom Hto]
        & Ha%stage_type & Hl%stage_type & _).
  assert (Forall (fun e => type e = EntityType.SIRET) sirets) as Hs'.
  { apply Forall_forall. intros e Hin.
    by destruct (Hs e Hin) as (m & n & _ & _ & ->). }
  assert (forall e,
            e ∈ phones ++ emails ++ sirets ++ ssns ++ addresses ++ legals ->
            type e = EntityType.SSN -> e ∈ ssns) as Hssn.
  { intros e Hin Hty. rewrite Forall_forall in Hp, He, Hs', Ha, Hl.
    rewrite !elem_of_app in Hin.
    destruct Hin as [Hin|[Hin|[Hin|[Hin|[Hin|Hin]]]]]; [| | |done| |].
    - apply Hp in Hin. congruence.
    - apply He in Hin. congruence.
    - apply Hs' in Hin. congruence.
    - apply Ha in Hin. congruence.
    - apply Hl in Hin. congruence. }
  rewrite Forall_forall in Hfrom.
  assert (forall i,
            ssn_emitted (phones ++ emails ++ sirets ++ ssns ++ addresses
                           ++ legals) text i -> ssn_run text i = true)
    as Hsound.
  { intros i (e & Hin & Hty & _ & Hpos & _).
    destruct (Hfrom e (Hssn e Hin Hty)) as (r & [a b] & n & Hr & Hm & ->).
    apply list_elem_of_singleton in Hr as ->.
    apply (finditer_ssn Hlaw) in Hm as [Hrun _]. cbn in Hpos, Hrun.
    injection Hpos as Ha' _. apply Nat2Z.inj in Ha'. by subst. }
  eexists. split; [exact Hex|]. split; [|split].
  - intros i. split; [apply Hsound|].
    + intros Hrun.
      destruct (Hto ssn_pattern (i, i + 13)%nat) as [n Hn].
      { apply list_elem_of_singleton. done. }
      { by apply (finditer_ssn Hlaw). }
      exists (regex_entity ids n text EntityType.SSN
                (lit "[N° Sécurité Sociale Anonymisé]") (i, i + 13)%nat).
      split; [|done]. rewrite !elem_of_app. auto 10.
  - intros e Hin Hty.
    destruct (Hfrom e (Hssn e Hin Hty)) as (r & [a b] & n & Hr & Hm & ->).
    apply list_elem_of_singleton in Hr as ->.
    apply (finditer_ssn Hlaw) in Hm as [Hrun Hend]. cbn in Hrun, Hend. subst b.
    by exists a.
  - intros i n j Hn Hd Hij Hjn Hemit%Hsound.
    by rewrite (no_ssn_in_long_run Hlaw text i n j) in Hemit.
Qed.
(** ** The properties above at sample inputs *)

Lemma luhn_check_single_digit_error_witness :
  @luhn_check ascii_only (lit "7328" ++ 50%N :: lit "932000074") = Some true /\
  @luhn_check ascii_only (lit "7328" ++ 51%N :: lit "932000074") = Some false.
Proof.
  split; [reflexivity|].
  apply (@luhn_check_single_digit_error ascii_only (lit "7328")
           (lit "932000074") 50%N 51%N 2%N 3%N);
    [reflexivity|reflexivity|reflexivity|reflexivity|discriminate|reflexivity].
Defined.

Lemma luhn_check_digit_unique_witness :
  Forall (fun c => @is_digit ascii_only c = true) (lit "7328293200007") /\
  exists d, (d < 10)%N /\
    @luhn_check ascii_only (lit "7328293200007" ++ [48 + d]%N) = Some true /\
    forall d', (d' < 10)%N ->
      @luhn_check ascii_only (lit "7328293200007" ++ [48 + d']%N) = Some true ->
      d' = d.
Proof.
  assert (Forall (fun c => @is_digit ascii_only c = true)
            (lit "7328293200007")) as Hnum by (repeat constructor).
  split; [exact Hnum|].
  exact (@luhn_check_digit_unique ascii_only (lit "7328293200007") Hnum).
Defined.

Lemma deduplicate_app_witness :
  deduplicate ([scenario_phone sample_ids; scenario_email sample_ids]
                 ++ [sample_person "Personne A"; scenario_phone sample_ids])
  = Some [scenario_phone sample_ids; scenario_email sample_ids;
          sample_person "Personne A"].
Proof.
  rewrite (deduplicate_app
             [scenario_phone sample_ids; scenario_email sample_ids]
             [sample_person "Personne A"; scenario_phone sample_ids]
             [scenario_phone sample_ids; scenario_email sample_ids]
             [sample_person "Personne A"; scenario_phone sample_ids]
             eq_refl eq_refl).
  vm_compute. reflexivity.
Defined.

Lemma apply_anonymization_self_replacement_witness :
  apply_anonymization scenario_text [unchanged_phone; unselected_phone]
  = Some scenario_text.
Proof.
  apply (apply_anonymization_self_replacement scenario_text
           [unchanged_phone; unselected_phone]).
  - apply Forall_cons_2; [|constructor].
    split; [done|]. split; [cbn; lia|]. vm_compute. discriminate.
  - split; [constructor|exact I].
  - apply Forall_cons_2; [|constructor]. reflexivity.
Defined.

Lemma apply_anonymization_reads_witness :
  apply_anonymization scenario_text
    [scenario_phone sample_ids; unselected_phone]
  = apply_anonymization scenario_text
      [scenario_phone counter_ids; unselected_phone].
Proof.
  apply (apply_anonymization_reads scenario_text
           [scenario_phone sample_ids; unselected_phone]
           [scenario_phone counter_ids; unselected_phone]).
  constructor; [done|]. constructor; [done|constructor].
Defined.

Lemma apply_anonymization_app_witness :
  apply_anonymization scenario_text
    ([scenario_phone sample_ids] ++ [scenario_email sample_ids])
  = content' ← apply_anonymization scenario_text [scenario_email sample_ids];
    apply_anonymization content' [scenario_phone sample_ids].
Proof.
  apply (apply_anonymization_app scenario_text [scenario_phone sample_ids]
           [scenario_email sample_ids]).
  intros e e' ->%list_elem_of_singleton ->%list_elem_of_singleton _ _.
  cbn. lia.
Defined.

Lemma ner_extract_entities_counters_witness :
  exists self',
    @ner_extract_entities one_person sample_ids 0 NERService_init
      (lit "Jean Dupont")
    = (Some [sample_person "Personne A"], self') /\
    person_counter self' = 2 /\ org_counter self' = 1.
Proof.
  eexists. split; [vm_compute; reflexivity|].
  destruct (@ner_extract_entities_counters one_person sample_ids 0
              NERService_init {| person_counter := 2; org_counter := 1 |}
              (lit "Jean Dupont") _ [sample_person "Personne A"] eq_refl)
    as (Hp & Ho & _); [vm_compute; reflexivity|].
  split; [exact Hp|exact Ho].
Defined.

Lemma ner_extract_entities_names_witness :
  replacement
    <$> filter (fun e => type e = EntityType.PERSON)
          [sample_person "Personne B"]
  = [person_name 2].
Proof.
  destruct (@ner_extract_entities_names one_person sample_ids 0
              {| person_counter := 2; org_counter := 1 |}
              {| person_counter := 3; org_counter := 1 |}
              (lit "Jean Dupont") _ [sample_person "Personne B"] eq_refl)
    as [Hp _]; [vm_compute; reflexivity|].
  exact Hp.
Defined.

Lemma ner_extract_entities_chr_fails_witness :
  (@ner_extract_entities one_person sample_ids 0 exhausted_service
     (lit "Jean Dupont")).1 = None.
Proof.
  destruct (@ner_extract_entities_chr_fails one_person sample_ids 0
              exhausted_service (lit "Jean Dupont") _ eq_refl eq_refl)
    as [Hnone _]; [|exact Hnone].
  apply Exists_cons_hd. reflexivity.
Defined.

Lemma process_document_without_ner_witness :
  (mode address_request <> ProcessingMode.ADVANCED \/ @nlp no_model = None) /\
  length <$> @extract_entities ascii_only sample_ids (content address_request)
  = Some 2%nat /\
  @process_document ascii_only no_model sample_ids 0%float NERService_init
    address_request
  = (Some address_response, NERService_init) /\
  Forall (pattern_entity_ok (content address_request)) [address_entity] /\
  NoDup ((fun e => (text e, start (first_pos e), end_ (first_pos e)))
           <$> [address_entity]).
Proof.
  split; [right; reflexivity|]. split; [vm_compute; reflexivity|].
  assert (@process_document ascii_only no_model sample_ids 0%float
            NERService_init address_request
          = (Some address_response, NERService_init)) as Hc
    by (vm_compute; reflexivity).
  split; [exact Hc|].
  destruct (@process_document_without_ner ascii_only no_model sample_ids
              0%float NERService_init address_request (or_intror eq_refl))
    as (response & Hrun & Hok & Hnd).
  rewrite Hc in Hrun. injection Hrun as <-.
  split; [exact Hok|exact Hnd].
Defined.

Lemma process_document_advanced_witness :
  @extract_entities ascii_only sample_ids (content scenario_advanced_request)
  = Some [scenario_phone sample_ids; scenario_email sample_ids] /\
  @ner_extract_entities scenario_model sample_ids 2 NERService_init
    (content scenario_advanced_request)
  = (Some [scenario_contact; scenario_org],
     {| person_counter := 2; org_counter := 2 |}) /\
  exists response,
    @process_document ascii_only scenario_model sample_ids 0%float
      NERService_init scenario_advanced_request
    = (Some response, {| person_counter := 2; org_counter := 2 |}) /\
    entities response
    = [scenario_phone sample_ids; scenario_email sample_ids;
       scenario_contact].
Proof.
  assert (@extract_entities ascii_only sample_ids
            (content scenario_advanced_request)
          = Some [scenario_phone sample_ids; scenario_email sample_ids])
    as Hex by (vm_compute; reflexivity).
  assert (@ner_extract_entities scenario_model sample_ids 2 NERService_init
            (content scenario_advanced_request)
          = (Some [scenario_contact; scenario_org],
             {| person_counter := 2; org_counter := 2 |})) as Hner
    by (vm_compute; reflexivity).
  split; [exact Hex|]. split; [exact Hner|].
  destruct (@process_document_advanced ascii_only scenario_model sample_ids
              0%float NERService_init
              {| person_counter := 2; org_counter := 2 |}
              scenario_advanced_request
              [scenario_phone sample_ids; scenario_email sample_ids]
              [scenario_contact; scenario_org]
              eq_refl (ex_intro _ _ eq_refl) Hex Hner)
    as (response & Hrun & Hents).
  exists response. split; [exact Hrun|].
  rewrite Hents. vm_compute. reflexivity.
Defined.

Lemma counter_ids_inj : Inj (=) (=) counter_ids.
Proof. intros n m [= Heq]. by apply Nat2N.inj. Qed.

Lemma process_document_ids_distinct_witness :
  exists response,
    @process_document ascii_only no_model counter_ids 0%float NERService_init
      (scenario_request (lit "contact.txt") None)
    = (Some response, NERService_init) /\
    NoDup (id <$> entities response).
Proof.
  eexists. split; [vm_compute; reflexivity|].
  apply (@process_document_ids_distinct ascii_only no_model counter_ids
           0%float NERService_init NERService_init
           (scenario_request (lit "contact.txt") None));
    [exact counter_ids_inj|vm_compute; reflexivity].
Defined.

Lemma process_document_then_anonymize_witness :
  exists response,
    @process_document ascii_only no_model sample_ids 0%float NERService_init
      (scenario_request (lit "contact.txt") None)
    = (Some response, NERService_init) /\
    is_Some (apply_anonymization
               (content (scenario_request (lit "contact.txt") None))
               (entities response)).
Proof.
  eexists. split; [vm_compute; reflexivity|].
  apply (@process_document_then_anonymize ascii_only no_model sample_ids
           0%float NERService_init NERService_init
           (scenario_request (lit "contact.txt") None)).
  vm_compute. reflexivity.
Defined.

Lemma extract_entities_needs_anchor_witness :
  Forall (fun c => @is_anchor ascii_only c = false) (lit "Bonjour Jean") /\
  @extract_entities ascii_only sample_ids (lit "Bonjour Jean") = Some [].
Proof.
  assert (Forall (fun c => @is_anchor ascii_only c = false)
            (lit "Bonjour Jean")) as Hno by (repeat constructor).
  split; [exact Hno|].
  exact (@extract_entities_needs_anchor ascii_only sample_ids
           (lit "Bonjour Jean") Hno).
Defined.

Lemma ssn_emitted_iff_run_witness :
  (forall c, @is_digit ascii_only c = true -> @is_word ascii_only c = true) /\
  exists entities,
    @extract_entities ascii_only sample_ids (lit "NIR 1850578006084.")
    = Some entities /\
    ssn_emitted entities (lit "NIR 1850578006084.") 4.
Proof.
  split; [exact ascii_only_digits_are_word|].
  destruct (@ssn_emitted_iff_run ascii_only sample_ids
              (lit "NIR 1850578006084.") ascii_only_digits_are_word)
    as (entities & Hex & Hiff & _).
  exists entities. split; [exact Hex|].
  apply (Hiff 4%nat). reflexivity.
Defined.
